(** * MTTD / MTTR dashboard: a shallow embedding of [app.py]

    The script is one linear pass over a pandas table: coerce the date
    columns, derive the Month-Year bucket, compute the two metrics per row,
    filter on the sidebar selections, aggregate per (month, priority) and
    export.  The embedding follows it line by line.

    Conventions of the model.
    - A table cell is a [cell]: missing ([NaN], which stands for NaN, None
      and NaT alike), text, a timestamp or a number.
    - [Time t] is a timestamp without time zone that counts microseconds
      since 1970-01-01: what a date cell of a workbook is read as.  Every
      other timestamp (with a time zone, or counting in another unit) is a
      [Stamp].  The count of a [Time] is not bounded; converting a [Stamp]
      to a finer unit checks the 64-bit range as the library does.
    - A number is the rational a binary64 float denotes.  The two metrics
      are rounded as the interpreter rounds them ([round64]); the sums and
      means of the aggregation are exact.
    - Text is a sequence of code points below 256.
    - A row is a finite map from column names to cells; a table is its
      column list together with its rows.
    - Python exceptions are values of [exn], carried by [result].
    - The library is pandas as of its version 3; where an earlier default
      differs and matters ([observed] of [groupby]) the definition takes the
      default as a parameter. *)

From stdpp Require Import base option list gmap strings sorting.
From Stdlib Require Import ZArith QArith Qabs Qround Qpower Lqa Ascii DecimalString.

Close Scope Q_scope.
Local Open Scope Z_scope.

(** ** Cells, rows and tables *)

(** The unit a timestamp counts in. *)
Inductive resolution : Type := res_s | res_ms | res_us | res_ns.

(** A timestamp as the library holds it: its unit, the name of its time
    zone if it has one, its distance from UTC in seconds at that instant,
    and its count of units since 1970-01-01 (in UTC when it has a zone, on
    the wall clock otherwise). *)
Record stamp : Type := mkStamp {
  reso : resolution;
  zone : option string;
  utcoffset : Z;
  value : Z
}.

Inductive cell : Type :=
  | NaN
  | Str (s : string)
  | Time (t : Z)
  | Num (q : Q)
  | Stamp (st : stamp).

Global Instance Q_eq_dec : EqDecision Q.
Proof. solve_decision. Defined.
Global Instance resolution_eq_dec : EqDecision resolution.
Proof. solve_decision. Defined.
Global Instance stamp_eq_dec : EqDecision stamp.
Proof. solve_decision. Defined.
Global Instance cell_eq_dec : EqDecision cell.
Proof. solve_decision. Defined.

Record DataFrame : Type := mkDF {
  columns : list string;
  rows : list (gmap string cell)
}.

(** ** Exceptions *)

Inductive exn : Type :=
  | KeyError (k : string)
  | TypeError
  | ValueError
  | AttributeError
  | OutOfBoundsDatetime
  | IllegalCharacterError.

Inductive result (A : Type) : Type :=
  | Ok (a : A)
  | Raise (e : exn).
Global Arguments Ok {A} a.
Global Arguments Raise {A} e.

Global Instance result_ret : MRet result := λ A, Ok.
Global Instance result_bind : MBind result := λ A B f m,
  match m with Ok a => f a | Raise e => Raise e end.
Global Instance result_fmap : FMap result := λ A B f m,
  match m with Ok a => Ok (f a) | Raise e => Raise e end.

(** ** Python and pandas primitives *)

(** [row[k]] *)
Definition getitem (r : gmap string cell) (k : string) : result cell :=
  match r !! k with
  | Some c => Ok c
  | None => Raise (KeyError k)
  end.

(** [pd.notnull(x)] *)
Definition notnull (c : cell) : bool :=
  match c with NaN => false | _ => true end.

(** [str.isspace] on one code point below 256. *)
Definition isspace (a : ascii) : bool :=
  match N_of_ascii a with
  | 9 | 10 | 11 | 12 | 13 | 28 | 29 | 30 | 31 | 32 | 133 | 160 => true
  | _ => false
  end%N.

Fixpoint lstrip (s : string) : string :=
  match s with
  | EmptyString => EmptyString
  | String a s' => if isspace a then lstrip s' else s
  end.

Definition rstrip (s : string) : string := String.rev (lstrip (String.rev s)).

(** [s.strip()] *)
Definition strip (s : string) : string := rstrip (lstrip s).

(** [str.lower] on one code point below 256: A-Z and the Latin-1 capitals. *)
Definition lower_char (a : ascii) : ascii :=
  let n := N_of_ascii a in
  if ((65 <=? n) && (n <=? 90) || (192 <=? n) && (n <=? 222) && negb (n =? 215))%N
  then ascii_of_N (n + 32) else a.

(** [s.lower()] *)
Fixpoint lower (s : string) : string :=
  match s with
  | EmptyString => EmptyString
  | String a s' => String (lower_char a) (lower s')
  end.

(** ** Timestamps *)

(** The timestamp a cell holds. *)
Definition stamp_of (c : cell) : option stamp :=
  match c with
  | Time t => Some (mkStamp res_us None 0 t)
  | Stamp st => Some st
  | _ => None
  end.

Definition ticks_per_second (r : resolution) : Z :=
  match r with
  | res_s => 1
  | res_ms => 1000
  | res_us => 1000000
  | res_ns => 1000000000
  end.

(** The finer of two resolutions. *)
Definition finer (a b : resolution) : resolution :=
  if ticks_per_second a <? ticks_per_second b then b else a.

(** A count the library can hold: 64 bits, the least value being NaT. *)
Definition int64 (z : Z) : Prop := - 2 ^ 63 < z < 2 ^ 63.
Global Instance int64_dec z : Decision (int64 z).
Proof. unfold int64. apply _. Defined.

(** The count of [st] in units of [r], a resolution at least as fine as its
    own: a cast that leaves the 64-bit range is refused. *)
Definition as_reso (r : resolution) (st : stamp) : result Z :=
  if bool_decide (reso st = r) then Ok (value st)
  else
    let v := value st * (ticks_per_second r / ticks_per_second (reso st)) in
    if bool_decide (int64 v) then Ok v else Raise OutOfBoundsDatetime.

(** The whole microseconds in a count of units of [r]: what the days,
    seconds and microseconds of a Timestamp or Timedelta add up to. *)
Definition to_micros (r : resolution) (v : Z) : Z :=
  match r with
  | res_s => v * 1000000
  | res_ms => v * 1000
  | res_us => v
  | res_ns => v / 1000
  end.

(** The wall clock reading of a timestamp, in microseconds. *)
Definition wall_clock (st : stamp) : Z :=
  to_micros (reso st) (value st)
  + match zone st with Some _ => utcoffset st * 1000000 | None => 0 end.

(** [a - b] on two cells that are not missing, as the Timedelta's whole
    microseconds.  A timestamp with a time zone and one without cannot be
    subtracted; two timestamps of different resolution are first cast to the
    finer one.  The difference of two numbers is a number, which has no
    [total_seconds]; text cannot be subtracted at all.  The library also
    refuses a difference that leaves the 64-bit range, which takes two
    timestamps more than 292 years apart at nanosecond resolution; this last
    bound is not modelled. *)
Definition sub (a b : cell) : result Z :=
  match a, b with
  | Num _, Num _ => Raise AttributeError
  | _, _ =>
      match stamp_of a, stamp_of b with
      | Some x, Some y =>
          if bool_decide (is_Some (zone x) ↔ is_Some (zone y)) then
            let r := finer (reso x) (reso y) in
            vx ← as_reso r x;
            vy ← as_reso r y;
            Ok (to_micros r (vx - vy))
          else Raise TypeError
      | _, _ => Raise TypeError
      end
  end.

(** ** Binary floating point *)

(** The integer nearest to [x], the even one of two that are equally near. *)
Definition nearest_even (x : Q) : Z :=
  let m := Qfloor x in
  match (x - inject_Z m ?= 1 # 2)%Q with
  | Lt => m
  | Gt => m + 1
  | Eq => if Z.even m then m else m + 1
  end.

(** The exponent [e] of the last place of a positive [a] in a significand of
    53 bits: [2^52 <= a / 2^e < 2^53]. *)
Definition ulp_exponent (a : Q) : Z :=
  let e0 := Z.log2 (Qnum a) - Z.log2 (Zpos (Qden a)) - 53 in
  if Qfloor (a / 2 ^ e0)%Q <? 2 ^ 53 then e0 else e0 + 1.

Definition round_pos (a : Q) : Q :=
  let e := ulp_exponent a in
  (inject_Z (nearest_even (a / 2 ^ e)) * 2 ^ e)%Q.

(** The binary64 number nearest to [q], ties to even, in lowest terms.  The
    exponent range is not bounded: the durations of the script are far from
    overflow and from the subnormal numbers. *)
Definition round64 (q : Q) : Q :=
  match Qnum q with
  | 0 => 0%Q
  | Zpos _ => Qred (round_pos q)
  | Zneg _ => Qred (- round_pos (- q))
  end.

(** [float(n)], [a + b] and [a / b] on floats. *)
Definition float_of_int (n : Z) : Q := round64 (inject_Z n).
Definition fadd (a b : Q) : Q := round64 (a + b)%Q.
Definition fdiv (a b : Q) : Q := round64 (a / b)%Q.

(** [td.total_seconds()], which the library computes as
    [days * 24 * 3600 + seconds + microseconds / 1_000_000]: the whole
    seconds are an integer, the quotient is a float, and so is their sum. *)
Definition total_seconds (td : Z) : Q :=
  fadd (float_of_int (td / 1000000))
       (fdiv (inject_Z (td mod 1000000)) 1000000).

(** ** Calendar: [strftime('%b-%Y')] and [to_datetime(x, format='%b-%Y')] *)

Definition us_per_day : Z := 86400000000.

(** Proleptic Gregorian year and month (1..12) of a day count since
    1970-01-01. *)
Definition civil_from_days (days : Z) : Z * Z :=
  let z := days + 719468 in
  let era := z / 146097 in
  let doe := z - era * 146097 in
  let yoe := (doe - doe / 1460 + doe / 36524 - doe / 146096) / 365 in
  let doy := doe - (365 * yoe + yoe / 4 - yoe / 100) in
  let mp := (5 * doy + 2) / 153 in
  let m := if mp <? 10 then mp + 3 else mp - 9 in
  (yoe + era * 400 + (if m <=? 2 then 1 else 0), m).

(** Day count since 1970-01-01 of the first day of month [m] of year [y]. *)
Definition days_from_civil (y m : Z) : Z :=
  let y' := if m <=? 2 then y - 1 else y in
  let era := y' / 400 in
  let yoe := y' - era * 400 in
  let mp := if 2 <? m then m - 3 else m + 9 in
  let doy := (153 * mp + 2) / 5 in
  era * 146097 + (yoe * 365 + yoe / 4 - yoe / 100 + doy) - 719468.

Definition month_abbr : list string :=
  ["Jan"; "Feb"; "Mar"; "Apr"; "May"; "Jun";
   "Jul"; "Aug"; "Sep"; "Oct"; "Nov"; "Dec"].

(** [%Y]: the year in decimal, as the C library prints it. *)
Definition format_year (y : Z) : string := NilZero.string_of_int (Z.to_int y).

(** The label [%b-%Y] of month [m] of year [y]. *)
Definition format_bY (y m : Z) : string :=
  nth (Z.to_nat (m - 1)) month_abbr "" +:+ "-" +:+ format_year y.

(** [ts.strftime('%b-%Y')] *)
Definition strftime_bY (t : Z) : string :=
  let '(y, m) := civil_from_days (t / us_per_day) in format_bY y m.

Definition digit (a : ascii) : option Z :=
  let n := N_of_ascii a in
  if ((48 <=? n) && (n <=? 57))%N then Some (Z.of_N n - 48) else None.

(** Position (1..12) of a month abbreviation; the directive matches without
    regard to case. *)
Fixpoint month_index (abbrs : list string) (s : string) (i : Z) : option Z :=
  match abbrs with
  | [] => None
  | a :: abbrs' => if bool_decide (lower a = lower s) then Some i
                   else month_index abbrs' s (i + 1)
  end.

(** The year and the month (1..12) a label of the form [%b-%Y] names: three
    letters, a dash and four digits. *)
Definition parse_bY (s : string) : option (Z * Z) :=
  match s with
  | String a (String b (String c (String "-"
      (String d1 (String d2 (String d3 (String d4 EmptyString))))))) =>
      match month_index month_abbr (String a (String b (String c EmptyString))) 1,
            digit d1, digit d2, digit d3, digit d4 with
      | Some m, Some y1, Some y2, Some y3, Some y4 =>
          let y := 1000 * y1 + 100 * y2 + 10 * y3 + y4 in
          if y =? 0 then None else Some (y, m)
      | _, _, _, _, _ => None
      end
  | _ => None
  end.

(** [pd.to_datetime(x, format='%b-%Y')] on text: midnight of the first day
    of the month the label names. *)
Definition strptime_bY (s : string) : result Z :=
  match parse_bY s with
  | Some (y, m) => Ok (days_from_civil y m * us_per_day)
  | None => Raise ValueError
  end.

(** ** Columns *)

(** [df[c]] *)
Definition getcol (df : DataFrame) (c : string) : result (list cell) :=
  if bool_decide (c ∈ columns df) then mapM (λ r, getitem r c) (rows df)
  else Raise (KeyError c).

(** [df[c] = vals]: an existing column is overwritten in place, a new one is
    appended.  Every caller computes [vals] from [df] itself, so the lengths
    agree. *)
Definition setcol (df : DataFrame) (c : string) (vals : list cell) : DataFrame :=
  mkDF (if bool_decide (c ∈ columns df) then columns df else columns df ++ [c])
       (zip_with (λ r v, <[c := v]> r) (rows df) vals).

(** [s.unique()]: distinct values in order of first appearance. *)
Fixpoint unique {A} `{EqDecision A} (l : list A) : list A :=
  match l with
  | [] => []
  | x :: l' => x :: filter (λ y, y ≠ x) (unique l')
  end.

(** [s.dropna()] *)
Definition dropna (l : list cell) : list cell := filter (λ c, c ≠ NaN) l.

(** [s.isin(vals)] on one cell *)
Definition isin (vals : list cell) (c : cell) : bool := bool_decide (c ∈ vals).

(** [df[mask]] *)
Fixpoint boolean_index {A} (l : list A) (mask : list bool) : list A :=
  match l, mask with
  | x :: l', b :: mask' =>
      if b then x :: boolean_index l' mask' else boolean_index l' mask'
  | _, _ => []
  end.

(** [pd.Categorical(values, categories=cats, ordered=True)] on one cell:
    whatever is not a category becomes missing. *)
Definition categorical (cats : list string) (c : cell) : cell :=
  match c with
  | Str s => if bool_decide (s ∈ cats) then Str s else NaN
  | _ => NaN
  end.

(** Code of a categorical cell: its position in [cats]. *)
Fixpoint index_of (cats : list string) (s : string) : option Z :=
  match cats with
  | [] => None
  | c :: cats' => if bool_decide (c = s) then Some 0
                  else Z.succ <$> index_of cats' s
  end.

(** [s.dt.strftime('%b-%Y')] on one cell *)
Definition dt_strftime (c : cell) : result cell :=
  match c with
  | Time t => Ok (Str (strftime_bY t))
  | Stamp st => Ok (Str (strftime_bY (wall_clock st)))
  | NaN => Ok NaN
  | _ => Raise AttributeError
  end.

(** [pd.to_datetime(x, format='%b-%Y')] on one cell, as a sort key.  No
    caller passes a missing value: each drops them first.  A timestamp is its
    own key; one with a time zone cannot be compared with the keys of
    labels, which have none. *)
Definition to_datetime_bY (c : cell) : result Z :=
  match c with
  | Str s => strptime_bY s
  | Time t => Ok t
  | Stamp st => match zone st with
                | None => Ok (wall_clock st)
                | Some _ => Raise TypeError
                end
  | _ => Raise ValueError
  end.

(** A stable sort: elements that compare equal keep their order, as with
    [sorted] and with the library's sorts of grouped and indexed values. *)
Fixpoint insert_by {A} (R : relation A) `{!RelDecision R} (x : A) (l : list A)
    : list A :=
  match l with
  | [] => [x]
  | y :: l' => if decide (R x y) then x :: y :: l' else y :: insert_by R x l'
  end.

Definition stable_sort {A} (R : relation A) `{!RelDecision R} (l : list A)
    : list A :=
  foldr (insert_by R) [] l.

Definition key_le {K A} (le : relation K) : relation (K * A) :=
  λ a b, le a.1 b.1.
Global Instance key_le_dec {K A} (le : relation K) `{!RelDecision le} :
  RelDecision (@key_le K A le).
Proof. intros a b. unfold key_le. apply _. Defined.

(** [sorted(l, key=key)] and [sort_values(key=key)]: the keys are computed
    first, so a key that raises aborts the sort. *)
Definition sorted_by {K A} (le : relation K) `{!RelDecision le}
    (key : A → result K) (l : list A) : result (list A) :=
  ks ← mapM (λ x, k ← key x; Ok (k, x)) l;
  Ok (snd <$> stable_sort (key_le le) ks).

(** ** Aggregation primitives *)

(** The numeric values a reduction sees: missing ones are skipped, text and
    timestamps are rejected. *)
Fixpoint numeric (l : list cell) : result (list Q) :=
  match l with
  | [] => Ok []
  | NaN :: l' => numeric l'
  | Num q :: l' => qs ← numeric l'; Ok (q :: qs)
  | _ :: _ => Raise TypeError
  end.

Definition Qsum (qs : list Q) : Q := foldr Qplus 0%Q qs.

(** ['count'], ['sum'] and ['mean'] of a list of non-missing values. *)
Definition agg_count (qs : list Q) : Z := Z.of_nat (length qs).
Definition agg_sum (qs : list Q) : Q := Qsum qs.
Definition agg_mean (qs : list Q) : cell :=
  match qs with
  | [] => NaN
  | _ => Num (Qsum qs / inject_Z (Z.of_nat (length qs)))%Q
  end.

(** Order of the group keys of [groupby(['Month-Year', 'Priority'])]: the
    month labels as text, then the priority by category code. *)
Definition label_le (a b : cell) : Prop :=
  match a, b with
  | Str x, Str y => String.le x y
  | _, _ => True
  end.
Global Instance label_le_dec : RelDecision label_le.
Proof. intros [] []; simpl; apply _. Defined.

Definition code (cats : list string) (c : cell) : option Z :=
  match c with Str s => index_of cats s | _ => None end.

(** Missing codes sort last. *)
Definition code_le (a b : option Z) : Prop :=
  match a, b with
  | Some x, Some y => x ≤ y
  | _, None => True
  | None, Some _ => False
  end.
Global Instance code_le_dec : RelDecision code_le.
Proof. intros [] []; simpl; apply _. Defined.

Definition group_key_le (cats : list string) (a b : cell * cell) : Prop :=
  if decide (a.1 = b.1) then code_le (code cats a.2) (code cats b.2)
  else label_le a.1 b.1.
Global Instance group_key_le_dec cats : RelDecision (group_key_le cats).
Proof. intros a b. unfold group_key_le. case_decide; apply _. Defined.

(** ** Frames with a row index (the summary tables) *)

Record Indexed : Type := mkIndexed {
  index : list cell;
  frame : DataFrame
}.

(** [pd.DataFrame(records)] on a list of dicts, each in insertion order:
    the columns are the keys in order of first appearance. *)
Definition from_records (recs : list (list (string * cell))) : DataFrame :=
  mkDF (unique (recs ≫= fmap fst)) (list_to_map <$> recs).

(** [df.set_index(c)] *)
Definition set_index (df : DataFrame) (c : string) : result Indexed :=
  idx ← getcol df c;
  Ok (mkIndexed idx (mkDF (filter (λ x, x ≠ c) (columns df))
                          (delete c <$> rows df))).

(** [df.mean(numeric_only=True)]: one mean per numeric column, missing values
    skipped; a column holding text or timestamps is left out. *)
Definition mean_numeric_only (df : DataFrame) : list (string * cell) :=
  omap (λ c, match getcol df c ≫= numeric with
             | Ok qs => Some (c, agg_mean qs)
             | Raise _ => None
             end) (columns df).

(** [pd.concat([t, row])] where [row] is a one-row frame labelled [label]:
    columns are aligned by name, absent cells are missing. *)
Definition concat_row (t : Indexed) (label : cell) (row : list (string * cell))
    : Indexed :=
  let cols := unique (columns (frame t) ++ row.*1) in
  let r : gmap string cell := list_to_map row in
  mkIndexed (index t ++ [label])
    (mkDF cols
       (rows (frame t) ++ [list_to_map ((λ c, (c, default NaN (r !! c))) <$> cols)])).

(** ** Columns of a datetime type *)

Definition same_dtype (a b : stamp) : Prop :=
  reso a = reso b ∧ zone a = zone b.
Global Instance same_dtype_dec a b : Decision (same_dtype a b).
Proof. unfold same_dtype. apply _. Defined.

(** A column of one datetime type: every cell is missing or a timestamp, and
    the timestamps agree in resolution and time zone. *)
Definition datetime_column (col : list cell) : Prop :=
  Forall (λ c, c = NaN ∨ is_Some (stamp_of c)) col ∧
  Forall (λ a, Forall (same_dtype a) (omap stamp_of col)) (omap stamp_of col).
Global Instance datetime_column_dec col : Decision (datetime_column col).
Proof. unfold datetime_column. apply _. Defined.

(** ** The spreadsheet writer *)

(** The code points the writer refuses in text: the control characters
    other than tab, line feed and carriage return. *)
Definition illegal_char (a : ascii) : bool :=
  let n := N_of_ascii a in
  ((n <? 32) && negb ((n =? 9) || (n =? 10) || (n =? 13)))%N.

Fixpoint has_illegal_char (s : string) : bool :=
  match s with
  | EmptyString => false
  | String a s' => illegal_char a || has_illegal_char s'
  end.

(** Writing one cell: a timestamp with a time zone and text with a refused
    character raise. *)
Definition write_cell (c : cell) : result () :=
  match c with
  | Stamp st => match zone st with
                | Some _ => Raise ValueError
                | None => Ok ()
                end
  | Str s => if has_illegal_char s then Raise IllegalCharacterError else Ok ()
  | _ => Ok ()
  end.

(** The sheet size the format allows. *)
Definition max_rows : Z := 1048576.
Definition max_cols : Z := 16384.

(** [df.to_excel(writer, ...)]: the size is checked first; then the cells are
    written, the header first, then the row labels [idx] (none with
    [index=False]), then the columns one after the other. *)
Definition to_excel (idx : list cell) (df : DataFrame) : result () :=
  if bool_decide (Z.of_nat (length (rows df)) ≤ max_rows ∧
                  Z.of_nat (length (columns df)) ≤ max_cols) then
    _ ← mapM write_cell (Str <$> columns df);
    _ ← mapM write_cell idx;
    _ ← mapM (λ c, mapM (λ r : gmap string cell, write_cell (default NaN (r !! c)))
                        (rows df))
             (columns df);
    Ok ()
  else Raise ValueError.

(** ** The script *)

Definition date_cols : list string :=
  ["Date/Time Opened"; "Responded Date/Time"; "Service Restored Date";
   "Opened Date"].

Definition priority_order : list string := ["P1"; "P2"; "P3"; "P4"; "P5"].

(** [groupby] is called without [observed=]; with a categorical key the
    library's default decides whether categories that do not occur get a
    group of their own.  The default is [True] (only the key pairs that occur)
    from pandas 3.0 on, and was [False] before. *)
Definition observed_default : bool := true.

Section Pipeline.

(** [str(x)] of a number or of a timestamp is the library's rendering; the
    pipeline only compares it with two fixed words, so it stays a parameter. *)
Variable repr : cell → string.

(** [pd.to_datetime(col, errors='coerce')] on a column that is not yet of a
    datetime type is the library's parser.  It works on the column as a
    whole: it settles on one format and one time zone, makes missing what it
    cannot read, and raises when the offsets of the column disagree. *)
Variable parse_datetime : list cell → result (list cell).

(** [str(x)] *)
Definition str (c : cell) : string :=
  match c with
  | Str s => s
  | NaN => "nan"
  | _ => repr c
  end.

(** [pd.to_datetime(col, errors='coerce')]: a column that is of a datetime
    type already comes back as it is; any other goes through the parser,
    whose result is a column of one datetime type of the same length. *)
Definition to_datetime_coerce (col : list cell) : result (list cell) :=
  if bool_decide (datetime_column col) then Ok col
  else
    vals ← parse_datetime col;
    if bool_decide (length vals = length col ∧ datetime_column vals)
    then Ok vals
    else Raise ValueError.

(** *** Loader (lines 16-32) *)

Fixpoint convert_dates (cols : list string) (df : DataFrame) : result DataFrame :=
  match cols with
  | [] => Ok df
  | col :: cols' =>
      vals ← getcol df col;
      coerced ← to_datetime_coerce vals;
      convert_dates cols' (setcol df col coerced)
  end.

Definition load (raw : DataFrame) : result DataFrame :=
  df ← convert_dates date_cols raw;
  restored ← getcol df "Service Restored Date";
  month_year ← mapM dt_strftime restored;
  let df := setcol df "Month-Year" month_year in
  priority ← getcol df "Priority";
  Ok (setcol df "Priority" (categorical priority_order <$> priority)).

(** *** Metric calculator (lines 35-48) *)

Definition calc_mtd (row : gmap string cell) : result cell :=
  origin ← getitem row "Case Origin";
  if bool_decide (lower (strip (str origin)) ∈ ["internal call logging"; "web"])
  then Ok (Num 0)
  else
    responded ← getitem row "Responded Date/Time";
    if notnull responded then
      opened ← getitem row "Date/Time Opened";
      if notnull opened then
        td ← sub responded opened;
        Ok (Num (fdiv (total_seconds td) 60))
      else Ok NaN
    else Ok NaN.

Definition calc_mtr (row : gmap string cell) : result cell :=
  restored ← getitem row "Service Restored Date";
  if notnull restored then
    opened ← getitem row "Date/Time Opened";
    if notnull opened then
      td ← sub restored opened;
      Ok (Num (fdiv (total_seconds td) 60))
    else Ok NaN
  else Ok NaN.

(** [df.apply(f, axis=1)]: [f] on every row in turn.  On a table without rows
    the library tries [f] on a row of missing values instead, to see what it
    returns; with the columns the calculators read in place that attempt
    returns and the result is a column without cells, as here.  Without them
    it hands back a frame that lines 47-48 cannot assign; that case is not
    modelled. *)
Definition apply_rows (f : gmap string cell → result cell) (df : DataFrame)
    : result (list cell) :=
  mapM f (rows df).

Definition add_metrics (df : DataFrame) : result DataFrame :=
  mtd ← apply_rows calc_mtd df;
  let df := setcol df "Final MTD" mtd in
  mtr ← apply_rows calc_mtr df;
  Ok (setcol df "Final MTR" mtr).

(** *** Filters (lines 51-60) *)

Definition months (df : DataFrame) : result (list cell) :=
  month_year ← getcol df "Month-Year";
  sorted_by Z.le to_datetime_bY (unique (dropna month_year)).

Definition priorities (df : DataFrame) : result (list cell) :=
  priority ← getcol df "Priority";
  Ok (Str <$> filter (λ p, Str p ∈ unique priority) priority_order).

Definition filtered_df (df : DataFrame) (selected_months selected_priorities : list cell)
    : result DataFrame :=
  month_year ← getcol df "Month-Year";
  priority ← getcol df "Priority";
  let mask := zip_with andb (isin selected_months <$> month_year)
                            (isin selected_priorities <$> priority) in
  Ok (mkDF (columns df) (boolean_index (rows df) mask)).

(** *** Aggregator (lines 63-67, 126-151) *)

(** [df.groupby(['Month-Year', 'Priority'])[metric]]: every group with its key
    and the metric values of its rows.  Rows with a missing key are dropped
    and the groups come out in key order.  [Priority] is categorical at every
    call, so without [observed] every month is paired with every category. *)
Definition groupby (observed : bool) (df : DataFrame) (metric : string)
    : result (list (cell * cell * list cell)) :=
  month_year ← getcol df "Month-Year";
  priority ← getcol df "Priority";
  values ← getcol df metric;
  let recs := filter (λ x, x.1.1 ≠ NaN ∧ x.1.2 ≠ NaN)
                     (zip (zip month_year priority) values) in
  let keys := if observed then unique (recs.*1)
              else m ← unique (recs.*1.*1); p ← priority_order; [(m, Str p)] in
  Ok ((λ k, (k, (filter (λ x, x.1 = k) recs).*2))
        <$> stable_sort (group_key_le priority_order) keys).

(** Sort key of line 66: the month as a date, then the category code. *)
Definition summary_key (r : cell * cell * cell) : result (Z * option Z) :=
  t ← to_datetime_bY r.1.1;
  Ok (t, code priority_order r.1.2).

Definition summary_key_le (a b : Z * option Z) : Prop :=
  a.1 < b.1 ∨ (a.1 = b.1 ∧ code_le a.2 b.2).
Global Instance summary_key_le_dec : RelDecision summary_key_le.
Proof. intros a b. unfold summary_key_le. apply _. Defined.

Definition generate_avg_summary (df : DataFrame) (metric : string)
    : result (list (cell * cell * cell)) :=
  groups ← groupby observed_default df metric;
  summary ← mapM (λ g, qs ← numeric g.2; Ok (g.1, agg_mean qs)) groups;
  let summary := (λ r, (r.1.1, categorical priority_order r.1.2, r.2)) <$> summary in
  sorted_by summary_key_le summary_key summary.

Record group_row : Type := mkGroup {
  g_month : cell;
  g_priority : cell;
  g_count : Z;
  g_sum : Q;
  g_avg : cell
}.

(** [groupby(...).agg(COUNT=(metric, 'count'), SUM=(metric, 'sum'),
    AVG=(metric, 'mean')).reset_index()] *)
Definition groupby_agg (observed : bool) (df : DataFrame) (metric : string)
    : result (list group_row) :=
  groups ← groupby observed df metric;
  mapM (λ g, qs ← numeric g.2;
             Ok (mkGroup g.1.1 g.1.2 (agg_count qs) (agg_sum qs) (agg_mean qs)))
       groups.

(** The row dict of lines 134-145, in insertion order. *)
Definition summary_record (label : string) (grouped : list group_row) (m : cell)
    : list (string * cell) :=
  let month_data := filter (λ g, g_month g = m) grouped in
  ("Month-Year", m) ::
  (p ← priority_order;
   match filter (λ g, g_priority g = Str p) month_data with
   | g :: _ =>
       [(p +:+ " (COUNT)", Num (inject_Z (g_count g)));
        (p +:+ " (SUM " +:+ label +:+ ")", Num (g_sum g));
        (p +:+ " (AVG " +:+ label +:+ ")", g_avg g)]
   | [] =>
       [(p +:+ " (COUNT)", Num 0);
        (p +:+ " (SUM " +:+ label +:+ ")", Num 0);
        (p +:+ " (AVG " +:+ label +:+ ")", Num 0)]
   end).

Definition full_summary_with (observed : bool) (df : DataFrame)
    (metric label : string) : result Indexed :=
  grouped ← groupby_agg observed df metric;
  ms ← sorted_by Z.le to_datetime_bY (unique (g_month <$> grouped));
  let result := summary_record label grouped <$> ms in
  summary_df ← set_index (from_records result) "Month-Year";
  let avg_row := mean_numeric_only (frame summary_df) in
  Ok (concat_row summary_df (Str "AVG") avg_row).

Definition full_summary : DataFrame → string → string → result Indexed :=
  full_summary_with observed_default.

(** *** Presenter (lines 77-78, 100-101): the pivot's rows.  Each row lists
    the cells the summary fills; every other cell of the row is missing. *)

Definition pivot (summary : list (cell * cell * cell))
    : result (list (cell * list (cell * cell))) :=
  let idx := stable_sort label_le (unique (summary.*1.*1)) in
  sorted ← sorted_by Z.le to_datetime_bY idx;
  Ok ((λ m : cell, (m, (λ r : cell * cell * cell, (r.1.2, r.2))
                         <$> filter (λ r, r.1.1 = m) summary))
        <$> (sorted : list cell)).

(** *** Exporter (lines 153-161) *)

Record Workbook : Type := mkWorkbook {
  main_data : DataFrame;
  mttd_summary : Indexed;
  mttr_summary : Indexed
}.

(** The workbook is the three tables the writer has accepted; its bytes are
    not modelled. *)
Definition export (filtered : DataFrame) : result Workbook :=
  mtd_summary_full ← full_summary filtered "Final MTD" "MTTD";
  mtr_summary_full ← full_summary filtered "Final MTR" "MTTR";
  _ ← to_excel [] filtered;
  _ ← to_excel (index mtd_summary_full) (frame mtd_summary_full);
  _ ← to_excel (index mtr_summary_full) (frame mtr_summary_full);
  Ok (mkWorkbook filtered mtd_summary_full mtr_summary_full).

(** The table shown in the third tab (line 123). *)
Definition raw_view (filtered : DataFrame) : DataFrame := filtered.

(** One render pass at fixed sidebar selections. *)
Definition prepare (raw : DataFrame) : result DataFrame :=
  df ← load raw;
  add_metrics df.

Definition render (raw : DataFrame) (selected_months selected_priorities : list cell)
    : result (DataFrame * Workbook) :=
  df ← prepare raw;
  filtered ← filtered_df df selected_months selected_priorities;
  mtd_avg ← generate_avg_summary filtered "Final MTD";
  mtr_avg ← generate_avg_summary filtered "Final MTR";
  _ ← pivot mtd_avg;
  _ ← pivot mtr_avg;
  wb ← export filtered;
  Ok (raw_view filtered, wb).

End Pipeline.

(** * Specification vocabulary *)

(** A date cell as a workbook delivers it: missing, or a timestamp without
    time zone in microseconds. *)
Definition datetime (c : cell) : Prop :=
  match c with NaN | Time _ => True | _ => False end.
Global Instance datetime_dec c : Decision (datetime c).
Proof. destruct c; simpl; apply _. Defined.

(** A cell of a date column after the loader's coercion: missing, or a
    timestamp of whatever kind. *)
Definition timestamp (c : cell) : Prop := c = NaN ∨ is_Some (stamp_of c).
Global Instance timestamp_dec c : Decision (timestamp c).
Proof. unfold timestamp. apply _. Defined.

(** A timestamp with a time zone. *)
Definition zone_aware (c : cell) : Prop :=
  match c with Stamp st => is_Some (zone st) | _ => False end.
Global Instance zone_aware_dec c : Decision (zone_aware c).
Proof. destruct c; simpl; apply _. Defined.

(** The minutes the calculators return for a Timedelta of [td]
    microseconds (lines 39 and 44). *)
Definition minutes (td : Z) : Q := fdiv (total_seconds td) 60.

(** Half the distance between 1 and the next binary64 number: the relative
    error of one rounding. *)
Definition unit_roundoff : Q := 1 # 9007199254740992.

(** A bound on the relative error of the three roundings in [minutes]. *)
Definition minutes_tolerance : Q := 1 # 1125899906842624.

(** A cell of a metric column. *)
Definition number (c : cell) : Prop :=
  match c with NaN | Num _ => True | _ => False end.
Global Instance number_dec c : Decision (number c).
Proof. destruct c; simpl; apply _. Defined.

(** Row [r] has a cell in column [k], and it satisfies [P]. *)
Definition col_is (P : cell → Prop) (r : gmap string cell) (k : string) : Prop :=
  match r !! k with Some c => P c | None => False end.
Global Instance col_is_dec P `{∀ c, Decision (P c)} r k : Decision (col_is P r k).
Proof. unfold col_is. destruct (r !! k); apply _. Defined.

(** The origins for which detection is immediate. *)
Definition direct_origin (repr : cell → string) (origin : cell) : Prop :=
  lower (strip (str repr origin)) = "internal call logging" ∨
  lower (strip (str repr origin)) = "web".

Global Instance direct_origin_dec repr origin : Decision (direct_origin repr origin).
Proof. unfold direct_origin. apply _. Defined.

(** C1 as stated, for a record whose origin is not one of the two words and
    whose two timestamps are date cells of the workbook: MTTD is the exact
    quotient of their difference by one minute. *)
Definition mttd_exact (repr : cell → string) (row : gmap string cell) : Prop :=
  ∀ origin r o,
    row !! "Case Origin" = Some origin → ¬ direct_origin repr origin →
    row !! "Responded Date/Time" = Some (Time r) →
    row !! "Date/Time Opened" = Some (Time o) →
    ∃ q, calc_mtd repr row = Ok (Num q) ∧ (q == (r - o) # 60000000)%Q.

(** C2 as stated, for a record as the loader leaves it (each date cell
    missing or a timestamp): the calculator returns, and returns a value when
    both timestamps are present. *)
Definition mttr_never_fails (row : gmap string cell) : Prop :=
  ∀ restored opened,
    row !! "Service Restored Date" = Some restored →
    row !! "Date/Time Opened" = Some opened →
    timestamp restored → timestamp opened →
    ∃ v, calc_mtr row = Ok v ∧ (restored ≠ NaN → opened ≠ NaN → v ≠ NaN).

(** The cell of row [r] in column [c]. *)
Definition cell_of (r : gmap string cell) (c : string) : cell :=
  default NaN (r !! c).

(** The cells of column [c], in table order. *)
Definition column_of (df : DataFrame) (c : string) : list cell :=
  (λ r, cell_of r c) <$> rows df.

(** Column [c] exists: it is listed and every row has a cell for it. *)
Definition has_column (df : DataFrame) (c : string) : Prop :=
  c ∈ columns df ∧ Forall (λ r, is_Some (r !! c)) (rows df).

(** The bucket of a restoration cell (line 21). *)
Definition bucket (restored : cell) : cell :=
  match restored with
  | Time t => Str (strftime_bY t)
  | Stamp st => Str (strftime_bY (wall_clock st))
  | _ => NaN
  end.

(** What [load] leaves in every row. *)
Definition loaded_row (r : gmap string cell) : Prop :=
  (∀ c, c ∈ date_cols → col_is timestamp r c) ∧
  r !! "Month-Year" = Some (bucket (cell_of r "Service Restored Date")) ∧
  col_is (λ p, p = categorical priority_order p) r "Priority".


(** A row the two calculators can work on. *)
Definition calc_ready (r : gmap string cell) : Prop :=
  col_is (λ _, True) r "Case Origin" ∧
  col_is datetime r "Responded Date/Time" ∧
  col_is datetime r "Date/Time Opened" ∧
  col_is datetime r "Service Restored Date".
Global Instance calc_ready_dec r : Decision (calc_ready r).
Proof. unfold calc_ready. apply _. Defined.

(** C10 as stated: after the two calculators have run, every column the
    table already had holds in every record the value it held before. *)
Definition frame_preserving (repr : cell → string) (df : DataFrame) : Prop :=
  ∀ df', add_metrics repr df = Ok df' →
    Forall2 (λ r r', ∀ c, c ∈ columns df → r' !! c = r !! c)
            (rows df) (rows df').

(** [a] comes no later than [b] in the order of their sort keys. *)
Definition by_key {K A} (le : relation K) (key : A → result K) : relation A :=
  λ a b, ∃ ka kb, key a = Ok ka ∧ key b = Ok kb ∧ le ka kb.

(** Chronological order of two month buckets, read off their labels. *)
Definition chronological : relation cell := by_key Z.le to_datetime_bY.

Global Instance has_column_dec df c : Decision (has_column df c).
Proof. unfold has_column. apply _. Defined.

(** What [prepare] leaves in every row: the loader's cells and the two
    metrics of the row itself. *)
Definition prepared_row (repr : cell → string) (r : gmap string cell) : Prop :=
  loaded_row r ∧
  (∃ v, calc_mtd repr r = Ok v ∧ r !! "Final MTD" = Some v) ∧
  (∃ w, calc_mtr r = Ok w ∧ r !! "Final MTR" = Some w).

(** C4 as stated, at the default selection (every month and every priority
    on offer): a record without restoration timestamp whose priority is
    selected is shown in the raw view and exported in "Main Data". *)
Definition null_bucket_shown (repr : cell → string)
    (pd : list cell → result (list cell))
    (raw : DataFrame) : Prop :=
  ∀ df ms ps view wb r,
    prepare repr pd raw = Ok df → months df = Ok ms → priorities df = Ok ps →
    render repr pd raw ms ps = Ok (view, wb) →
    r ∈ rows df → r !! "Service Restored Date" = Some NaN →
    cell_of r "Priority" ∈ ps →
    r ∈ rows view ∧ r ∈ rows (main_data wb).

(** The grouping key of a record: its month bucket and its priority. *)
Definition key_of (r : gmap string cell) : cell * cell :=
  (cell_of r "Month-Year", cell_of r "Priority").

(** A record that takes part in the grouping: no part of its key is missing. *)
Definition keyed (r : gmap string cell) : Prop :=
  (key_of r).1 ≠ NaN ∧ (key_of r).2 ≠ NaN.
Global Instance keyed_dec r : Decision (keyed r).
Proof. unfold keyed. apply _. Defined.

(** The metric cells of the records of a group, in table order. *)
Definition group_cells (df : DataFrame) (metric : string) (k : cell * cell)
    : list cell :=
  (λ r, cell_of r metric) <$> filter (λ r, key_of r = k) (rows df).

(** The non-missing values among metric cells. *)
Definition non_null (l : list cell) : list Q :=
  omap (λ c, match c with Num q => Some q | _ => None end) l.

(** The three column names of priority [p] in a summary table. *)
Definition triad_columns (label p : string) : list string :=
  [p +:+ " (COUNT)"; p +:+ " (SUM " +:+ label +:+ ")";
   p +:+ " (AVG " +:+ label +:+ ")"].

Definition summary_columns (label : string) : list string :=
  priority_order ≫= triad_columns label.

(** The three cells of priority [p] in a row of a summary table. *)
Definition triad (label p : string) (row : gmap string cell)
    : option cell * option cell * option cell :=
  (row !! (p +:+ " (COUNT)"), row !! (p +:+ " (SUM " +:+ label +:+ ")"),
   row !! (p +:+ " (AVG " +:+ label +:+ ")")).

(** The aggregate of the group with key [k]. *)
Definition group_of (df : DataFrame) (metric : string) (k : cell * cell)
    : group_row :=
  let qs := non_null (group_cells df metric k) in
  mkGroup k.1 k.2 (agg_count qs) (agg_sum qs) (agg_mean qs).

(** The first five characters of a column name. *)
Definition prefix5 (s : string) : string := String.substring 0 5 s.

(** The cells of priority [p] as line 139-145 write them from the groups
    found for the month. *)
Definition triad_of (found : list group_row) : option cell * option cell * option cell :=
  match found with
  | g :: _ => (Some (Num (inject_Z (g_count g))), Some (Num (g_sum g)),
               Some (g_avg g))
  | [] => (Some (Num 0), Some (Num 0), Some (Num 0))
  end.

(** The mean of column [c] over the rows of a summary table, missing cells
    skipped. *)
Definition column_mean (month_rows : list (gmap string cell)) (c : string) : cell :=
  agg_mean (non_null ((λ row, cell_of row c) <$> month_rows)).

(** The trailing row: one column mean per summary column. *)
Definition avg_row_of (label : string) (month_rows : list (gmap string cell))
    : gmap string cell :=
  list_to_map ((λ c, (c, column_mean month_rows c)) <$> summary_columns label).

(** The row of month [m]: the record of lines 134-145 without its
    "Month-Year" entry, which [set_index] moves to the index. *)
Definition month_row (label : string) (grouped : list group_row) (m : cell)
    : gmap string cell :=
  delete "Month-Year" (list_to_map (summary_record label grouped m)).

(** A bucket cell whose label parses (or a missing bucket). *)
Definition valid_label (c : cell) : Prop :=
  match c with
  | NaN => True
  | _ => match to_datetime_bY c with Ok _ => True | Raise _ => False end
  end.
Global Instance valid_label_dec c : Decision (valid_label c).
Proof. unfold valid_label. destruct c; try apply _; destruct (to_datetime_bY _); apply _. Defined.

(** What the aggregator needs of the table it is given: the three columns,
    buckets that parse, numbers in the metric column, and at least one record
    that takes part in the grouping. *)
Record summary_input (df : DataFrame) (metric : string) : Prop := {
  in_month : has_column df "Month-Year";
  in_priority : has_column df "Priority";
  in_metric : has_column df metric;
  in_labels : Forall (λ r, valid_label (cell_of r "Month-Year")) (rows df);
  in_numbers : Forall (λ r, number (cell_of r metric)) (rows df);
  in_keyed : Exists keyed (rows df)
}.

(** C3 as stated, for the tables the script filters out of an upload:
    whatever the selections, the full summary is a table, and one of 15 data
    columns. *)
Definition always_fifteen_columns (repr : cell → string)
    (pd : list cell → result (list cell)) (raw : DataFrame) : Prop :=
  ∀ df selected_months selected_priorities f,
    prepare repr pd raw = Ok df →
    filtered_df df selected_months selected_priorities = Ok f →
    ∃ t, full_summary f "Final MTD" "MTTD" = Ok t ∧
         length (columns (frame t)) = 15%nat.

(** The key pairs that occur in a table. *)
Definition occurs (df : DataFrame) (k : cell * cell) : Prop :=
  Exists (λ r, keyed r ∧ key_of r = k) (rows df).
Global Instance occurs_dec df k : Decision (occurs df k).
Proof. unfold occurs. apply _. Defined.

(** C5 as stated: every cell of the trailing row is the sum of its column
    over the month rows divided by the number of month rows. *)
Definition avg_row_plain_mean (df : DataFrame) (metric label : string) : Prop :=
  ∀ t month_rows avg c,
    full_summary df metric label = Ok t →
    rows (frame t) = month_rows ++ [avg] →
    c ∈ columns (frame t) →
    ∃ a, avg !! c = Some (Num a) ∧
         (a == Qsum (non_null ((λ row, cell_of row c) <$> month_rows))
               / inject_Z (Z.of_nat (length month_rows)))%Q.

(** Order of two rows of the aggregate summary: the earlier month first and,
    within a month, the priority that comes first in P1..P5 (a priority
    outside the categories last). *)
Definition summary_order : relation (cell * cell * cell) :=
  by_key summary_key_le summary_key.

(** Order of two (year, month) pairs. *)
Definition year_month_le (a b : Z * Z) : Prop :=
  a.1 < b.1 ∨ (a.1 = b.1 ∧ a.2 ≤ b.2).

(** A restoration cell whose year prints with four digits. *)
Definition four_digit_year (c : cell) : Prop :=
  match c with
  | Time t => 1000 ≤ (civil_from_days (t / us_per_day)).1 ≤ 9999
  | Stamp st => 1000 ≤ (civil_from_days (wall_clock st / us_per_day)).1 ≤ 9999
  | _ => True
  end.
Global Instance four_digit_year_dec c : Decision (four_digit_year c).
Proof. destruct c; simpl; apply _. Defined.

(** [f] holds at each of the [n] integers from [z] on. *)
Fixpoint all_from (f : Z → bool) (z : Z) (n : nat) : bool :=
  match n with
  | O => true
  | S n' => f z && all_from f (z + 1) n'
  end.

(** The label of month [m] of year [y] reads back as that month. *)
Definition label_ok (y m : Z) : bool :=
  bool_decide (parse_bY (format_bY y m) = Some (y, m)).

(** The month after a (year, month) pair. *)
Definition next_month (ym : Z * Z) : Z * Z :=
  if ym.2 =? 12 then (ym.1 + 1, 1) else (ym.1, ym.2 + 1).

(** The month [civil_from_days] gives for day [doe] of the 400-year era that
    starts on 0000-03-01 begins on or before that day, and the month after
    it begins later. *)
Definition era_day_ok (doe : Z) : bool :=
  let ym := civil_from_days (doe - 719468) in
  let nx := next_month ym in
  (days_from_civil ym.1 ym.2 + 719468 <=? doe) &&
  (doe <? days_from_civil nx.1 nx.2 + 719468).

(** ** Vocabulary of the preparation and of the views *)

(** The columns the preparation reads, in the order it reads them. *)
Definition required_columns : list string :=
  date_cols ++ ["Priority"; "Case Origin"].

(** The column list after [c] has been assigned. *)
Definition with_column (cols : list string) (c : string) : list string :=
  if bool_decide (c ∈ cols) then cols else cols ++ [c].

(** A cell that names one of the five categories. *)
Definition is_category (c : cell) : Prop := c ∈ Str <$> priority_order.
Global Instance is_category_dec c : Decision (is_category c).
Proof. unfold is_category. apply _. Defined.

(** Midnight of the first day of the month timestamp [t] lies in. *)
Definition month_start (t : Z) : Z :=
  let ym := civil_from_days (t / us_per_day) in
  days_from_civil ym.1 ym.2 * us_per_day.

(** A table whose priorities went through line 32: each is one of the five
    categories or missing. *)
Definition categorised (df : DataFrame) : Prop :=
  Forall (λ r, col_is (λ p, p = categorical priority_order p) r "Priority")
         (rows df).
Global Instance categorised_dec df : Decision (categorised df).
Proof. unfold categorised. apply _. Defined.

(** The mean the aggregator reports for the group with key [k]. *)
Definition group_mean (df : DataFrame) (metric : string) (k : cell * cell)
    : cell :=
  agg_mean (non_null (group_cells df metric k)).

(** The cells of the pivot row of month [m]: priority and value of every
    summary row of that month. *)
Definition pivot_row (summary : list (cell * cell * cell)) (m : cell)
    : list (cell * cell) :=
  (λ r : cell * cell * cell, (r.1.2, r.2)) <$> filter (λ r, r.1.1 = m) summary.

(** The record has a value of the metric. *)
Definition has_value (metric : string) (r : gmap string cell) : Prop :=
  match cell_of r metric with Num _ => True | _ => False end.
Global Instance has_value_dec metric r : Decision (has_value metric r).
Proof. unfold has_value. destruct (cell_of r metric); apply _. Defined.

(** A record the full summary counts: it has a month bucket, one of the five
    priorities and a value of the metric. *)
Definition counted (metric : string) (r : gmap string cell) : Prop :=
  cell_of r "Month-Year" ≠ NaN ∧ is_category (cell_of r "Priority") ∧
  has_value metric r.
Global Instance counted_dec metric r : Decision (counted metric r).
Proof. unfold counted. apply _. Defined.

(** The number of values in the group with key [k]. *)
Definition group_count (df : DataFrame) (metric : string) (k : cell * cell) : Z :=
  Z.of_nat (length (non_null (group_cells df metric k))).

Definition sumZ (l : list Z) : Z := foldr Z.add 0 l.

(** A string of white space only. *)
Fixpoint blank (s : string) : bool :=
  match s with
  | EmptyString => true
  | String a s' => isspace a && blank s'
  end.

(** * Sample data *)

(** 2025-01-01T00:00 and 2025-12-01T00:00 in microseconds since the epoch. *)
Definition jan_2025 : Z := 20089 * us_per_day.
Definition dec_2025 : Z := 20423 * us_per_day.
Definition minute : Z := 60000000.

(** The renderer and the parser are not exercised by the samples, whose
    date columns hold timestamps. *)
Definition no_repr : cell → string := λ _, "".
Definition no_parse : list cell → result (list cell) := λ _, Raise ValueError.

Definition ticket (origin : string) (opened responded restored : cell)
    (priority : string) : gmap string cell :=
  list_to_map [("Case Origin", Str origin); ("Date/Time Opened", opened);
               ("Responded Date/Time", responded);
               ("Service Restored Date", restored);
               ("Opened Date", opened); ("Priority", Str priority)].

Definition ticket_columns : list string :=
  ["Case Origin"; "Date/Time Opened"; "Responded Date/Time";
   "Service Restored Date"; "Opened Date"; "Priority"].

(** Row A and Row B of the scenario: a web ticket answered after 10 minutes
    and restored after 60, a phone ticket answered after 5 and restored
    after 30. *)
Definition row_a : gmap string cell :=
  ticket "Web" (Time jan_2025) (Time (jan_2025 + 10 * minute))
         (Time (jan_2025 + 60 * minute)) "P1".
Definition row_b : gmap string cell :=
  ticket "Phone" (Time jan_2025) (Time (jan_2025 + 5 * minute))
         (Time (jan_2025 + 30 * minute)) "P1".

(** A ticket answered after 100 seconds. *)
Definition row_100s : gmap string cell :=
  ticket "Phone" (Time jan_2025) (Time (jan_2025 + 100000000))
         (Time (jan_2025 + 30 * minute)) "P1".

(** 2025-01-01 10:00 at two hours east of UTC, which is 08:00 UTC: what the
    parser makes of a text date that carries an offset. *)
Definition offset_text : string := "2025-01-01 10:00:00+02:00".
Definition offset_stamp : stamp :=
  mkStamp res_us (Some "UTC+02:00") 7200 (jan_2025 + 480 * minute).

(** A ticket whose restoration date was read from such a text, while its
    other dates are date cells of the workbook. *)
Definition row_offset : gmap string cell :=
  ticket "Phone" (Time jan_2025) (Time (jan_2025 + 5 * minute))
         (Stamp offset_stamp) "P1".

(** The same ticket as uploaded, and a parser that reads its column of
    restoration dates as the library does. *)
Definition upload_offset : DataFrame :=
  mkDF ticket_columns
       [ticket "Phone" (Time jan_2025) (Time (jan_2025 + 5 * minute))
               (Str offset_text) "P1"].
Definition offset_parse : list cell → result (list cell) :=
  λ col, Ok ((λ c, if bool_decide (c = Str offset_text)
                   then Stamp offset_stamp else NaN) <$> col).

(** A ticket that was answered but never restored. *)
Definition row_open : gmap string cell :=
  ticket "Phone" (Time jan_2025) (Time (jan_2025 + 5 * minute)) NaN "P2".

(** A December ticket that was restored but never answered, and one that
    was answered after 20 minutes. *)
Definition row_silent : gmap string cell :=
  ticket "Phone" (Time dec_2025) NaN (Time (dec_2025 + 30 * minute)) "P1".
Definition row_dec : gmap string cell :=
  ticket "Phone" (Time dec_2025) (Time (dec_2025 + 20 * minute))
         (Time (dec_2025 + 40 * minute)) "P2".

Definition scenario : DataFrame := mkDF ticket_columns [row_a; row_b].
Definition with_open : DataFrame := mkDF ticket_columns [row_a; row_b; row_open].
Definition two_months : DataFrame :=
  mkDF ticket_columns [row_dec; row_silent; row_a; row_b].

(** An upload that already carries a column named like a derived one. *)
Definition reupload : DataFrame :=
  mkDF (ticket_columns ++ ["Final MTD"])
       [<["Final MTD" := Num 7]> row_b].

(** The value of a computation that is known to return. *)
Definition unwrap {A} (d : A) (m : result A) : A :=
  match m with Ok a => a | Raise _ => d end.

Definition empty_frame : DataFrame := mkDF [] [].

(** The table with the unrestored ticket, prepared and filtered at the
    default selection. *)
Definition with_open_df : DataFrame :=
  unwrap empty_frame (prepare no_repr no_parse with_open).
Definition with_open_filtered : DataFrame :=
  unwrap empty_frame
    (filtered_df with_open_df [Str "Jan-2025"] [Str "P1"; Str "P2"]).
Definition with_open_book : Workbook :=
  unwrap (mkWorkbook empty_frame (mkIndexed [] empty_frame)
                     (mkIndexed [] empty_frame))
         (export with_open_filtered).
Definition unrestored : gmap string cell :=
  default ∅ (rows with_open_df !! 2%nat).

(** The two-month table, prepared and filtered at the default selection. *)
Definition two_months_df : DataFrame :=
  unwrap empty_frame (prepare no_repr no_parse two_months).
Definition two_months_filtered : DataFrame :=
  unwrap empty_frame
    (filtered_df two_months_df [Str "Jan-2025"; Str "Dec-2025"]
                 [Str "P1"; Str "P2"]).
Definition two_months_summary : Indexed :=
  unwrap (mkIndexed [] empty_frame)
         (full_summary two_months_filtered "Final MTD" "MTTD").
Definition two_months_rows : list (gmap string cell) :=
  take 2 (rows (frame two_months_summary)).
Definition two_months_avg : gmap string cell :=
  default ∅ (last (rows (frame two_months_summary))).

(** ** More sample data *)

(** An upload without a Priority column. *)
Definition no_priority : DataFrame :=
  mkDF (filter (λ c, c ≠ "Priority") ticket_columns) [delete "Priority" row_a].

(** An upload in which one ticket spells its priority in lower case. *)
Definition row_lower : gmap string cell :=
  ticket "Phone" (Time jan_2025) (Time (jan_2025 + 5 * minute))
         (Time (jan_2025 + 30 * minute)) "p1".
Definition mislabelled : DataFrame := mkDF ticket_columns [row_a; row_lower].
Definition mislabelled_df : DataFrame :=
  unwrap empty_frame (prepare no_repr no_parse mislabelled).
Definition mislabelled_filtered : DataFrame :=
  unwrap empty_frame (filtered_df mislabelled_df [Str "Jan-2025"] [Str "P1"]).

(** The table with the unrestored ticket after the loader alone. *)
Definition with_open_loaded : DataFrame :=
  unwrap empty_frame (load no_parse with_open).

(** The prepared table with every record filtered out. *)
Definition nothing_selected : DataFrame := mkDF (columns with_open_df) [].

(** * Properties *)

(** ** The error monad *)

Lemma bind_Ok {A B} (m : result A) (f : A → result B) b :
  m ≫= f = Ok b ↔ ∃ a, m = Ok a ∧ f a = Ok b.
Proof.
  destruct m as [a|e]; simpl; split.
  - intros H. by exists a.
  - by intros (a' & [= <-] & H).
  - done.
  - by intros (a' & [=] & _).
Qed.

Lemma mapM_Ok {A B} (f : A → result B) l k :
  mapM f l = Ok k ↔ Forall2 (λ x y, f x = Ok y) l k.
Proof.
  revert k. induction l as [|x l IH]; intros k; simpl.
  - split; [intros [= <-]; constructor | by inversion 1].
  - split.
    + intros (y & Hy & (k' & Hk' & [= <-])%bind_Ok)%bind_Ok.
      constructor; [done | by apply IH].
    + inversion 1 as [|? y ? k' Hy Hk']; subst.
      apply IH in Hk'. unfold mbind, result_bind in *; simpl.
      by rewrite Hy, Hk'.
Qed.

Lemma mapM_Ok_total {A B} (f : A → result B) (g : A → B) l :
  Forall (λ x, f x = Ok (g x)) l → mapM f l = Ok (g <$> l).
Proof.
  intros H. apply mapM_Ok. induction H; constructor; auto.
Qed.

Lemma mapM_total {A B} (f : A → result B) l :
  Forall (λ x, ∃ y, f x = Ok y) l → ∃ k, mapM f l = Ok k.
Proof.
  induction 1 as [|x l [y Hy] _ [k Hk]]; [by exists []|].
  exists (y :: k). apply mapM_Ok. constructor; [done|by apply mapM_Ok].
Qed.

Lemma Forall2_transfer {A B} (P : A → Prop) (R : A → B → Prop) (Q : B → Prop) l k :
  Forall P l → Forall2 R l k → (∀ x y, P x → R x y → Q y) → Forall Q k.
Proof.
  intros HP HR HQ. induction HR; inversion HP; subst; constructor; eauto.
Qed.
(** ** Binary floating point: rounding and the minutes of a duration *)

Lemma nearest_even_half x : (Qabs (inject_Z (nearest_even x) - x) <= 1 # 2)%Q.
Proof.
  unfold nearest_even.
  pose proof (Qfloor_le x) as Hlo. pose proof (Qlt_floor x) as Hhi.
  rewrite inject_Z_plus in Hhi. change (inject_Z 1) with 1%Q in Hhi.
  apply Qabs_Qle_condition.
  destruct (Qcompare_spec (x - inject_Z (Qfloor x)) (1 # 2)) as [He|Hl|Hg].
  - destruct (Z.even _); rewrite ?inject_Z_plus; change (inject_Z 1) with 1%Q;
      split; lra.
  - split; lra.
  - rewrite inject_Z_plus. change (inject_Z 1) with 1%Q. split; lra.
Qed.

Lemma two_pow_pos e : (0 < 2 ^ e)%Q.
Proof. by apply Qpower_0_lt. Qed.

Lemma inject_Z_pow2 (k : Z) : 0 <= k → (inject_Z (2 ^ k) == 2 ^ k)%Q.
Proof. intros Hk. by rewrite Zpower_Qpower. Qed.

Lemma ulp_exponent_lower (a : Q) :
  (0 < a)%Q → (2 ^ 52 <= a / 2 ^ ulp_exponent a)%Q.
Proof.
  intros Ha. destruct a as [n d].
  assert (Hn : 0 < n) by (unfold Qlt in Ha; simpl in Ha; lia).
  unfold ulp_exponent. cbn [Qnum Qden].
  set (la := Z.log2 n). set (ld := Z.log2 (Z.pos d)).
  set (e0 := la - ld - 53).
  assert (Hla0 : 0 <= la) by apply Z.log2_nonneg.
  assert (Hld0 : 0 <= ld) by apply Z.log2_nonneg.
  assert (Hla : 2 ^ la <= n) by (apply Z.log2_spec; lia).
  assert (Hld : Z.pos d < 2 ^ (Z.succ ld)) by (apply Z.log2_spec; lia).
  rewrite Zle_Qle, inject_Z_pow2 in Hla by done.
  rewrite Zlt_Qlt, inject_Z_pow2 in Hld by lia.
  assert (HD : (0 < inject_Z (Z.pos d))%Q) by done.
  pose proof (two_pow_pos e0) as HP.
  assert (Hpow : (2 ^ 52 * 2 ^ e0 * 2 ^ Z.succ ld == 2 ^ la)%Q).
  { rewrite <- !Qpower_plus by done. apply Qpower_comp; [done|]. unfold e0. lia. }
  assert (Hnd : (n # d == inject_Z n / inject_Z (Z.pos d))%Q) by apply Qmake_Qdiv.
  assert (H0 : (2 ^ 52 < (n # d) / 2 ^ e0)%Q).
  { rewrite Hnd. apply Qlt_shift_div_l; [done|]. apply Qlt_shift_div_l; [done|].
    eapply Qlt_le_trans; [|exact Hla]. rewrite <- Hpow.
    apply Qmult_lt_l; [|done].
    apply Qmult_lt_0_compat; [reflexivity|done]. }
  destruct (Z.ltb_spec (Qfloor ((n # d) / 2 ^ e0)) (2 ^ 53)) as [Hlt|Hge].
  - by apply Qlt_le_weak.
  - rewrite Zle_Qle in Hge. pose proof (Qfloor_le ((n # d) / 2 ^ e0)) as Hfl.
    assert (Hx0 : (inject_Z (2 ^ 53) <= (n # d) / 2 ^ e0)%Q) by lra.
    rewrite Qpower_plus by done. change (2 ^ 1)%Q with 2%Q.
    assert (Heq : ((n # d) / (2 ^ e0 * 2) == (n # d) / 2 ^ e0 / 2)%Q)
      by (field; lra).
    rewrite Heq. change (inject_Z (2 ^ 53)) with (2 ^ 52 * 2)%Q in Hx0.
    apply Qle_shift_div_l; [reflexivity|exact Hx0].
Qed.

Lemma round_pos_error (a : Q) :
  (0 < a)%Q → (Qabs (round_pos a - a) <= a * unit_roundoff)%Q.
Proof.
  intros Ha. unfold round_pos.
  pose proof (ulp_exponent_lower a Ha) as Hlow.
  set (e := ulp_exponent a) in *.
  pose proof (two_pow_pos e) as HP.
  set (P := (2 ^ e)%Q) in *.
  pose proof (nearest_even_half (a / P)) as Hhalf.
  set (m := inject_Z (nearest_even (a / P))) in *.
  assert (Hx : (a == (a / P) * P)%Q) by (field; lra).
  set (x := (a / P)%Q) in *.
  apply Qabs_Qle_condition in Hhalf as [H1 H2].
  apply Qabs_Qle_condition.
  assert (Hm1 : ((m - x) * P <= (1 # 2) * P)%Q) by (apply Qmult_le_compat_r; lra).
  assert (Hm2 : (- (1 # 2) * P <= (m - x) * P)%Q) by (apply Qmult_le_compat_r; lra).
  assert (Hx2 : (2 ^ 52 * P <= x * P)%Q) by (apply Qmult_le_compat_r; lra).
  unfold unit_roundoff. rewrite Hx at 1 2 3.
  change (2 ^ 52)%Q with (4503599627370496 # 1)%Q in Hx2.
  split; lra.
Qed.

Lemma round64_error (q : Q) :
  (Qabs (round64 q - q) <= Qabs q * unit_roundoff)%Q.
Proof.
  unfold round64. destruct q as [[|n|n] d]; cbn [Qnum].
  - apply Qabs_Qle_condition. split; [|]; rewrite (Qabs_pos (0 # d)) by done;
      unfold Qle, unit_roundoff; simpl; lia.
  - rewrite Qred_correct, (Qabs_pos (Z.pos n # d)) by done.
    by apply round_pos_error.
  - rewrite Qred_correct.
    assert (Hneg : (0 < - (Z.neg n # d))%Q) by done.
    pose proof (round_pos_error _ Hneg) as H.
    rewrite (Qabs_neg (Z.neg n # d)) by done.
    apply Qabs_Qle_condition in H as [H1 H2].
    apply Qabs_Qle_condition. split; lra.
Qed.

Lemma round64_cases (q : Q) :
  (0 <= q ∧ q * (1 - unit_roundoff) <= round64 q ∧ round64 q <= q * (1 + unit_roundoff))%Q ∨
  (q < 0 ∧ q * (1 + unit_roundoff) <= round64 q ∧ round64 q <= q * (1 - unit_roundoff))%Q.
Proof.
  pose proof (round64_error q) as H. apply Qabs_Qle_condition in H as [H1 H2].
  destruct (Qlt_le_dec q 0) as [Hq|Hq].
  - right. rewrite Qabs_neg in H1, H2 by lra. unfold unit_roundoff in *. lra.
  - left. rewrite Qabs_pos in H1, H2 by lra. unfold unit_roundoff in *. lra.
Qed.


Lemma seconds_split (td : Z) :
  ∃ n u : Q, (0 <= u)%Q ∧ (u <= 999999 # 1000000)%Q ∧
    (n <= -1 ∨ 0 <= n)%Q ∧ (td < 0 ↔ (n <= -1)%Q) ∧
    (td = 0 ↔ (n == 0 ∧ u == 0)%Q) ∧
    (td # 60000000 == (n + u) * (1 # 60))%Q ∧
    total_seconds td = fadd (round64 n) (round64 u).
Proof.
  exists (inject_Z (td / 1000000)), (inject_Z (td mod 1000000) / 1000000)%Q.
  split; [|split; [|split; [|split; [|split; [|split]]]]]; [..|reflexivity].
  all: pose proof (Z.mod_pos_bound td 1000000 eq_refl) as Hu.
  all: pose proof (Z.div_mod td 1000000 ltac:(done)) as Htd.
  all: assert (Hdiv : ∀ z, (inject_Z z / 1000000 == z # 1000000)%Q)
         by (intros z; by rewrite (Qmake_Qdiv z 1000000)).
  all: rewrite ?Hdiv; clear Hdiv.
  all: generalize dependent (td / 1000000); generalize dependent (td mod 1000000).
  all: intros u Hu N Htd.
  all: unfold Qle, Qeq, Qmult, Qplus, inject_Z; cbn [Qnum Qden].
  - lia.
  - lia.
  - destruct (decide (N <= -1)); [left|right]; lia.
  - lia.
  - lia.
  - lia.
Qed.

Lemma minutes_split (td : Z) :
  ∃ n u : Q, (0 <= u)%Q ∧ (u <= 999999 # 1000000)%Q ∧
    (n <= -1 ∨ 0 <= n)%Q ∧ (td < 0 ↔ (n <= -1)%Q) ∧
    (td = 0 ↔ (n == 0 ∧ u == 0)%Q) ∧
    (td # 60000000 == (n + u) * (1 # 60))%Q ∧
    minutes td = round64 (round64 (round64 n + round64 u) * (1 # 60))%Q.
Proof.
  destruct (seconds_split td) as (n & u & H1 & H2 & H3 & H4 & H5 & H6 & H7).
  exists n, u. repeat (split; [done|]).
  unfold minutes, fdiv. rewrite H7. unfold fadd, Qdiv.
  change (/ 60)%Q with (1 # 60)%Q. done.
Qed.

Lemma minutes_sign (td : Z) : (minutes td < 0)%Q ↔ td < 0.
Proof.
  destruct (minutes_split td) as (n & u & Hu0 & Hu1 & Hn & Hneg & _ & _ & ->).
  rewrite Hneg. clear Hneg.
  destruct (round64_cases n) as [(? & ? & ?)|(? & ? & ?)];
  destruct (round64_cases u) as [(? & ? & ?)|(? & ? & ?)];
  try lra;
  set (nf := round64 n) in *; set (f := round64 u) in *;
  destruct (round64_cases (nf + f)) as [(? & ? & ?)|(? & ? & ?)];
  set (T := round64 (nf + f)) in *;
  destruct (round64_cases (T * (1 # 60))) as [(? & ? & ?)|(? & ? & ?)];
  set (q := round64 (T * (1 # 60))) in *; unfold unit_roundoff in *;
  (split; intros ?; destruct Hn; lra).
Qed.

Lemma minutes_zero (td : Z) : (minutes td == 0)%Q ↔ td = 0.
Proof.
  destruct (minutes_split td) as (n & u & Hu0 & Hu1 & Hn & _ & Hz & _ & ->).
  rewrite Hz. clear Hz.
  destruct (round64_cases n) as [(? & ? & ?)|(? & ? & ?)];
  destruct (round64_cases u) as [(? & ? & ?)|(? & ? & ?)];
  try lra;
  set (nf := round64 n) in *; set (f := round64 u) in *;
  destruct (round64_cases (nf + f)) as [(? & ? & ?)|(? & ? & ?)];
  set (T := round64 (nf + f)) in *;
  destruct (round64_cases (T * (1 # 60))) as [(? & ? & ?)|(? & ? & ?)];
  set (q := round64 (T * (1 # 60))) in *; unfold unit_roundoff in *;
  (split; [intros ?; destruct Hn; split; lra | intros [? ?]; lra]).
Qed.

Lemma minutes_error (td : Z) :
  (Qabs (minutes td - (td # 60000000))
   <= (Qabs (td # 60000000) + 1) * minutes_tolerance)%Q.
Proof.
  destruct (minutes_split td) as (n & u & Hu0 & Hu1 & Hn & _ & _ & Hm & ->).
  rewrite Hm. clear Hm.
  set (m := ((n + u) * (1 # 60))%Q).
  assert (Hmdef : (m == (n + u) * (1 # 60))%Q) by done. clearbody m.
  apply Qabs_Qle_condition.
  destruct (round64_cases n) as [(? & ? & ?)|(? & ? & ?)];
  destruct (round64_cases u) as [(? & ? & ?)|(? & ? & ?)];
  try lra;
  set (nf := round64 n) in *; set (f := round64 u) in *;
  destruct (round64_cases (nf + f)) as [(? & ? & ?)|(? & ? & ?)];
  set (T := round64 (nf + f)) in *;
  destruct (round64_cases (T * (1 # 60))) as [(? & ? & ?)|(? & ? & ?)];
  set (q := round64 (T * (1 # 60))) in *; unfold unit_roundoff, minutes_tolerance in *;
  (destruct (Qlt_le_dec m 0);
   [rewrite (Qabs_neg m) by lra|rewrite (Qabs_pos m) by lra];
   destruct Hn; split; lra).
Qed.

Lemma nearest_even_int (x : Q) (w : Z) :
  (x == inject_Z w)%Q → nearest_even x = w.
Proof.
  intros Hx. unfold nearest_even.
  assert (Hfl : Qfloor x = w) by (rewrite Hx; apply Qfloor_Z).
  rewrite Hfl.
  assert (Hlt : (x - inject_Z w < 1 # 2)%Q) by (rewrite Hx; lra).
  destruct (Qcompare_spec (x - inject_Z w) (1 # 2)); [lra|done|lra].
Qed.

(** A positive number whose significand is a whole number is its own
    rounding. *)
Lemma round_pos_exact (q : Q) (w : Z) :
  (q / 2 ^ ulp_exponent q == inject_Z w)%Q → (round_pos q == q)%Q.
Proof.
  intros Hw. unfold round_pos. rewrite (nearest_even_int _ w Hw), <- Hw.
  pose proof (two_pow_pos (ulp_exponent q)). field. lra.
Qed.

Lemma two_pow_split (e : Z) :
  e ≤ 0 → (/ 2 ^ e == inject_Z (2 ^ (- e)))%Q.
Proof.
  intros He. rewrite inject_Z_pow2 by lia. rewrite Qpower_opp.
  reflexivity.
Qed.

(** Whole numbers of at most 53 bits are binary64 numbers. *)
Lemma round_pos_int (q : Q) (z : Z) :
  (q == inject_Z z)%Q → 0 < z ≤ 2 ^ 53 → (round_pos q == q)%Q.
Proof.
  intros Hq [Hz0 Hz].
  assert (Hpos : (0 < q)%Q).
  { rewrite Hq. change 0%Q with (inject_Z 0). by rewrite <- Zlt_Qlt. }
  pose proof (ulp_exponent_lower q Hpos) as Hlow.
  set (e := ulp_exponent q) in *.
  pose proof (two_pow_pos e) as HP.
  assert (Hlow' : (2 ^ 52 * 2 ^ e <= q)%Q).
  { assert (Hqe : (q / 2 ^ e * 2 ^ e == q)%Q) by (field; lra).
    rewrite <- Hqe. apply Qmult_le_compat_r; [done|lra]. }
  rewrite Hq in Hlow'.
  assert (He : e ≤ 1).
  { apply (Qpower_le_compat_l_inv 2); [|reflexivity].
    rewrite Zle_Qle in Hz.
    change (inject_Z (2 ^ 53)) with (2 ^ 52 * 2)%Q in Hz.
    change (2 ^ 1)%Q with 2%Q.
    assert (H2 : (2 ^ 52 * 2 ^ e <= 2 ^ 52 * 2)%Q) by lra.
    change (2 ^ 52)%Q with (4503599627370496 # 1)%Q in H2. lra. }
  destruct (decide (e ≤ 0)) as [He0|He1].
  - apply (round_pos_exact q (z * 2 ^ (- e))). fold e.
    unfold Qdiv. rewrite two_pow_split, Hq by done.
    by rewrite inject_Z_mult.
  - assert (e = 1) as Heq by lia.
    assert (Hz53 : z = 2 ^ 53).
    { rewrite Heq in Hlow'.
      change (2 ^ 52 * 2 ^ 1)%Q with (inject_Z (2 ^ 53)) in Hlow'.
      rewrite <- Zle_Qle in Hlow'. lia. }
    apply (round_pos_exact q (2 ^ 52)). fold e. rewrite Heq, Hq, Hz53.
    reflexivity.
Qed.

Lemma round64_int (q : Q) (z : Z) :
  (q == inject_Z z)%Q → Z.abs z ≤ 2 ^ 53 → (round64 q == q)%Q.
Proof.
  intros Hq Hz. unfold round64. destruct q as [[|n|n] d]; cbn [Qnum].
  - done.
  - rewrite Qred_correct. apply (round_pos_int _ z); [done|].
    assert (0 < z); [|lia].
    rewrite Zlt_Qlt, <- Hq. done.
  - rewrite Qred_correct.
    assert (Hneg : (- (Z.neg n # d) == inject_Z (- z))%Q).
    { rewrite Hq. by rewrite inject_Z_opp. }
    rewrite (round_pos_int _ (- z) Hneg); [ring|].
    assert (z < 0); [|lia].
    rewrite Zlt_Qlt, <- Hq. done.
Qed.

(** A duration of a whole number of minutes is counted exactly. *)
Lemma minutes_whole (k : Z) :
  Z.abs (60000000 * k) < 2 ^ 63 → (minutes (60000000 * k) == inject_Z k)%Q.
Proof.
  intros Hk. unfold minutes, total_seconds, fdiv, fadd, float_of_int.
  assert (Hdiv : 60000000 * k / 1000000 = 60 * k).
  { replace (60000000 * k) with (60 * k * 1000000) by lia.
    by rewrite Z.div_mul. }
  assert (Hmod : (60000000 * k) mod 1000000 = 0).
  { replace (60000000 * k) with (60 * k * 1000000) by lia.
    by rewrite Z.mod_mul. }
  rewrite Hdiv, Hmod.
  change (round64 (inject_Z 0 / 1000000)) with 0%Q.
  assert (H1 : (round64 (inject_Z (60 * k)) == inject_Z (60 * k))%Q).
  { apply (round64_int _ (60 * k)); [done|lia]. }
  assert (H2 : (round64 (round64 (inject_Z (60 * k)) + 0)
                == inject_Z (60 * k))%Q).
  { rewrite (round64_int _ (60 * k)); [lra| |lia]. lra. }
  assert (H3 : (round64 (round64 (inject_Z (60 * k)) + 0) / 60
                == inject_Z k)%Q).
  { rewrite H2, inject_Z_mult. field. }
  rewrite (round64_int _ k); [done..|lia].
Qed.
(** ** The metric calculator (lines 35-45) *)

Lemma direct_origin_elem repr origin :
  lower (strip (str repr origin)) ∈ ["internal call logging"; "web"]
  ↔ direct_origin repr origin.
Proof. unfold direct_origin. rewrite !elem_of_cons, elem_of_nil. tauto. Qed.

(** Two date cells of a workbook are subtracted as they are. *)
Lemma sub_Time x y : sub (Time x) (Time y) = Ok (x - y).
Proof. reflexivity. Qed.

Lemma zone_aware_stamp c :
  zone_aware c ↔ ∃ st, stamp_of c = Some st ∧ is_Some (zone st).
Proof.
  destruct c; simpl;
    (split; [intros Hz; try done; by eexists
            |intros (st' & Hst & Hz); simplify_eq/=; try done;
             by apply is_Some_None in Hz]).
Qed.

(** A timestamp with a time zone and one without cannot be subtracted. *)
Lemma sub_mixed a b :
  is_Some (stamp_of a) → is_Some (stamp_of b) →
  ¬ (zone_aware a ↔ zone_aware b) → sub a b = Raise TypeError.
Proof.
  intros [x Hx] [y Hy] Hmix. unfold sub. rewrite Hx, Hy.
  rewrite bool_decide_eq_false_2.
  - by destruct a, b.
  - rewrite !zone_aware_stamp in Hmix. naive_solver.
Qed.

(** What the calculators return for a difference of [td] microseconds: the
    exact count of minutes up to the rounding of three float operations,
    of the sign of [td], zero only for [td = 0], and exact when [td] is a
    whole number of minutes within the range of a Timedelta. *)
Lemma minutes_spec (td : Z) :
  (Qabs (minutes td - (td # 60000000))
   <= (Qabs (td # 60000000) + 1) * minutes_tolerance)%Q ∧
  ((minutes td < 0)%Q ↔ td < 0) ∧
  ((minutes td == 0)%Q ↔ td = 0) ∧
  (∀ k, td = 60000000 * k → Z.abs td < 2 ^ 63 →
        (minutes td == inject_Z k)%Q).
Proof.
  split; [apply minutes_error|]. split; [apply minutes_sign|].
  split; [apply minutes_zero|]. intros k -> Hk. by apply minutes_whole.
Qed.







(** The scenario of the specification: MTTD is 0 for the web ticket and 5
    minutes for the phone ticket, MTTR is 60 and 30 minutes. *)
Example scenario_metrics :
  calc_mtd no_repr row_a = Ok (Num 0) ∧
  calc_mtd no_repr row_b = Ok (Num 5) ∧
  calc_mtr row_a = Ok (Num 60) ∧
  calc_mtr row_b = Ok (Num 30).
Proof. repeat split; vm_compute; reflexivity. Qed.

(** Surrounding white space and letter case of the origin do not matter, and
    a response that precedes the opening gives a negative MTTD. *)
Example origin_trimmed_lowercased :
  calc_mtd no_repr (<["Case Origin" := Str "  Internal CALL Logging "]> row_b)
    = Ok (Num 0) ∧
  calc_mtd no_repr (<["Responded Date/Time" := Time (jan_2025 - 90 * minute)]> row_b)
    = Ok (Num (-90)).
Proof. split; vm_compute; reflexivity. Qed.

(** The 100 seconds of the ticket above are 1.6666666666666667 minutes, the
    float 7505999378950827 / 2^52. *)
Example hundred_seconds :
  calc_mtd no_repr row_100s = Ok (Num (7505999378950827 # 4503599627370496)).
Proof. vm_compute; reflexivity. Qed.

(** An upload whose restoration dates are text with a UTC offset cannot be
    prepared: the loader makes them timestamps with a time zone, and line 48
    raises TypeError on the first record. *)
Example prepare_offset_raises :
  prepare no_repr offset_parse upload_offset = Raise TypeError.
Proof. vm_compute; reflexivity. Qed.

(** ** Columns *)

Lemma getcol_Ok_inv df c vals :
  getcol df c = Ok vals →
  c ∈ columns df ∧ Forall2 (λ r v, r !! c = Some v) (rows df) vals.
Proof.
  unfold getcol. case_bool_decide as Hc; [|done].
  intros Hm%mapM_Ok. split; [done|].
  eapply Forall2_impl; [done|]. intros r v. unfold getitem.
  destruct (r !! c); naive_solver.
Qed.

Lemma getcol_Ok df c :
  has_column df c → getcol df c = Ok ((λ r, cell_of r c) <$> rows df).
Proof.
  intros [Hc Hr]. unfold getcol. rewrite bool_decide_eq_true_2 by done.
  apply mapM_Ok_total. eapply Forall_impl; [done|].
  intros r [v Hv]. unfold getitem, cell_of. by rewrite Hv.
Qed.

Lemma setcol_Forall2 df c vals (R : gmap string cell → cell → Prop) :
  Forall2 R (rows df) vals →
  Forall2 (λ r r', ∃ v, R r v ∧ r' = <[c := v]> r)
          (rows df) (rows (setcol df c vals)).
Proof.
  simpl. induction 1 as [|r v l k Hrv _ IH]; simpl; constructor; eauto.
Qed.

Lemma setcol_columns df c vals :
  columns (setcol df c vals) =
  if bool_decide (c ∈ columns df) then columns df else columns df ++ [c].
Proof. done. Qed.

Lemma setcol_columns_elem df c c' vals :
  c' ∈ columns (setcol df c vals) ↔ c' ∈ columns df ∨ c' = c.
Proof.
  rewrite setcol_columns. case_bool_decide as Hc; [naive_solver|].
  rewrite elem_of_app, list_elem_of_singleton. naive_solver.
Qed.

Lemma boolean_index_filter {A} (P Q : A → bool) (l : list A) :
  boolean_index l (zip_with andb (P <$> l) (Q <$> l)) =
  filter (λ x, P x ∧ Q x) l.
Proof.
  induction l as [|x l IH]; csimpl; [done|].
  rewrite filter_cons, IH.
  by destruct (P x), (Q x).
Qed.

Lemma filter_none {A} (P : A → Prop) `{∀ x, Decision (P x)} (l : list A) :
  (∀ x, ¬ P x) → filter P l = [].
Proof.
  intros HP. induction l as [|x l IH]; [done|].
  rewrite filter_cons. case_decide; [by destruct (HP x)|done].
Qed.

(** ** The filter (line 60) *)

(** What the filter returns on a table that has the two columns. *)
Lemma filtered_df_rows df selected_months selected_priorities :
  has_column df "Month-Year" → has_column df "Priority" →
  ∃ f, filtered_df df selected_months selected_priorities = Ok f ∧
       columns f = columns df ∧
       rows f = filter (λ r, cell_of r "Month-Year" ∈ selected_months ∧
                             cell_of r "Priority" ∈ selected_priorities)
                       (rows df).
Proof.
  intros Hm Hp. unfold filtered_df.
  rewrite (getcol_Ok _ _ Hm), (getcol_Ok _ _ Hp). simpl.
  eexists; split; [done|]. simpl. split; [done|].
  rewrite <- !list_fmap_compose.
  rewrite (boolean_index_filter
             (isin selected_months ∘ (λ r, cell_of r "Month-Year"))
             (isin selected_priorities ∘ (λ r, cell_of r "Priority"))).
  apply list_filter_iff. intros r. unfold isin; simpl.
  by rewrite !bool_decide_spec.
Qed.

(** C7.  On a table that has its Month-Year and Priority columns the filter
    returns, without raising, the table of exactly the records whose
    month is among the selected months and whose priority is among the
    selected priorities, in their original order; with an empty selection on
    either axis it returns the table without records. *)
Theorem filtered_df_spec df selected_months selected_priorities :
  has_column df "Month-Year" → has_column df "Priority" →
  ∃ f, filtered_df df selected_months selected_priorities = Ok f ∧
       columns f = columns df ∧
       rows f = filter (λ r, cell_of r "Month-Year" ∈ selected_months ∧
                             cell_of r "Priority" ∈ selected_priorities)
                       (rows df) ∧
       (selected_months = [] ∨ selected_priorities = [] → rows f = []).
Proof.
  intros Hm Hp.
  destruct (filtered_df_rows df selected_months selected_priorities Hm Hp)
    as (f & Hf & Hcols & Hrows).
  exists f. split; [done|]. split; [done|]. split; [done|].
  intros Hempty. rewrite Hrows. apply filter_none. intros r [Hr1 Hr2].
  destruct Hempty as [-> | ->]; by eapply elem_of_nil.
Qed.

Lemma filtered_df_spec_witness :
  ∃ f, filtered_df with_open_df [Str "Jan-2025"] [Str "P1"] = Ok f ∧
       columns f = columns with_open_df ∧
       rows f = filter (λ r, cell_of r "Month-Year" ∈ [Str "Jan-2025"] ∧
                             cell_of r "Priority" ∈ [Str "P1"])
                       (rows with_open_df) ∧
       ([Str "Jan-2025"] = [] ∨ [Str "P1"] = [] → rows f = []).
Proof.
  apply (filtered_df_spec with_open_df [Str "Jan-2025"] [Str "P1"]);
    compute_done.
Defined.

(** ** The loader and the calculator, row by row *)

Lemma Forall2_compose {A B C} (R1 : A → B → Prop) (R2 : B → C → Prop) l1 l2 l3 :
  Forall2 R1 l1 l2 → Forall2 R2 l2 l3 →
  Forall2 (λ a c, ∃ b, R1 a b ∧ R2 b c) l1 l3.
Proof.
  intros H. revert l3. induction H; inversion 1; subst; constructor; eauto.
Qed.

Lemma Forall2_range {A B} (R : A → B → Prop) (P : B → Prop) l k :
  Forall2 R l k → (∀ x y, R x y → P y) → Forall P k.
Proof. induction 1; constructor; eauto. Qed.

Lemma Forall2_of_Forall_r {A B} (Q : B → Prop) (l : list A) (k : list B) :
  length k = length l → Forall Q k → Forall2 (λ _ y, Q y) l k.
Proof.
  intros Hlen HQ. revert l Hlen.
  induction HQ as [|y k Hy _ IH]; intros [|x l]; simpl; try done.
  intros [= Hlen]. constructor; auto.
Qed.

Lemma datetime_column_timestamp col :
  datetime_column col → Forall timestamp col.
Proof. by intros [H _]. Qed.

(** What the coercion of a column returns when it returns. *)
Lemma to_datetime_coerce_Ok pd col vals :
  to_datetime_coerce pd col = Ok vals →
  length vals = length col ∧ datetime_column vals ∧
  (datetime_column col → vals = col).
Proof.
  unfold to_datetime_coerce. case_bool_decide as Hcol.
  - by intros [= <-].
  - intros (vals' & _ & H)%bind_Ok. case_bool_decide as Hvals; [|done].
    injection H as <-. by destruct Hvals.
Qed.

Lemma to_datetime_coerce_id pd col :
  datetime_column col → to_datetime_coerce pd col = Ok col.
Proof.
  intros Hcol. unfold to_datetime_coerce. by rewrite bool_decide_eq_true_2.
Qed.

Lemma dt_strftime_Ok c v : dt_strftime c = Ok v → timestamp c ∧ v = bucket c.
Proof.
  destruct c; simpl; try done; intros [= <-]; (split; [|done]);
    unfold timestamp; simpl; eauto.
Qed.

Lemma col_is_insert_ne P (r : gmap string cell) k k' v :
  k ≠ k' → col_is P (<[k := v]> r) k' ↔ col_is P r k'.
Proof. intros Hne. unfold col_is. by rewrite lookup_insert_ne. Qed.

Lemma col_is_lookup P (r : gmap string cell) k :
  col_is P r k ↔ ∃ c, r !! k = Some c ∧ P c.
Proof. unfold col_is. destruct (r !! k); naive_solver. Qed.

Lemma getcol_column_of df c vals :
  getcol df c = Ok vals → vals = column_of df c.
Proof.
  intros [_ H]%getcol_Ok_inv. unfold column_of.
  induction H as [|r v l k Hr _ IH]; csimpl; [done|].
  unfold cell_of at 1. rewrite Hr. simpl. by f_equal.
Qed.

Lemma column_of_setcol_eq df c vals :
  length vals = length (rows df) → column_of (setcol df c vals) c = vals.
Proof.
  unfold column_of. simpl. generalize (rows df). intros l. revert l.
  induction vals as [|v vals IH]; intros [|r l]; simpl; try done.
  intros [= Hlen]. unfold cell_of at 1. rewrite lookup_insert_eq. simpl.
  f_equal. by apply IH.
Qed.

Lemma column_of_setcol_ne df c c' vals :
  length vals = length (rows df) → c ≠ c' →
  column_of (setcol df c vals) c' = column_of df c'.
Proof.
  unfold column_of. simpl. generalize (rows df). intros l. revert l.
  induction vals as [|v vals IH]; intros [|r l]; simpl; try done.
  intros [= Hlen] Hne. unfold cell_of at 1 3. rewrite lookup_insert_ne by done.
  f_equal. by apply IH.
Qed.

Lemma column_of_Forall2 df df' c :
  Forall2 (λ r r' : gmap string cell, r' !! c = r !! c) (rows df) (rows df') →
  column_of df' c = column_of df c.
Proof.
  unfold column_of. induction 1 as [|r r' l l' Hr _ IH]; csimpl; [done|].
  unfold cell_of at 1 3. rewrite Hr. by f_equal.
Qed.

Lemma col_is_column_of P df c :
  Forall (λ r, is_Some (r !! c)) (rows df) →
  Forall P (column_of df c) → Forall (λ r, col_is P r c) (rows df).
Proof.
  unfold column_of. rewrite Forall_fmap. intros Hs HP.
  induction Hs as [|r l [v Hv] _ IH]; [done|].
  apply Forall_cons in HP as [Hr HP]. constructor; [|by apply IH].
  unfold col_is, cell_of in *. simpl in Hr. by rewrite Hv in *.
Qed.

(** The loop of lines 17-18: the columns and the other cells stay; each date
    column becomes what the coercion makes of it, a column of one datetime
    type. *)
Lemma convert_dates_rows pd cols df df' :
  NoDup cols →
  convert_dates pd cols df = Ok df' →
  columns df' = columns df ∧
  Forall2 (λ r r', (∀ c, c ∉ cols → r' !! c = r !! c) ∧
                   (∀ c, c ∈ cols → col_is timestamp r' c))
          (rows df) (rows df') ∧
  (∀ c, c ∈ cols →
     to_datetime_coerce pd (column_of df c) = Ok (column_of df' c)).
Proof.
  intros Hnd. revert df. induction Hnd as [|col cols Hcol Hnd IH]; intros df; simpl.
  - intros [= <-]. split; [done|]. split.
    + apply Forall_Forall2_diag, Forall_forall.
      intros r _. split; [done|]. by intros c ?%elem_of_nil.
    + by intros c ?%elem_of_nil.
  - intros (vals & Hget & (coerced & Hco & Hrec)%bind_Ok)%bind_Ok.
    apply IH in Hrec as (Hcols & Hrows & Hdates).
    pose proof (getcol_Ok_inv _ _ _ Hget) as [Hin Hvals].
    pose proof (getcol_column_of _ _ _ Hget) as ->.
    pose proof (to_datetime_coerce_Ok _ _ _ Hco) as (Hlen & Hdt & _).
    assert (Hlen' : length coerced = length (rows df)).
    { rewrite Hlen. unfold column_of. by rewrite length_fmap. }
    split.
    { rewrite Hcols, setcol_columns. by rewrite bool_decide_eq_true_2. }
    assert (Hset : Forall2 (λ (r : gmap string cell) v', timestamp v')
                     (rows df) coerced).
    { apply Forall2_of_Forall_r; [done|]. by apply datetime_column_timestamp. }
    apply (setcol_Forall2 _ col) in Hset.
    pose proof (Forall2_compose _ _ _ _ _ Hset Hrows) as Hall.
    assert (Hframe : Forall2 (λ r r' : gmap string cell, r' !! col = r !! col)
                       (rows (setcol df col coerced)) (rows df')).
    { eapply Forall2_impl; [exact Hrows|]. intros r r' [H _]. by apply H. }
    split.
    + eapply Forall2_impl; [exact Hall|]. clear -Hcol.
      intros r r' (r1 & (v' & Hv & ->) & Hother & Hdate). split.
      * intros c [Hne Hc]%not_elem_of_cons.
        by rewrite Hother, lookup_insert_ne.
      * intros c Hc. destruct (decide (c ∈ cols)) as [|Hnot]; [by apply Hdate|].
        apply elem_of_cons in Hc as [->|]; [|done].
        unfold col_is. by rewrite Hother, lookup_insert_eq.
    + intros c [->|Hc]%elem_of_cons.
      * rewrite (column_of_Forall2 _ _ _ Hframe).
        by rewrite column_of_setcol_eq.
      * rewrite <- (Hdates c Hc). rewrite column_of_setcol_ne; [done..|].
        by intros ->.
Qed.

Lemma NoDup_date_cols : NoDup date_cols.
Proof. compute_done. Qed.

Lemma categorical_idem cats c :
  categorical cats (categorical cats c) = categorical cats c.
Proof.
  destruct c; simpl; try done. case_bool_decide as H; simpl; [|done].
  by rewrite bool_decide_eq_true_2.
Qed.

Lemma load_rows pd raw df :
  load pd raw = Ok df →
  has_column df "Month-Year" ∧ has_column df "Priority" ∧
  Forall2 (λ r r', (∀ c, c ∉ date_cols → c ≠ "Month-Year" → c ≠ "Priority" →
                         r' !! c = r !! c) ∧ loaded_row r')
          (rows raw) (rows df).
Proof.
  unfold load.
  intros (df1 & Hconv & (restored & Hres & (my & Hmy &
            (prio & Hprio & [= <-])%bind_Ok)%bind_Ok)%bind_Ok)%bind_Ok.
  apply convert_dates_rows in Hconv as (Hcols1 & Hrows1 & _);
    [|apply NoDup_date_cols].
  pose proof (getcol_Ok_inv _ _ _ Hres) as [_ Hrv].
  apply mapM_Ok in Hmy.
  pose proof (Forall2_compose _ _ _ _ _ Hrv Hmy) as Hset.
  apply (setcol_Forall2 _ "Month-Year") in Hset.
  pose proof (getcol_Ok_inv _ _ _ Hprio) as [Hpin Hpv].
  assert (Hset2 : Forall2 (λ r v', ∃ v, r !! "Priority" = Some v ∧
                                        v' = categorical priority_order v)
                    (rows (setcol df1 "Month-Year" my))
                    (categorical priority_order <$> prio)).
  { apply Forall2_fmap_r. eapply Forall2_impl; [done|]. naive_solver. }
  apply (setcol_Forall2 _ "Priority") in Hset2.
  pose proof (Forall2_compose _ _ _ _ _ Hrows1
                (Forall2_compose _ _ _ _ _ Hset Hset2)) as Hall.
  assert (Hfinal : Forall2 (λ r r',
             (∀ c, c ∉ date_cols → c ≠ "Month-Year" → c ≠ "Priority" →
                   r' !! c = r !! c) ∧ loaded_row r')
            (rows raw)
            (rows (setcol (setcol df1 "Month-Year" my) "Priority"
                          (categorical priority_order <$> prio)))).
  { eapply Forall2_impl; [done|]. clear.
    intros r r' (r1 & [Hother Hdate] & r2 &
                 (m & (res & Hres & Hm) & ->) & (p' & (p & Hp & ->) & ->)).
    apply dt_strftime_Ok in Hm as [Hdt ->].
    split; [|split; [|split]].
    - intros c ???. by rewrite !lookup_insert_ne, Hother.
    - intros c Hc. rewrite !col_is_insert_ne; [by apply Hdate| |].
      + intros <-. revert Hc. compute_done.
      + intros <-. revert Hc. compute_done.
    - rewrite lookup_insert_ne, lookup_insert_eq by done.
      unfold cell_of. by rewrite !lookup_insert_ne, Hres.
    - unfold col_is. rewrite lookup_insert_eq. by rewrite categorical_idem. }
  split; [|split]; [| |done].
  - split.
    + rewrite !setcol_columns_elem. auto.
    + eapply Forall2_range; [exact Hfinal|]. intros r r' [_ (_ & -> & _)]. eauto.
  - split.
    + rewrite !setcol_columns_elem. auto.
    + eapply Forall2_range; [exact Hfinal|]. intros r r' [_ (_ & _ & Hp)].
      by apply col_is_lookup in Hp as (c & -> & _).
Qed.

Lemma calc_mtd_insert repr (r : gmap string cell) c v :
  c ≠ "Case Origin" → c ≠ "Responded Date/Time" → c ≠ "Date/Time Opened" →
  calc_mtd repr (<[c := v]> r) = calc_mtd repr r.
Proof.
  intros. unfold calc_mtd, getitem. by rewrite !lookup_insert_ne.
Qed.

Lemma calc_mtr_insert (r : gmap string cell) c v :
  c ≠ "Service Restored Date" → c ≠ "Date/Time Opened" →
  calc_mtr (<[c := v]> r) = calc_mtr r.
Proof.
  intros. unfold calc_mtr, getitem. by rewrite !lookup_insert_ne.
Qed.

Lemma calc_mtd_total repr r :
  calc_ready r → ∃ v, calc_mtd repr r = Ok v ∧ number v.
Proof.
  intros ((o & Ho & _)%col_is_lookup & (a & Ha & Hda)%col_is_lookup &
          (b & Hb & Hdb)%col_is_lookup & _).
  unfold calc_mtd, getitem. rewrite Ho; simpl.
  case_bool_decide as Hd; [by eexists|].
  rewrite Ha; simpl. destruct a; try done; simpl; [by eexists|].
  rewrite Hb; simpl. destruct b; try done; simpl; by eexists.
Qed.

Lemma calc_mtr_total r :
  calc_ready r → ∃ v, calc_mtr r = Ok v ∧ number v.
Proof.
  intros (_ & _ & (b & Hb & Hdb)%col_is_lookup & (a & Ha & Hda)%col_is_lookup).
  unfold calc_mtr, getitem.
  rewrite Ha; simpl. destruct a; try done; simpl; [by eexists|].
  rewrite Hb; simpl. destruct b; try done; simpl; by eexists.
Qed.

Lemma calc_mtd_number repr r v : calc_mtd repr r = Ok v → number v.
Proof.
  unfold calc_mtd. intros (o & _ & H)%bind_Ok. revert H.
  case_bool_decide as Hd; [by intros [= <-]|].
  intros (a & _ & H)%bind_Ok. destruct (notnull a); [|by injection H as <-].
  apply bind_Ok in H as (b & _ & H).
  destruct (notnull b); [|by injection H as <-].
  by apply bind_Ok in H as (td & _ & [= <-]).
Qed.

Lemma calc_mtr_number r v : calc_mtr r = Ok v → number v.
Proof.
  unfold calc_mtr. intros (a & _ & H)%bind_Ok.
  destruct (notnull a); [|by injection H as <-].
  apply bind_Ok in H as (b & _ & H).
  destruct (notnull b); [|by injection H as <-].
  by apply bind_Ok in H as (td & _ & [= <-]).
Qed.

(** Every row of the result of [add_metrics] is the input row with the two
    metrics of that row written into it. *)
Lemma add_metrics_rows repr df df' :
  add_metrics repr df = Ok df' →
  Forall2 (λ r r', ∃ v w, calc_mtd repr r = Ok v ∧ calc_mtr r = Ok w ∧
                          r' = <["Final MTR" := w]> (<["Final MTD" := v]> r))
          (rows df) (rows df').
Proof.
  unfold add_metrics, apply_rows.
  intros (mtd & Hmtd%mapM_Ok & (mtr & Hmtr%mapM_Ok & [= <-])%bind_Ok)%bind_Ok.
  apply (setcol_Forall2 _ "Final MTD") in Hmtd.
  apply (setcol_Forall2 _ "Final MTR") in Hmtr.
  pose proof (Forall2_compose _ _ _ _ _ Hmtd Hmtr) as Hall.
  eapply Forall2_impl; [done|]. clear.
  intros r r' (r1 & (v & Hv & ->) & (w & Hw & ->)).
  rewrite calc_mtr_insert in Hw by done. eauto.
Qed.

Lemma add_metrics_columns repr df df' c :
  add_metrics repr df = Ok df' →
  c ∈ columns df' ↔ c ∈ columns df ∨ c = "Final MTD" ∨ c = "Final MTR".
Proof.
  unfold add_metrics.
  intros (mtd & _ & (mtr & _ & [= <-])%bind_Ok)%bind_Ok.
  rewrite !setcol_columns_elem. tauto.
Qed.

Lemma add_metrics_columns_prefix repr df df' :
  add_metrics repr df = Ok df' → columns df `prefix_of` columns df'.
Proof.
  unfold add_metrics.
  intros (mtd & _ & (mtr & _ & [= <-])%bind_Ok)%bind_Ok.
  rewrite !setcol_columns.
  repeat (destruct (bool_decide _)); try done.
  - by eexists.
  - by eexists.
  - rewrite <- (assoc_L (++)). by eexists.
Qed.

Lemma calc_ready_insert (r : gmap string cell) c v :
  c ∉ ["Case Origin"; "Responded Date/Time"; "Date/Time Opened";
       "Service Restored Date"] →
  calc_ready r → calc_ready (<[c := v]> r).
Proof.
  rewrite !not_elem_of_cons. intros (? & ? & ? & ? & _).
  unfold calc_ready. by rewrite !col_is_insert_ne.
Qed.

Lemma add_metrics_total repr df :
  Forall calc_ready (rows df) → ∃ df', add_metrics repr df = Ok df'.
Proof.
  intros Hready. unfold add_metrics, apply_rows.
  destruct (mapM_total (calc_mtd repr) (rows df)) as [mtd Hmtd].
  { eapply Forall_impl; [done|]. intros r Hr.
    destruct (calc_mtd_total repr r Hr) as (v & Hv & _). eauto. }
  rewrite Hmtd. unfold mbind at 1, result_bind at 1. cbv beta iota zeta.
  destruct (mapM_total calc_mtr (rows (setcol df "Final MTD" mtd)))
    as [mtr Hmtr]; [|rewrite Hmtr; by eexists].
  apply mapM_Ok in Hmtd. apply (setcol_Forall2 _ "Final MTD") in Hmtd.
  eapply Forall2_transfer; [exact Hready|exact Hmtd|].
  intros r r' Hr (v & _ & ->).
  destruct (calc_mtr_total (<["Final MTD" := v]> r)) as (w & Hw & _); [|eauto].
  apply calc_ready_insert; [compute_done|done].
Qed.

(** ** Frame of the calculator (lines 47-48) *)




(** ** Sorting by key, distinct values *)

Section stable_sort.
Context {A} (R : relation A) `{!RelDecision R}.

Lemma insert_by_Permutation x l : insert_by R x l ≡ₚ x :: l.
Proof.
  induction l as [|y l IH]; simpl; [done|].
  case_decide; [done|]. by rewrite IH, Permutation_swap.
Qed.

Lemma stable_sort_Permutation l : stable_sort R l ≡ₚ l.
Proof.
  induction l as [|x l IH]; simpl; [done|].
  by rewrite insert_by_Permutation, IH.
Qed.

Lemma Sorted_insert_by `{!Total R} x l :
  Sorted R l → Sorted R (insert_by R x l).
Proof.
  induction 1 as [|y l Hl IH Hy]; simpl; [by repeat constructor|].
  case_decide as Hxy.
  - by repeat constructor.
  - constructor; [done|].
    destruct (total R x y) as [?|Hyx]; [done|].
    destruct Hy as [|z l Hyz]; simpl; [by constructor|].
    case_decide; by constructor.
Qed.

Lemma Sorted_stable_sort `{!Total R} l : Sorted R (stable_sort R l).
Proof.
  induction l as [|x l IH]; simpl; [constructor|]. by apply Sorted_insert_by.
Qed.

Lemma StronglySorted_stable_sort `{!Transitive R, !Total R} l :
  StronglySorted R (stable_sort R l).
Proof. apply Sorted_StronglySorted; [done|]. apply Sorted_stable_sort. Qed.

End stable_sort.

Global Instance key_le_total {K A} (le : relation K) `{!Total le} :
  Total (@key_le K A le).
Proof. intros a b. unfold key_le. apply (total le). Qed.

Global Instance key_le_trans {K A} (le : relation K) `{!Transitive le} :
  Transitive (@key_le K A le).
Proof. intros a b c. unfold key_le. apply transitivity. Qed.

Lemma StronglySorted_fmap_strong {A B} (R : relation A) (S : relation B)
    (f : A → B) (P : A → Prop) l :
  StronglySorted R l → Forall P l →
  (∀ a b, P a → P b → R a b → S (f a) (f b)) →
  StronglySorted S (f <$> l).
Proof.
  intros Hs HP HRS. induction Hs as [|a l Hs IH Ha]; csimpl; [constructor|].
  inversion HP as [|?? HPa HPl]; subst.
  constructor; [by apply IH|].
  apply Forall_fmap, Forall_forall. intros b Hb. simpl.
  rewrite Forall_forall in Ha, HPl. apply HRS; auto.
Qed.

Lemma sorted_by_inv {K A} (le : relation K) `{!RelDecision le}
    `{!Total le, !Transitive le} (key : A → result K) l l' :
  sorted_by le key l = Ok l' →
  l' ≡ₚ l ∧ StronglySorted (by_key le key) l'.
Proof.
  unfold sorted_by. intros (ks & Hks%mapM_Ok & [= <-])%bind_Ok.
  assert (Hsnd : ks.*2 = l ∧ Forall (λ kx, key kx.2 = Ok kx.1) ks).
  { clear -Hks. induction Hks as [|x kx l ks Hx _ [IH1 IH2]]; [done|].
    apply bind_Ok in Hx as (k & Hk & [= <-]). csimpl.
    split; [by f_equal|]. by constructor. }
  destruct Hsnd as [<- Hkeys]. split.
  - by rewrite stable_sort_Permutation.
  - eapply (StronglySorted_fmap_strong (key_le le) _ snd
              (λ kx, key kx.2 = Ok kx.1)).
    + apply StronglySorted_stable_sort; apply _.
    + by rewrite stable_sort_Permutation.
    + intros a b Ha Hb Hab. exists a.1, b.1. done.
Qed.

Lemma sorted_by_total {K A} (le : relation K) `{!RelDecision le}
    (key : A → result K) l :
  Forall (λ x, ∃ k, key x = Ok k) l → ∃ l', sorted_by le key l = Ok l'.
Proof.
  intros Hl. unfold sorted_by.
  destruct (mapM_total (λ x, k ← key x; Ok (k, x)) l) as [ks Hks].
  { eapply Forall_impl; [done|]. intros x [k Hk]. exists (k, x).
    by rewrite Hk. }
  rewrite Hks. by eexists.
Qed.

Lemma elem_of_unique {A} `{EqDecision A} (l : list A) x :
  x ∈ unique l ↔ x ∈ l.
Proof.
  induction l as [|y l IH]; simpl; [done|].
  rewrite !elem_of_cons, list_elem_of_filter, IH.
  destruct (decide (x = y)); naive_solver.
Qed.

Lemma NoDup_unique {A} `{EqDecision A} (l : list A) : NoDup (unique l).
Proof.
  induction l as [|y l IH]; simpl; constructor.
  - rewrite list_elem_of_filter. naive_solver.
  - by apply NoDup_filter.
Qed.

Lemma filter_ne_id {A} `{EqDecision A} (l : list A) x :
  x ∉ l → filter (λ y, y ≠ x) l = l.
Proof.
  induction l as [|y l IH]; [done|].
  intros [Hxy Hx]%not_elem_of_cons.
  rewrite filter_cons, decide_True by done. f_equal. auto.
Qed.

(** ** The month options (line 51) *)

Lemma months_inv df ms :
  months df = Ok ms →
  ∃ month_year, getcol df "Month-Year" = Ok month_year ∧
    ms ≡ₚ unique (dropna month_year) ∧ StronglySorted chronological ms.
Proof.
  unfold months. intros (my & Hmy & Hs)%bind_Ok.
  apply sorted_by_inv in Hs as [Hp Hs]; [|apply _..]. eauto.
Qed.

Lemma months_not_null df ms : months df = Ok ms → NaN ∉ ms.
Proof.
  intros (my & _ & Hp & _)%months_inv. rewrite Hp, elem_of_unique.
  unfold dropna. rewrite list_elem_of_filter. naive_solver.
Qed.

(** ** One pass of the loader and the calculator *)

Lemma loaded_row_insert (r : gmap string cell) c v :
  c ∉ date_cols → c ≠ "Month-Year" → c ≠ "Priority" →
  loaded_row r → loaded_row (<[c := v]> r).
Proof.
  intros Hd Hm Hp (Hdate & Hmy & Hprio). split; [|split].
  - intros c' Hc'. rewrite col_is_insert_ne; [by apply Hdate|].
    by intros ->.
  - rewrite lookup_insert_ne by done. unfold cell_of.
    rewrite lookup_insert_ne; [done|]. intros ->. apply Hd. compute_done.
  - by rewrite col_is_insert_ne.
Qed.

Lemma prepare_rows repr pd raw df :
  prepare repr pd raw = Ok df →
  has_column df "Month-Year" ∧ has_column df "Priority" ∧
  has_column df "Final MTD" ∧ has_column df "Final MTR" ∧
  Forall (prepared_row repr) (rows df).
Proof.
  unfold prepare. intros (df1 & Hload & Hadd)%bind_Ok.
  apply load_rows in Hload as ([Hm1 Hm2] & [Hp1 Hp2] & Hrows1).
  pose proof (add_metrics_rows _ _ _ Hadd) as Hrows.
  assert (Hloaded : Forall loaded_row (rows df1)).
  { eapply Forall2_range; [exact Hrows1|]. by intros r r' [_ ?]. }
  assert (Hcol : ∀ c, c ∈ columns df1 → Forall (λ r, is_Some (r !! c)) (rows df1) →
                      has_column df c).
  { intros c Hc Hr. split; [eapply add_metrics_columns; eauto|].
    eapply Forall2_transfer; [exact Hr|exact Hrows|].
    intros r r' [x Hx] (v & w & _ & _ & ->).
    destruct (decide (c = "Final MTR")) as [->|]; [by rewrite lookup_insert_eq|].
    rewrite lookup_insert_ne by done.
    destruct (decide (c = "Final MTD")) as [->|]; [by rewrite lookup_insert_eq|].
    by rewrite lookup_insert_ne, Hx. }
  split; [by apply Hcol|]. split; [by apply Hcol|].
  split; [|split].
  - split; [eapply add_metrics_columns; eauto|].
    eapply Forall2_range; [exact Hrows|].
    intros r r' (v & w & _ & _ & ->).
    by rewrite lookup_insert_ne, lookup_insert_eq.
  - split; [eapply add_metrics_columns; eauto|].
    eapply Forall2_range; [exact Hrows|].
    intros r r' (v & w & _ & _ & ->). by rewrite lookup_insert_eq.
  - eapply Forall2_transfer; [exact Hloaded|exact Hrows|].
    intros r r' Hr (v & w & Hv & Hw & ->). split; [|split].
    + do 2 (apply loaded_row_insert; [compute_done|done|done|]). done.
    + exists v. rewrite !calc_mtd_insert by done.
      by rewrite lookup_insert_ne, lookup_insert_eq.
    + exists w. rewrite !calc_mtr_insert by done.
      by rewrite lookup_insert_eq.
Qed.

(** ** Records without restoration timestamp *)

(** C4, amended.  In the prepared table a record without restoration
    timestamp has a missing bucket; the month options never contain the
    missing bucket; and for every selection drawn from the month options
    (and any selection of priorities) such a record is left out of the
    filtered table, hence out of the raw data view and out of the exported
    "Main Data" sheet, which both hold exactly the filtered table. *)
Theorem null_bucket_excluded repr pd raw df ms selected_months selected_priorities f :
  prepare repr pd raw = Ok df →
  months df = Ok ms →
  selected_months ⊆ ms →
  filtered_df df selected_months selected_priorities = Ok f →
  (NaN ∉ ms) ∧
  raw_view f = f ∧
  (∀ wb, export f = Ok wb → main_data wb = f) ∧
  ∀ r, r ∈ rows df → r !! "Service Restored Date" = Some NaN →
       r !! "Month-Year" = Some NaN ∧ r ∉ rows f.
Proof.
  intros Hprep Hms Hsel Hf.
  pose proof (months_not_null _ _ Hms) as Hnull.
  apply prepare_rows in Hprep as (Hm & Hp & _ & _ & Hrows).
  split; [done|]. split; [done|]. split.
  { intros wb. unfold export.
    by intros (a & _ & (b & _ & (? & _ & (? & _ & (? & _ & [= <-])
         %bind_Ok)%bind_Ok)%bind_Ok)%bind_Ok)%bind_Ok. }
  intros r Hr Hres.
  rewrite Forall_forall in Hrows.
  destruct (Hrows r Hr) as ((_ & Hmy & _) & _).
  unfold cell_of in Hmy. rewrite Hres in Hmy. simpl in Hmy.
  split; [done|].
  destruct (filtered_df_rows df selected_months selected_priorities Hm Hp)
    as (f' & Hf' & _ & Hrows').
  rewrite Hf in Hf'. injection Hf' as <-.
  rewrite Hrows', list_elem_of_filter. intros [[Hin _] _].
  unfold cell_of in Hin. rewrite Hmy in Hin. simpl in Hin.
  apply Hnull, Hsel, Hin.
Qed.

Lemma null_bucket_excluded_witness :
  (NaN ∉ [Str "Jan-2025"]) ∧ raw_view with_open_filtered = with_open_filtered ∧
  (∀ wb, export with_open_filtered = Ok wb → main_data wb = with_open_filtered) ∧
  ∀ r, r ∈ rows with_open_df → r !! "Service Restored Date" = Some NaN →
       r !! "Month-Year" = Some NaN ∧ r ∉ rows with_open_filtered.
Proof.
  apply (null_bucket_excluded no_repr no_parse with_open with_open_df
           [Str "Jan-2025"] [Str "Jan-2025"] [Str "P1"; Str "P2"]
           with_open_filtered).
  - vm_compute; reflexivity.
  - vm_compute; reflexivity.
  - reflexivity.
  - vm_compute; reflexivity.
Defined.

(** C4 as stated fails: the unrestored P2 ticket is in the prepared table
    and P2 is selected by default, yet neither the raw view nor the
    "Main Data" sheet holds it. *)
Lemma null_bucket_hidden : ¬ null_bucket_shown no_repr no_parse with_open.
Proof.
  intros H.
  destruct (H with_open_df [Str "Jan-2025"] [Str "P1"; Str "P2"]
              with_open_filtered with_open_book unrestored) as [Hin _].
  - vm_compute; reflexivity.
  - vm_compute; reflexivity.
  - vm_compute; reflexivity.
  - vm_compute; reflexivity.
  - compute_done.
  - vm_compute; reflexivity.
  - compute_done.
  - revert Hin. compute_done.
Qed.

(** ** Grouping (lines 64, 127) *)

Lemma numeric_numbers l : Forall number l → numeric l = Ok (non_null l).
Proof.
  induction 1 as [|c l Hc _ IH]; [done|].
  destruct c; try done; simpl; by rewrite IH.
Qed.

Lemma zip_fmap3 {A B C D} (f : A → B) (g : A → C) (h : A → D) (l : list A) :
  zip (zip (f <$> l) (g <$> l)) (h <$> l) = (λ x, (f x, g x, h x)) <$> l.
Proof. induction l; csimpl; by f_equal. Qed.

Lemma filter_fmap {A B} (f : A → B) (P : B → Prop) `{∀ y, Decision (P y)}
    (l : list A) :
  filter P (f <$> l) = f <$> filter (λ x, P (f x)) l.
Proof.
  induction l as [|x l IH]; csimpl; [done|].
  rewrite !filter_cons. case_decide; csimpl; by rewrite IH.
Qed.

Lemma groupby_observed df metric :
  has_column df "Month-Year" → has_column df "Priority" → has_column df metric →
  ∃ keys, groupby true df metric
            = Ok ((λ k, (k, group_cells df metric k)) <$> keys) ∧
          NoDup keys ∧
          ∀ k, k ∈ keys ↔ ∃ r, r ∈ rows df ∧ keyed r ∧ key_of r = k.
Proof.
  intros Hm Hp Hv. unfold groupby.
  rewrite (getcol_Ok _ _ Hm), (getcol_Ok _ _ Hp), (getcol_Ok _ _ Hv).
  unfold mbind at 1 2 3, result_bind. cbv beta iota zeta.
  rewrite zip_fmap3.
  rewrite (filter_fmap (λ r, (cell_of r "Month-Year", cell_of r "Priority",
                              cell_of r metric))
             (λ x, x.1.1 ≠ NaN ∧ x.1.2 ≠ NaN)).
  simpl.
  set (recs := _ <$> filter _ (rows df)).
  set (keys := stable_sort _ _).
  assert (Hkeys : ∀ k, k ∈ keys ↔ ∃ r, r ∈ rows df ∧ keyed r ∧ key_of r = k).
  { intros k. unfold keys. rewrite stable_sort_Permutation, elem_of_unique.
    unfold recs. rewrite <- list_fmap_compose, list_elem_of_fmap.
    setoid_rewrite list_elem_of_filter. unfold keyed, key_of. simpl.
    naive_solver. }
  exists keys. split; [|split; [|done]].
  - f_equal. apply list_fmap_ext. intros i k Hk. f_equal.
    apply list_elem_of_lookup_2, Hkeys in Hk as (r0 & _ & [Hk1 Hk2] & <-).
    unfold recs, group_cells.
    rewrite (filter_fmap _ (λ x, x.1 = key_of r0)), <- list_fmap_compose.
    rewrite list_filter_filter. simpl.
    apply (f_equal (fmap _)). apply list_filter_iff. intros r.
    unfold key_of in *. simpl in *. split; [naive_solver|].
    intros Heq. injection Heq as -> ->. done.
  - unfold keys. rewrite stable_sort_Permutation. apply NoDup_unique.
Qed.

(** ** The summary records (lines 134-146) *)

Lemma groupby_agg_observed df metric :
  has_column df "Month-Year" → has_column df "Priority" → has_column df metric →
  Forall (λ r, number (cell_of r metric)) (rows df) →
  ∃ keys, groupby_agg true df metric = Ok (group_of df metric <$> keys) ∧
          NoDup keys ∧
          ∀ k, k ∈ keys ↔ ∃ r, r ∈ rows df ∧ keyed r ∧ key_of r = k.
Proof.
  intros Hm Hp Hv Hnum.
  destruct (groupby_observed df metric Hm Hp Hv) as (keys & Hg & Hnd & Hkeys).
  exists keys. split; [|done]. unfold groupby_agg. rewrite Hg.
  unfold mbind at 1, result_bind at 1.
  rewrite (mapM_Ok_total _
             (λ g, mkGroup g.1.1 g.1.2 (agg_count (non_null g.2))
                           (agg_sum (non_null g.2)) (agg_mean (non_null g.2)))).
  - by rewrite <- list_fmap_compose.
  - apply Forall_fmap, Forall_forall. intros k _. simpl.
    rewrite numeric_numbers; [done|].
    unfold group_cells. apply Forall_fmap, Forall_forall.
    intros r [_ Hr]%list_elem_of_filter. simpl.
    rewrite Forall_forall in Hnum. by apply Hnum.
Qed.

Lemma filter_eq_NoDup {A} `{EqDecision A} (l : list A) x :
  NoDup l → filter (λ y, y = x) l = if decide (x ∈ l) then [x] else [].
Proof.
  induction 1 as [|y l Hy Hnd IH]; [done|].
  rewrite filter_cons, IH. destruct (decide (y = x)) as [->|Hne].
  - rewrite decide_False by done. rewrite decide_True by left. done.
  - destruct (decide (x ∈ l)) as [Hin|Hnin].
    + by rewrite decide_True by by right.
    + rewrite decide_False; [done|]. rewrite elem_of_cons. naive_solver.
Qed.

Lemma groups_found df metric keys m p :
  NoDup keys →
  filter (λ g, g_priority g = p)
         (filter (λ g, g_month g = m) (group_of df metric <$> keys))
  = if decide ((m, p) ∈ keys) then [group_of df metric (m, p)] else [].
Proof.
  intros Hnd. rewrite list_filter_filter.
  rewrite (filter_fmap (group_of df metric)
             (λ g, g_priority g = p ∧ g_month g = m)).
  rewrite (list_filter_iff _ (λ k, k = (m, p))).
  - rewrite filter_eq_NoDup by done. by case_decide.
  - intros [m' p']. simpl. naive_solver.
Qed.

Lemma prefix5_columns label :
  prefix5 <$> ("Month-Year" :: summary_columns label)
  = ["Month"; "P1 (C"; "P1 (S"; "P1 (A"; "P2 (C"; "P2 (S"; "P2 (A";
     "P3 (C"; "P3 (S"; "P3 (A"; "P4 (C"; "P4 (S"; "P4 (A";
     "P5 (C"; "P5 (S"; "P5 (A"].
Proof. reflexivity. Qed.

Lemma NoDup_summary_columns label : NoDup ("Month-Year" :: summary_columns label).
Proof.
  apply (NoDup_fmap_1 prefix5). rewrite prefix5_columns. compute_done.
Qed.

Lemma summary_record_keys label grouped m :
  (summary_record label grouped m).*1 = "Month-Year" :: summary_columns label.
Proof.
  unfold summary_record, summary_columns, priority_order. csimpl.
  repeat (match goal with
          | |- context [match ?x with [] => _ | _ :: _ => _ end] => destruct x
          end; csimpl); reflexivity.
Qed.

Lemma summary_record_month label grouped m :
  list_to_map (M := gmap string cell) (summary_record label grouped m)
    !! "Month-Year" = Some m.
Proof. unfold summary_record. simpl. by rewrite lookup_insert_eq. Qed.

Lemma summary_record_triad label grouped m p :
  p ∈ priority_order →
  triad label p (delete "Month-Year" (list_to_map (summary_record label grouped m)))
  = triad_of (filter (λ g, g_priority g = Str p)
                     (filter (λ g, g_month g = m) grouped)).
Proof.
  intros Hp.
  assert (Hlook : ∀ k v, k ≠ "Month-Year" →
            (k, v) ∈ summary_record label grouped m →
            delete "Month-Year"
              (list_to_map (M := gmap string cell) (summary_record label grouped m))
              !! k = Some v).
  { intros k v Hk Hin. rewrite lookup_delete_ne by done.
    apply elem_of_list_to_map_1; [|done].
    rewrite summary_record_keys. apply NoDup_summary_columns. }
  assert (Hin : ∀ x, x ∈ (match filter (λ g, g_priority g = Str p)
                                 (filter (λ g, g_month g = m) grouped) with
      | g :: _ =>
          [(p +:+ " (COUNT)", Num (inject_Z (g_count g)));
           (p +:+ " (SUM " +:+ label +:+ ")", Num (g_sum g));
           (p +:+ " (AVG " +:+ label +:+ ")", g_avg g)]
      | [] =>
          [(p +:+ " (COUNT)", Num 0);
           (p +:+ " (SUM " +:+ label +:+ ")", Num 0);
           (p +:+ " (AVG " +:+ label +:+ ")", Num 0)]
      end) → x ∈ summary_record label grouped m).
  { intros x Hx. unfold summary_record. apply elem_of_cons. right.
    apply list_elem_of_bind. exists p. done. }
  assert (Hne : ∀ k, k ∈ triad_columns label p → k ≠ "Month-Year").
  { intros k Hk ->.
    assert (Hk' : "Month-Year" ∈ summary_columns label).
    { unfold summary_columns. apply list_elem_of_bind. eauto. }
    pose proof (NoDup_summary_columns label) as Hnd.
    by apply NoDup_cons in Hnd as [? _]. }
  unfold triad, triad_of.
  destruct (filter _ (filter _ grouped)) as [|g ?];
    repeat (erewrite Hlook;
      [ | apply Hne; unfold triad_columns; rewrite !elem_of_cons; tauto
        | apply Hin;
          first [ apply list_elem_of_here
                | apply list_elem_of_further, list_elem_of_here
                | do 2 apply list_elem_of_further; apply list_elem_of_here ] ]);
    reflexivity.
Qed.

(** ** Building the summary table (lines 147-151) *)

Lemma unique_filter {A} `{EqDecision A} (P : A → Prop) `{∀ x, Decision (P x)}
    (l : list A) :
  filter P (unique l) = unique (filter P l).
Proof.
  induction l as [|x l IH]; [done|]. simpl.
  rewrite !filter_cons. case_decide as HP; simpl.
  - f_equal. rewrite <- IH, !list_filter_filter.
    apply list_filter_iff. naive_solver.
  - rewrite !list_filter_filter, (list_filter_iff _ (λ y, y ≠ x ∧ P y))
      by naive_solver.
    rewrite <- list_filter_filter, IH. apply filter_ne_id.
    rewrite elem_of_unique, list_elem_of_filter. naive_solver.
Qed.

Lemma unique_app_absorb {A} `{EqDecision A} (K l : list A) :
  NoDup K → (∀ x, x ∈ l → x ∈ K) → unique (K ++ l) = K.
Proof.
  intros Hnd. revert l. induction Hnd as [|a K Ha Hnd IH]; intros l Hl.
  - destruct l as [|x l]; [done|]. exfalso.
    eapply elem_of_nil, Hl. left.
  - simpl. f_equal. rewrite unique_filter, filter_app, filter_ne_id by done.
    apply IH. intros x [Hne Hx]%list_elem_of_filter.
    apply Hl, elem_of_cons in Hx as [->|]; done.
Qed.

Lemma unique_repeat {A B} `{EqDecision B} (K : list B) (l : list A) :
  NoDup K → l ≠ [] → unique (l ≫= λ _, K) = K.
Proof.
  intros Hnd Hl. destruct l as [|x l]; [done|]. csimpl.
  apply unique_app_absorb; [done|].
  intros y (? & Hy & _)%list_elem_of_bind. done.
Qed.

Lemma omap_total {A B} (f : A → option B) (g : A → B) (l : list A) :
  (∀ x, x ∈ l → f x = Some (g x)) → omap f l = g <$> l.
Proof.
  induction l as [|x l IH]; intros Hf; csimpl; [done|].
  rewrite Hf by left. f_equal. apply IH. intros y Hy. apply Hf. by right.
Qed.

Lemma elem_of_summary_columns label c :
  c ∈ summary_columns label ↔ ∃ p, p ∈ priority_order ∧ c ∈ triad_columns label p.
Proof. unfold summary_columns. rewrite list_elem_of_bind. naive_solver. Qed.

Lemma month_row_cell label grouped m c :
  Forall (λ g, number (g_avg g)) grouped →
  c ∈ summary_columns label →
  ∃ v, month_row label grouped m !! c = Some v ∧ number v.
Proof.
  intros Hnum (p & Hp & Hc)%elem_of_summary_columns.
  pose proof (summary_record_triad label grouped m p Hp) as Ht.
  unfold triad in Ht. fold (month_row label grouped m) in Ht.
  assert (Hfound : Forall (λ g, number (g_avg g))
            (filter (λ g, g_priority g = Str p)
                    (filter (λ g, g_month g = m) grouped))).
  { apply Forall_forall.
    intros g [_ [_ Hg]%list_elem_of_filter]%list_elem_of_filter.
    rewrite Forall_forall in Hnum. by apply Hnum. }
  destruct (filter _ (filter _ grouped)) as [|g ?]; simpl in Ht;
    injection Ht as H1 H2 H3;
    unfold triad_columns in Hc; rewrite !elem_of_cons, elem_of_nil in Hc;
    destruct Hc as [->|[->|[->|[]]]]; eexists; split; try done.
  by inversion Hfound.
Qed.

Lemma build_table label grouped ms :
  ms ≠ [] → Forall (λ g, number (g_avg g)) grouped →
  let month_rows := month_row label grouped <$> ms in
  (summary_df ← set_index (from_records (summary_record label grouped <$> ms))
                          "Month-Year";
   Ok (concat_row summary_df (Str "AVG") (mean_numeric_only (frame summary_df))))
  = Ok (mkIndexed (ms ++ [Str "AVG"])
          (mkDF (summary_columns label)
                (month_rows ++ [avg_row_of label month_rows]))).
Proof.
  intros Hms Hnum month_rows.
  pose proof (NoDup_summary_columns label) as Hnd.
  apply NoDup_cons in Hnd as [Hmy Hnd'].
  assert (Hcols : columns (from_records (summary_record label grouped <$> ms))
                  = "Month-Year" :: summary_columns label).
  { unfold from_records. simpl. rewrite list_fmap_bind.
    rewrite (list_bind_ext _ (λ _, "Month-Year" :: summary_columns label)
               ms ms); [|intros m; apply summary_record_keys|done].
    apply unique_repeat; [apply NoDup_summary_columns|done]. }
  assert (Hidx : getcol (from_records (summary_record label grouped <$> ms))
                        "Month-Year" = Ok ms).
  { unfold getcol. rewrite Hcols, bool_decide_eq_true_2 by left.
    unfold from_records. simpl. rewrite <- list_fmap_compose.
    apply mapM_Ok, Forall2_fmap_l, Forall_Forall2_diag, Forall_forall.
    intros m _.
    change (getitem (list_to_map (summary_record label grouped m)) "Month-Year"
            = Ok m).
    unfold getitem. by rewrite summary_record_month. }
  unfold set_index. rewrite Hidx, Hcols.
  unfold mbind, result_bind. cbv beta iota.
  rewrite filter_cons, decide_False by (by intros ?).
  rewrite filter_ne_id by done.
  unfold from_records. cbn [rows frame columns index].
  assert (Hrows : delete "Month-Year" <$>
                    (list_to_map <$> (summary_record label grouped <$> ms))
                  = month_rows).
  { unfold month_rows. by rewrite <- !list_fmap_compose. }
  rewrite Hrows.
  assert (Hmean : mean_numeric_only (mkDF (summary_columns label) month_rows)
                  = (λ c, (c, column_mean month_rows c)) <$> summary_columns label).
  { unfold mean_numeric_only. cbn [columns]. apply omap_total.
    intros c Hc.
    assert (Hhas : has_column (mkDF (summary_columns label) month_rows) c).
    { split; [done|]. cbn [rows]. unfold month_rows.
      apply Forall_fmap, Forall_forall. intros m _. simpl.
      destruct (month_row_cell label grouped m c Hnum Hc) as (v & -> & _).
      eauto. }
    rewrite (getcol_Ok _ _ Hhas). cbn [rows].
    unfold mbind, result_bind. rewrite numeric_numbers; [done|].
    unfold month_rows. rewrite <- list_fmap_compose.
    apply Forall_fmap, Forall_forall. intros m _. simpl.
    destruct (month_row_cell label grouped m c Hnum Hc) as (v & Hv & Hn).
    unfold cell_of. by rewrite Hv. }
  rewrite Hmean. unfold concat_row. cbn [rows frame columns index].
  rewrite <- list_fmap_compose.
  assert (Hfst : fst ∘ (λ c, (c, column_mean month_rows c)) = id) by done.
  rewrite Hfst, list_fmap_id.
  rewrite unique_app_absorb by done.
  do 5 f_equal. unfold avg_row_of. apply (f_equal list_to_map).
  apply list_fmap_ext. intros i c Hc%list_elem_of_lookup_2. f_equal.
  erewrite elem_of_list_to_map_1; [done| |].
  - by rewrite <- list_fmap_compose, Hfst, list_fmap_id.
  - apply list_elem_of_fmap. eauto.
Qed.

(** ** The full summary (lines 126-151) *)

Lemma agg_mean_number qs : number (agg_mean qs).
Proof. by destruct qs. Qed.

Lemma valid_label_Ok c : valid_label c → c ≠ NaN → ∃ t, to_datetime_bY c = Ok t.
Proof.
  unfold valid_label. destruct c; try done; destruct (to_datetime_bY _); by eauto.
Qed.

(** The table [full_summary] returns, spelled out: the groups are the key
    pairs that occur, the months are their distinct buckets in chronological
    order, and the rows are the month rows followed by the row of column
    means. *)
Lemma full_summary_char df metric label :
  summary_input df metric →
  ∃ keys ms,
    NoDup keys ∧ (∀ k, k ∈ keys ↔ occurs df k) ∧
    ms ≡ₚ unique (keys.*1) ∧ StronglySorted chronological ms ∧ ms ≠ [] ∧
    full_summary df metric label
    = Ok (mkIndexed (ms ++ [Str "AVG"])
            (mkDF (summary_columns label)
               ((month_row label (group_of df metric <$> keys) <$> ms) ++
                [avg_row_of label
                   (month_row label (group_of df metric <$> keys) <$> ms)]))) ∧
    ∀ m p, p ∈ priority_order →
      triad label p (month_row label (group_of df metric <$> keys) m)
      = triad_of (if decide ((m, Str p) ∈ keys)
                  then [group_of df metric (m, Str p)] else []).
Proof.
  intros [Hm Hp Hv Hlab Hnum Hkeyed].
  destruct (groupby_agg_observed df metric Hm Hp Hv Hnum)
    as (keys & Hagg & Hnd & Hkeys).
  assert (Hmonths : g_month <$> (group_of df metric <$> keys) = keys.*1).
  { rewrite <- list_fmap_compose. by apply list_fmap_ext. }
  destruct (sorted_by_total Z.le to_datetime_bY (unique (keys.*1))) as [ms Hms].
  { apply Forall_forall. intros m [[m' p] [-> Hk]]%elem_of_unique%list_elem_of_fmap.
    apply Hkeys in Hk as (r & Hr & [Hk1 _] & Hkey).
    rewrite Forall_forall in Hlab. specialize (Hlab r Hr).
    unfold key_of in *. injection Hkey as <- <-.
    by apply valid_label_Ok. }
  pose proof (sorted_by_inv _ _ _ _ Hms) as [Hperm Hsorted].
  assert (Hne : ms ≠ []).
  { apply Exists_exists in Hkeyed as (r & Hr & Hkr).
    assert (Hin : (key_of r).1 ∈ ms).
    { rewrite Hperm, elem_of_unique. apply list_elem_of_fmap.
      exists (key_of r). split; [done|]. apply Hkeys. eauto. }
    intros ->. by apply elem_of_nil in Hin. }
  exists keys, ms. split; [done|]. split.
  { intros k. rewrite Hkeys. unfold occurs. rewrite Exists_exists. naive_solver. }
  split; [done|]. split; [done|]. split; [done|]. split.
  - unfold full_summary, full_summary_with, observed_default.
    rewrite Hagg. unfold mbind at 1, result_bind at 1. cbv beta iota.
    rewrite Hmonths, Hms. unfold mbind at 1, result_bind at 1. cbv beta iota zeta.
    apply build_table; [done|].
    apply Forall_fmap, Forall_forall. intros k _. apply agg_mean_number.
  - intros m p Hp'. unfold month_row.
    rewrite summary_record_triad by done. by rewrite groups_found.
Qed.

Lemma months_of_keys df (keys : list (cell * cell)) ms :
  (∀ k, k ∈ keys ↔ occurs df k) → ms ≡ₚ unique (keys.*1) →
  ∀ m, m ∈ ms ↔ ∃ p, occurs df (m, p).
Proof.
  intros Hkeys Hperm m. rewrite Hperm, elem_of_unique, list_elem_of_fmap.
  split.
  - intros ([m' p] & -> & Hk). exists p. by apply Hkeys.
  - intros [p Hp]. exists (m, p). split; [done|]. by apply Hkeys.
Qed.

(** Without a record that has both keys there is no group, and the frame
    built from no rows has no "Month-Year" column to index (line 148). *)
Lemma no_keys_nil (keys : list (cell * cell)) (df : DataFrame) :
  (∀ k, k ∈ keys ↔ ∃ r, r ∈ rows df ∧ keyed r ∧ key_of r = k) →
  Forall (λ r, ¬ keyed r) (rows df) → keys = [].
Proof.
  intros Hkeys Hnone. destruct keys as [|k keys]; [done|]. exfalso.
  destruct (Hkeys k) as [(r & Hr & Hk & _) _]; [left|].
  rewrite Forall_forall in Hnone. by apply (Hnone r).
Qed.

Lemma full_summary_unkeyed df metric label :
  has_column df "Month-Year" → has_column df "Priority" → has_column df metric →
  Forall (λ r, ¬ keyed r) (rows df) →
  full_summary df metric label = Raise (KeyError "Month-Year").
Proof.
  intros Hm Hp Hv Hnone.
  destruct (groupby_observed df metric Hm Hp Hv) as (keys & Hg & _ & Hkeys).
  rewrite (no_keys_nil keys df Hkeys Hnone) in Hg.
  unfold full_summary, full_summary_with, groupby_agg, observed_default.
  by rewrite Hg.
Qed.


(** C9.  The month of every (month, priority) pair that occurs in the table
    has exactly one row in the full summary.  In that row, a pair that occurs
    but whose metric values are all missing has COUNT 0, SUM 0 and a missing
    AVG, whereas a pair that does not occur has COUNT 0, SUM 0 and AVG 0: the
    AVG cell tells the two apart. *)
Theorem all_null_group_distinguished df metric label :
  summary_input df metric →
  ∃ t ms month_rows avg,
    full_summary df metric label = Ok t ∧
    index t = ms ++ [Str "AVG"] ∧
    rows (frame t) = month_rows ++ [avg] ∧
    length month_rows = length ms ∧ NoDup ms ∧
    (∀ m, m ∈ ms ↔ ∃ p, occurs df (m, p)) ∧
    (∀ m p, p ∈ priority_order → occurs df (m, Str p) →
       Forall (λ c, c = NaN) (group_cells df metric (m, Str p)) →
       ∃ i row, ms !! i = Some m ∧ month_rows !! i = Some row ∧
                triad label p row = (Some (Num 0), Some (Num 0), Some NaN)) ∧
    ∀ i m row p,
      ms !! i = Some m → month_rows !! i = Some row → p ∈ priority_order →
      (occurs df (m, Str p) →
       Forall (λ c, c = NaN) (group_cells df metric (m, Str p)) →
         triad label p row = (Some (Num 0), Some (Num 0), Some NaN)) ∧
      (¬ occurs df (m, Str p) →
         triad label p row = (Some (Num 0), Some (Num 0), Some (Num 0))) ∧
      (Some (Num 0), Some (Num 0), Some NaN)
        ≠ (Some (Num 0), Some (Num 0), Some (Num 0)).
Proof.
  intros Hin.
  destruct (full_summary_char df metric label Hin)
    as (keys & ms & Hnd & Hkeys & Hperm & Hsorted & Hne & Hfull & Htriad).
  pose proof (months_of_keys _ _ _ Hkeys Hperm) as Hms.
  assert (Hnull : ∀ m p, p ∈ priority_order → occurs df (m, Str p) →
            Forall (λ c, c = NaN) (group_cells df metric (m, Str p)) →
            triad label p (month_row label (group_of df metric <$> keys) m)
            = (Some (Num 0), Some (Num 0), Some NaN)).
  { intros m p Hp Hocc Hnull. rewrite (Htriad m p Hp).
    rewrite decide_True by by apply Hkeys.
    assert (Hqs : non_null (group_cells df metric (m, Str p)) = []).
    { induction Hnull as [|c l -> _ IH]; [done|]. by simpl. }
    unfold triad_of, group_of. simpl. by rewrite Hqs. }
  eexists _, ms, _, _. split; [exact Hfull|]. cbn [index frame rows columns].
  split; [done|]. split; [done|]. split; [by rewrite length_fmap|].
  split; [rewrite Hperm; apply NoDup_unique|]. split; [done|]. split.
  - intros m p Hp Hocc Hall.
    assert (Hm : m ∈ ms) by (apply Hms; eauto).
    apply list_elem_of_lookup in Hm as [i Hi].
    exists i, (month_row label (group_of df metric <$> keys) m).
    split; [done|]. split; [by rewrite list_lookup_fmap, Hi|]. by apply Hnull.
  - intros i m row p Hm Hrow Hp.
    rewrite list_lookup_fmap, Hm in Hrow. injection Hrow as <-.
    split; [by apply Hnull|]. split; [|done].
    intros Hocc. rewrite (Htriad m p Hp), decide_False; [done|].
    by rewrite Hkeys.
Qed.

(** ** The trailing row (lines 149-151) *)

Lemma months_parse df metric (ms : list cell) :
  summary_input df metric → (∀ m, m ∈ ms ↔ ∃ p, occurs df (m, p)) →
  ∀ m, m ∈ ms → ∃ t, to_datetime_bY m = Ok t.
Proof.
  intros [_ _ _ Hlab _ _] Hms m [p Hocc]%Hms.
  apply Exists_exists in Hocc as (r & Hr & [Hk1 _] & Hkey).
  rewrite Forall_forall in Hlab. specialize (Hlab r Hr).
  unfold key_of in *. injection Hkey as <- <-. by apply valid_label_Ok.
Qed.

Lemma non_null_numbers (l : list cell) (qs : list Q) :
  Forall2 (λ c q, c = Num q) l qs → non_null l = qs.
Proof. induction 1 as [|c q l qs -> _ IH]; [done|]. simpl. by rewrite IH. Qed.




Lemma all_null_group_distinguished_witness :
  summary_input two_months_filtered "Final MTD" ∧
  ∃ t ms month_rows i row,
    full_summary two_months_filtered "Final MTD" "MTTD" = Ok t ∧
    index t = ms ++ [Str "AVG"] ∧ month_rows `prefix_of` rows (frame t) ∧
    ms !! i = Some (Str "Dec-2025") ∧ month_rows !! i = Some row ∧
    triad "MTTD" "P1" row = (Some (Num 0), Some (Num 0), Some NaN).
Proof.
  assert (Hin : summary_input two_months_filtered "Final MTD")
    by (constructor; compute_done).
  split; [exact Hin|].
  destruct (all_null_group_distinguished two_months_filtered "Final MTD" "MTTD" Hin)
    as (t & ms & month_rows & avg & Hfull & Hidx & Hrows & _ & _ & _ & Hex & _).
  destruct (Hex (Str "Dec-2025") "P1") as (i & row & Hi & Hrow & Htriad).
  - compute_done.
  - compute_done.
  - compute_done.
  - exists t, ms, month_rows, i, row. split; [exact Hfull|].
    split; [exact Hidx|]. split; [by exists [avg]|].
    split; [exact Hi|]. split; [exact Hrow|exact Htriad].
Defined.


(** The two-month table: in December the only P1 ticket was never answered,
    so its group occurs with a missing MTTD; P2 has no ticket in January. *)
Example two_months_table :
  full_summary two_months_filtered "Final MTD" "MTTD" = Ok two_months_summary ∧
  index two_months_summary = [Str "Jan-2025"; Str "Dec-2025"; Str "AVG"] ∧
  rows (frame two_months_summary) = two_months_rows ++ [two_months_avg] ∧
  (* December, P1: the group occurs, every value is missing *)
  triad "MTTD" "P1" (two_months_rows !!! 1%nat)
    = (Some (Num 0), Some (Num 0), Some NaN) ∧
  (* January, P2: no such group *)
  triad "MTTD" "P2" (two_months_rows !!! 0%nat)
    = (Some (Num 0), Some (Num 0), Some (Num 0)).
Proof. repeat split; vm_compute; reflexivity. Qed.

(** The trailing row of the two-month table: the mean of "P2 (AVG MTTD)"
    blends January's default 0 with December's 20, while the mean of
    "P1 (AVG MTTD)" skips December's missing cell and stays at January's
    2.5. *)
Example two_months_avg_row :
  (∃ a, cell_of two_months_avg "P2 (AVG MTTD)" = Num a ∧ (a == (0 + 20) / 2)%Q) ∧
  (∃ a, cell_of two_months_avg "P1 (AVG MTTD)" = Num a ∧ (a == 5 # 2)%Q).
Proof.
  split; (eexists; split; [vm_compute; reflexivity|reflexivity]).
Qed.


(** With the grouping default of pandas before 3.0 ([observed=False]) every
    month gets a group for each of the five categories, the [else] branch of
    line 142 is never taken, and a pair that does not occur shows a missing
    AVG instead of 0. *)
Example legacy_default_triads :
  ∃ t, full_summary_with false two_months_filtered "Final MTD" "MTTD" = Ok t ∧
       index t = [Str "Jan-2025"; Str "Dec-2025"; Str "AVG"] ∧
       triad "MTTD" "P2" (rows (frame t) !!! 0%nat)
         = (Some (Num 0), Some (Num 0), Some NaN).
Proof.
  eexists. split; [vm_compute; reflexivity|].
  split; vm_compute; reflexivity.
Qed.

(** ** Chronological order of the buckets *)

Lemma days_from_civil_mono y1 m1 y2 m2 :
  1 ≤ m1 ≤ 12 → 1 ≤ m2 ≤ 12 →
  y1 < y2 ∨ (y1 = y2 ∧ m1 < m2) →
  days_from_civil y1 m1 < days_from_civil y2 m2.
Proof.
  intros Hm1 Hm2 Hlt. unfold days_from_civil.
  repeat match goal with
         | |- context [if ?b then _ else _] => destruct b eqn:?
         end;
    Z.div_mod_to_equations; lia.
Qed.

Lemma month_index_range abbrs s i m :
  month_index abbrs s i = Some m → i ≤ m < i + Z.of_nat (length abbrs).
Proof.
  revert i. induction abbrs as [|a abbrs IH]; intros i; simpl; [done|].
  case_bool_decide as Heq.
  - intros [= <-]. lia.
  - intros Hm%IH. lia.
Qed.

Lemma parse_bY_month s y m : parse_bY s = Some (y, m) → 1 ≤ m ≤ 12.
Proof.
  unfold parse_bY. intros H.
  repeat match type of H with
         | match ?x with _ => _ end = _ => destruct x eqn:?; try done
         | (if ?x then _ else _) = _ => destruct x eqn:?; try done
         end.
  injection H as <- <-.
  match goal with
  | Hm : month_index _ _ _ = Some _ |- _ => apply month_index_range in Hm; simpl in Hm
  end.
  lia.
Qed.

(** The order of the sort keys is the order of (year, month). *)
Lemma chronological_year_month a b ya ma yb mb :
  parse_bY a = Some (ya, ma) → parse_bY b = Some (yb, mb) →
  chronological (Str a) (Str b) ↔ year_month_le (ya, ma) (yb, mb).
Proof.
  intros Ha Hb.
  pose proof (parse_bY_month _ _ _ Ha) as Hma.
  pose proof (parse_bY_month _ _ _ Hb) as Hmb.
  unfold chronological, by_key, year_month_le. simpl.
  unfold strptime_bY. rewrite Ha, Hb. split.
  - intros (ta & tb & [= <-] & [= <-] & Hle).
    destruct (decide (ya < yb ∨ ya = yb ∧ ma ≤ mb)) as [|Hn]; [done|].
    assert (Hgt : days_from_civil yb mb < days_from_civil ya ma).
    { apply days_from_civil_mono; lia. }
    unfold us_per_day in Hle. lia.
  - intros Hle. eexists _, _. split; [done|]. split; [done|].
    destruct (decide (ya = yb ∧ ma = mb)) as [[-> ->]|Hn]; [done|].
    assert (Hlt : days_from_civil ya ma < days_from_civil yb mb).
    { apply days_from_civil_mono; lia. }
    unfold us_per_day. lia.
Qed.

(** *** The calendar, by enumeration *)

Lemma all_from_spec f z n k :
  all_from f z n = true → z ≤ k < z + Z.of_nat n → f k = true.
Proof.
  revert z. induction n as [|n IH]; intros z; simpl; [lia|].
  intros [Hz Hrest]%andb_prop Hk.
  destruct (decide (k = z)) as [->|]; [done|].
  apply (IH (z + 1)); [done|lia].
Qed.

Lemma civil_from_days_month d : 1 ≤ (civil_from_days d).2 ≤ 12.
Proof.
  unfold civil_from_days. cbv zeta. simpl.
  repeat match goal with
         | |- context [if ?b then _ else _] => destruct b eqn:?
         end;
    Z.div_mod_to_equations; lia.
Qed.

Lemma labels_ok :
  all_from (λ y, all_from (label_ok y) 1 12) 1000 (Z.to_nat 9000) = true.
Proof. vm_compute. reflexivity. Qed.

(** Every label of a four-digit year reads back as the month it was printed
    from. *)
Lemma label_roundtrip y m :
  1000 ≤ y ≤ 9999 → 1 ≤ m ≤ 12 → parse_bY (format_bY y m) = Some (y, m).
Proof.
  intros Hy Hm.
  pose proof (all_from_spec _ _ _ y labels_ok) as H1.
  pose proof (all_from_spec _ _ _ m (H1 ltac:(lia))) as H2.
  specialize (H2 ltac:(lia)). unfold label_ok in H2.
  by apply bool_decide_eq_true in H2.
Qed.

(** A bucket printed by the loader parses. *)
Lemma bucket_valid c : four_digit_year c → valid_label (bucket c).
Proof.
  assert (Hlabel : ∀ t, 1000 ≤ (civil_from_days (t / us_per_day)).1 ≤ 9999 →
                        valid_label (Str (strftime_bY t))).
  { intros t Hy.
    unfold valid_label, to_datetime_bY, strptime_bY, strftime_bY.
    pose proof (civil_from_days_month (t / us_per_day)) as Hm.
    destruct (civil_from_days (t / us_per_day)) as [y m].
    cbn [fst snd] in Hy, Hm. by rewrite label_roundtrip. }
  destruct c as [| |t| |st]; try done; intros Hy; by apply Hlabel.
Qed.

Lemma era_days_ok : all_from era_day_ok 0 (Z.to_nat 146097) = true.
Proof. vm_compute. reflexivity. Qed.

Lemma days_from_civil_shift y m k :
  days_from_civil (y + 400 * k) m = days_from_civil y m + 146097 * k.
Proof.
  unfold days_from_civil.
  destruct (m <=? 2), (2 <? m); Z.div_mod_to_equations; lia.
Qed.

Lemma civil_from_days_shift d k :
  civil_from_days (d + 146097 * k)
  = ((civil_from_days d).1 + 400 * k, (civil_from_days d).2).
Proof.
  unfold civil_from_days. cbv zeta.
  assert (He : (d + 146097 * k + 719468) / 146097 = (d + 719468) / 146097 + k).
  { Z.div_mod_to_equations. lia. }
  rewrite He.
  assert (Hd : d + 146097 * k + 719468 - ((d + 719468) / 146097 + k) * 146097
               = d + 719468 - (d + 719468) / 146097 * 146097) by lia.
  rewrite Hd. simpl. f_equal. lia.
Qed.

(** Day [d] lies in the month [civil_from_days] gives for it. *)
Lemma civil_from_days_bracket d :
  days_from_civil (civil_from_days d).1 (civil_from_days d).2 ≤ d ∧
  d < days_from_civil (next_month (civil_from_days d)).1
                      (next_month (civil_from_days d)).2.
Proof.
  set (k := (d + 719468) / 146097).
  set (doe := d + 719468 - k * 146097).
  assert (Hdoe : 0 ≤ doe < 146097).
  { unfold doe, k. Z.div_mod_to_equations. lia. }
  assert (Hd : d = (doe - 719468) + 146097 * k) by (unfold doe; lia).
  rewrite Hd, civil_from_days_shift.
  pose proof (all_from_spec _ _ _ doe era_days_ok ltac:(lia)) as Hok.
  unfold era_day_ok in Hok. cbv zeta in Hok.
  apply andb_prop in Hok as [H1 H2].
  apply Z.leb_le in H1. apply Z.ltb_lt in H2.
  destruct (civil_from_days (doe - 719468)) as [y m].
  unfold next_month in *. cbn [fst snd] in *.
  destruct (m =? 12); cbn [fst snd] in *.
  - replace (y + 400 * k + 1) with (y + 1 + 400 * k) by lia.
    rewrite !days_from_civil_shift. lia.
  - rewrite !days_from_civil_shift. lia.
Qed.

(** A later day is in the same or in a later month. *)
Lemma civil_from_days_mono d1 d2 :
  d1 ≤ d2 → year_month_le (civil_from_days d1) (civil_from_days d2).
Proof.
  intros Hle.
  pose proof (civil_from_days_bracket d1) as [Hlo1 _].
  pose proof (civil_from_days_bracket d2) as [_ Hhi2].
  pose proof (civil_from_days_month d1) as Hm1.
  pose proof (civil_from_days_month d2) as Hm2.
  destruct (civil_from_days d1) as [y1 m1], (civil_from_days d2) as [y2 m2].
  unfold year_month_le, next_month in *. cbn [fst snd] in *.
  destruct (decide (y1 < y2 ∨ y1 = y2 ∧ m1 ≤ m2)) as [|Hn]; [done|].
  exfalso.
  destruct (m2 =? 12) eqn:Hm12; cbn [fst snd] in *.
  - apply Z.eqb_eq in Hm12 as ->.
    destruct (decide (y1 = y2 + 1 ∧ m1 = 1)) as [[-> ->]|Hne]; [lia|].
    assert (days_from_civil (y2 + 1) 1 < days_from_civil y1 m1);
      [apply days_from_civil_mono; lia|lia].
  - apply Z.eqb_neq in Hm12.
    destruct (decide (y1 = y2 ∧ m1 = m2 + 1)) as [[-> ->]|Hne]; [lia|].
    assert (days_from_civil y2 (m2 + 1) < days_from_civil y1 m1);
      [apply days_from_civil_mono; lia|lia].
Qed.

(** The buckets of two restoration times are in the order of the times. *)
Lemma bucket_chronological t1 t2 :
  t1 ≤ t2 → four_digit_year (Time t1) → four_digit_year (Time t2) →
  chronological (bucket (Time t1)) (bucket (Time t2)).
Proof.
  intros Hle Hy1 Hy2. unfold bucket, strftime_bY.
  unfold four_digit_year in *.
  assert (Hd : t1 / us_per_day ≤ t2 / us_per_day).
  { unfold us_per_day. Z.div_mod_to_equations. lia. }
  pose proof (civil_from_days_mono _ _ Hd) as Hmono.
  pose proof (civil_from_days_month (t1 / us_per_day)) as Hm1.
  pose proof (civil_from_days_month (t2 / us_per_day)) as Hm2.
  destruct (civil_from_days (t1 / us_per_day)) as [y1 m1].
  destruct (civil_from_days (t2 / us_per_day)) as [y2 m2].
  cbn [fst snd] in *.
  by apply (chronological_year_month _ _ y1 m1 y2 m2);
    [apply label_roundtrip..|].
Qed.

Global Instance code_le_total : Total code_le.
Proof. intros [x|] [y|]; simpl; try tauto. lia. Qed.

Global Instance code_le_trans : Transitive code_le.
Proof. intros [x|] [y|] [z|]; simpl; try tauto. lia. Qed.

Global Instance summary_key_le_total : Total summary_key_le.
Proof.
  intros [t1 c1] [t2 c2]. unfold summary_key_le. simpl.
  destruct (Z.lt_trichotomy t1 t2) as [?|[->|?]]; [by left; left| |by right; left].
  destruct (total code_le c1 c2); [left|right]; by right.
Qed.

Global Instance summary_key_le_trans : Transitive summary_key_le.
Proof.
  intros [t1 c1] [t2 c2] [t3 c3]. unfold summary_key_le. simpl.
  intros [?|[-> H12]] [?|[-> H23]]; [left; lia..|].
  right. split; [done|]. by etrans.
Qed.

Lemma chronological_example :
  chronological (Str "Jan-2025") (Str "Dec-2025") ∧
  ¬ chronological (Str "Dec-2025") (Str "Jan-2025") ∧
  String.ltb "Dec-2025" "Jan-2025" = true.
Proof.
  split; [|split]; [| |done].
  - apply (chronological_year_month _ _ 2025 1 2025 12); [done..|].
    unfold year_month_le. simpl. lia.
  - rewrite (chronological_year_month _ _ 2025 12 2025 1) by done.
    unfold year_month_le. simpl. lia.
Qed.

(** ** Orderings (lines 51, 66, 78, 133) *)

Lemma months_total df :
  has_column df "Month-Year" →
  Forall (λ r, valid_label (cell_of r "Month-Year")) (rows df) →
  ∃ ms, months df = Ok ms.
Proof.
  intros Hm Hlab. unfold months. rewrite (getcol_Ok _ _ Hm).
  unfold mbind, result_bind. apply sorted_by_total.
  apply Forall_forall. intros c [Hc [r [-> Hr]]%list_elem_of_fmap]%elem_of_unique%list_elem_of_filter.
  rewrite Forall_forall in Hlab. by apply valid_label_Ok; [apply Hlab|].
Qed.

Lemma generate_avg_summary_sorted df metric :
  summary_input df metric →
  ∃ summary, generate_avg_summary df metric = Ok summary ∧
             StronglySorted summary_order summary ∧
             ∀ m, m ∈ summary.*1.*1 ↔ ∃ p, occurs df (m, p).
Proof.
  intros [Hm Hp Hv Hlab Hnum Hkeyed].
  destruct (groupby_observed df metric Hm Hp Hv) as (keys & Hg & Hnd & Hkeys).
  unfold generate_avg_summary, observed_default. rewrite Hg.
  unfold mbind at 1, result_bind at 1.
  rewrite (mapM_Ok_total _ (λ g, (g.1, agg_mean (non_null g.2)))).
  2:{ apply Forall_fmap, Forall_forall. intros k _. simpl.
      rewrite numeric_numbers; [done|].
      unfold group_cells. apply Forall_fmap, Forall_forall.
      intros r [_ Hr]%list_elem_of_filter. simpl.
      rewrite Forall_forall in Hnum. by apply Hnum. }
  unfold mbind at 1, result_bind at 1. cbv beta iota zeta.
  rewrite <- !list_fmap_compose.
  set (f := _ ∘ _ ∘ _).
  assert (Hf : ∀ k, (f k).1.1 = k.1) by done.
  assert (Hparse : ∀ k, k ∈ keys → ∃ t, to_datetime_bY k.1 = Ok t).
  { intros k (r & Hr & [Hk1 _] & <-)%Hkeys.
    rewrite Forall_forall in Hlab. by apply valid_label_Ok; [apply Hlab|]. }
  destruct (sorted_by_total summary_key_le summary_key (f <$> keys))
    as [summary Hs].
  { apply Forall_fmap, Forall_forall. intros k Hk. simpl.
    destruct (Hparse k Hk) as [t Ht]. unfold summary_key.
    rewrite Hf, Ht. by eexists. }
  exists summary. split; [done|].
  apply sorted_by_inv in Hs as [Hperm Hsorted]; [|apply _..].
  split; [done|].
  intros m. rewrite Hperm, <- !list_fmap_compose.
  assert (Heq : fst ∘ fst ∘ f <$> keys = keys.*1) by by apply list_fmap_ext.
  rewrite Heq, list_elem_of_fmap. split.
  - intros ([m' p] & -> & Hk). exists p.
    apply Hkeys in Hk as (r & Hr & Hkr & Hkey).
    apply Exists_exists. eauto.
  - intros [p (r & Hr & Hkr & Hkey)%Exists_exists].
    exists (m, p). split; [done|]. apply Hkeys. eauto.
Qed.

Lemma pivot_sorted (summary : list (cell * cell * cell)) :
  Forall (λ m, ∃ t, to_datetime_bY m = Ok t) (summary.*1.*1) →
  ∃ piv, pivot summary = Ok piv ∧ StronglySorted chronological (piv.*1) ∧
         piv.*1 ≡ₚ unique (summary.*1.*1).
Proof.
  intros Hparse. unfold pivot.
  destruct (sorted_by_total Z.le to_datetime_bY
              (stable_sort label_le (unique (summary.*1.*1)))) as [sorted Hs].
  { rewrite stable_sort_Permutation. apply Forall_forall.
    intros m Hm. rewrite elem_of_unique in Hm.
    rewrite Forall_forall in Hparse. by apply Hparse. }
  rewrite Hs. unfold mbind, result_bind. eexists. split; [done|].
  rewrite <- list_fmap_compose.
  assert (Hid : ∀ l : list cell,
            fst ∘ (λ m : cell,
                     (m, (λ r : cell * cell * cell, (r.1.2, r.2))
                           <$> filter (λ r, r.1.1 = m) summary)) <$> l = l).
  { intros l. rewrite <- (list_fmap_id l) at 2. by apply list_fmap_ext. }
  rewrite Hid.
  apply sorted_by_inv in Hs as [Hperm Hsorted]; [|apply _..].
  split; [done|]. by rewrite Hperm, stable_sort_Permutation.
Qed.

Lemma summary_order_spec (a b : cell * cell * cell) :
  summary_order a b ↔
  ∃ ta tb, to_datetime_bY a.1.1 = Ok ta ∧ to_datetime_bY b.1.1 = Ok tb ∧
           (ta < tb ∨ (ta = tb ∧ code_le (code priority_order a.1.2)
                                         (code priority_order b.1.2))).
Proof.
  unfold summary_order, by_key, summary_key, summary_key_le. split.
  - intros (ka & kb & (ta & Ha & [= <-])%bind_Ok & (tb & Hb & [= <-])%bind_Ok & Hle).
    exists ta, tb. done.
  - intros (ta & tb & Ha & Hb & Hle). rewrite Ha, Hb.
    eexists _, _. split; [done|]. split; [done|]. done.
Qed.



(** ** The tables the script aggregates *)

(** What the filter hands to the aggregator: whenever the selections hold no
    missing value and at least one record passes, and the restoration years
    print with four digits, both metrics can be summarised. *)
Lemma filtered_summary_input repr pd raw df selected_months selected_priorities f :
  prepare repr pd raw = Ok df →
  filtered_df df selected_months selected_priorities = Ok f →
  NaN ∉ selected_months → NaN ∉ selected_priorities → rows f ≠ [] →
  Forall (λ r, four_digit_year (cell_of r "Service Restored Date")) (rows df) →
  summary_input f "Final MTD" ∧ summary_input f "Final MTR".
Proof.
  intros Hprep Hf Hsm Hsp Hne Hyears.
  apply prepare_rows in Hprep as (Hm & Hp & Hd & Hr & Hrows).
  destruct (filtered_df_rows df selected_months selected_priorities Hm Hp)
    as (f' & Hf' & Hcols & Hfrows).
  rewrite Hf in Hf'. injection Hf' as <-.
  assert (Hsub : ∀ r, r ∈ rows f → r ∈ rows df ∧
            cell_of r "Month-Year" ∈ selected_months ∧
            cell_of r "Priority" ∈ selected_priorities).
  { intros r. rewrite Hfrows, list_elem_of_filter. tauto. }
  assert (Hcol : ∀ c, has_column df c → has_column f c).
  { intros c [Hc Hall]. split; [by rewrite Hcols|].
    apply Forall_forall. intros r [Hr' _]%Hsub.
    rewrite Forall_forall in Hall. by apply Hall. }
  assert (Hlab : Forall (λ r, valid_label (cell_of r "Month-Year")) (rows f)).
  { apply Forall_forall. intros r [Hr' _]%Hsub.
    rewrite Forall_forall in Hrows, Hyears.
    destruct (Hrows r Hr') as ((_ & Hmy & _) & _).
    unfold cell_of at 1. rewrite Hmy. simpl. by apply bucket_valid, Hyears. }
  assert (Hkeyed : Exists keyed (rows f)).
  { destruct (rows f) as [|r l] eqn:Hl; [done|].
    destruct (Hsub r (list_elem_of_here _ _)) as (_ & Hrm & Hrp).
    apply Exists_cons_hd. split; simpl; intros Heq; rewrite Heq in *; done. }
  split; (split; [by apply Hcol..| done | | done]).
  - apply Forall_forall. intros r [Hr' _]%Hsub.
    rewrite Forall_forall in Hrows.
    destruct (Hrows r Hr') as (_ & (v & Hv & Hlook) & _).
    unfold cell_of. rewrite Hlook. simpl. by eapply calc_mtd_number.
  - apply Forall_forall. intros r [Hr' _]%Hsub.
    rewrite Forall_forall in Hrows.
    destruct (Hrows r Hr') as (_ & _ & (w & Hw & Hlook)).
    unfold cell_of. rewrite Hlook. simpl. by eapply calc_mtr_number.
Qed.



(** The table lists its December tickets before its January tickets; every
    ordering puts January first, and within December P1 comes before P2. *)
Example two_months_orderings :
  (λ r, cell_of r "Month-Year") <$> rows two_months_filtered
    = [Str "Dec-2025"; Str "Dec-2025"; Str "Jan-2025"; Str "Jan-2025"] ∧
  months two_months_df = Ok [Str "Jan-2025"; Str "Dec-2025"] ∧
  (λ s : list (cell * cell * cell), s.*1)
    <$> generate_avg_summary two_months_filtered "Final MTR"
    = Ok [(Str "Jan-2025", Str "P1"); (Str "Dec-2025", Str "P1");
          (Str "Dec-2025", Str "P2")] ∧
  (s ← generate_avg_summary two_months_filtered "Final MTR";
   p ← pivot s; Ok (p.*1))
    = Ok [Str "Jan-2025"; Str "Dec-2025"].
Proof. repeat split; vm_compute; reflexivity. Qed.

(** With a selection that no record passes the export, and with it the
    render pass, raises: the summary frame has no columns to index. *)
Example render_empty_selection :
  filtered_df with_open_df [] [Str "P1"] = Ok (mkDF (columns with_open_df) []) ∧
  full_summary (mkDF (columns with_open_df) []) "Final MTD" "MTTD"
    = Raise (KeyError "Month-Year") ∧
  render no_repr no_parse with_open [] [Str "P1"] = Raise (KeyError "Month-Year").
Proof. repeat split; vm_compute; reflexivity. Qed.

(** ** Lists *)

Lemma zip_with_fmap_diag {A B C} (f : A → B → C) (g : A → B) (l : list A) :
  zip_with f l (g <$> l) = (λ x, f x (g x)) <$> l.
Proof. induction l; csimpl; by f_equal. Qed.

Lemma filter_ext_in {A} (P Q : A → Prop) `{∀ x, Decision (P x)}
    `{∀ x, Decision (Q x)} (l : list A) :
  (∀ x, x ∈ l → P x ↔ Q x) → filter P l = filter Q l.
Proof.
  induction l as [|x l IH]; intros Hl; [done|].
  rewrite !filter_cons, IH by (intros y Hy; apply Hl; by right).
  destruct (Hl x) as [H1 H2]; [left|].
  destruct (decide (P x)), (decide (Q x)); naive_solver.
Qed.

Lemma filter_nil_in {A} (P : A → Prop) `{∀ x, Decision (P x)} (l : list A) :
  (∀ x, x ∈ l → ¬ P x) → filter P l = [].
Proof.
  intros Hl. rewrite (filter_ext_in P (λ _, False)); [apply filter_none; by intros ? []|].
  intros x Hx. split; [by apply Hl|done].
Qed.

Lemma fmap_ext_in {A B} (f g : A → B) (l : list A) :
  (∀ x, x ∈ l → f x = g x) → f <$> l = g <$> l.
Proof.
  intros H. apply list_fmap_ext. intros i x Hx. apply H.
  by eapply list_elem_of_lookup_2.
Qed.

Lemma Forall2_conj {A B} (P Q : A → B → Prop) l k :
  Forall2 P l k → Forall2 Q l k → Forall2 (λ x y, P x y ∧ Q x y) l k.
Proof. induction 1; inversion 1; subst; constructor; auto. Qed.

Lemma app_split_after {A} (l1 l2 before after : list A) c :
  l1 ++ l2 = before ++ c :: after → c ∉ l1 →
  ∃ rest, before = l1 ++ rest ∧ l2 = rest ++ c :: after.
Proof.
  revert before. induction l1 as [|x l1 IH]; intros before Heq Hc; simpl in *.
  - by exists before.
  - apply not_elem_of_cons in Hc as [Hne Hc].
    destruct before as [|b before]; simplify_eq/=.
    destruct (IH before) as (rest & -> & ->); [done..|]. by exists rest.
Qed.

Lemma app_split_within {A} (l1 l2 before after : list A) c :
  l1 ++ l2 = before ++ c :: after → c ∈ l1 → c ∉ before →
  ∃ after', l1 = before ++ c :: after'.
Proof.
  revert l1. induction before as [|b before IH]; intros l1 Heq Hc Hb; simpl in *.
  - destruct l1 as [|x l1]; [by apply elem_of_nil in Hc|].
    simplify_eq/=. by eexists.
  - apply not_elem_of_cons in Hb as [Hne Hb].
    destruct l1 as [|x l1]; [by apply elem_of_nil in Hc|].
    simplify_eq/=. apply elem_of_cons in Hc as [|Hc]; [done|].
    destruct (IH l1) as [after' ->]; [done..|]. by eexists.
Qed.

(** ** The preparation as a whole (lines 16-48) *)

Lemma setcol_fmap df c (f : gmap string cell → cell) :
  setcol df c (f <$> rows df)
  = mkDF (with_column (columns df) c) ((λ r, <[c := f r]> r) <$> rows df).
Proof. unfold setcol, with_column. by rewrite zip_with_fmap_diag. Qed.

Lemma has_column_setcol df c c' (f : gmap string cell → cell) :
  has_column df c' → has_column (setcol df c (f <$> rows df)) c'.
Proof.
  intros [Hc Hr]. rewrite setcol_fmap. split; simpl.
  - unfold with_column. case_bool_decide; [done|]. apply elem_of_app. by left.
  - apply Forall_fmap. eapply Forall_impl; [done|]. intros r [v Hv]. simpl.
    destruct (decide (c = c')) as [->|]; [by rewrite lookup_insert_eq|].
    by rewrite lookup_insert_ne, Hv.
Qed.

Lemma has_column_setcol_eq df c (f : gmap string cell → cell) :
  has_column (setcol df c (f <$> rows df)) c.
Proof.
  rewrite setcol_fmap. split; simpl.
  - unfold with_column. case_bool_decide; [done|].
    apply elem_of_app. right. by left.
  - apply Forall_fmap, Forall_forall. intros r _. simpl.
    by rewrite lookup_insert_eq.
Qed.

Lemma elem_of_with_column cols c c' :
  c' ∈ with_column cols c ↔ c' ∈ cols ∨ c' = c.
Proof.
  unfold with_column. case_bool_decide; [naive_solver|].
  rewrite elem_of_app, list_elem_of_singleton. naive_solver.
Qed.

Lemma elem_of_with_column_l cols c c' :
  c' ∈ cols → c' ∈ with_column cols c.
Proof. intros H. apply elem_of_with_column. by left. Qed.

(** A column of date cells of a workbook is of one datetime type. *)
Lemma datetime_column_of_datetime col :
  Forall datetime col → datetime_column col.
Proof.
  intros H. split.
  - eapply Forall_impl; [exact H|]. intros [] ?; try done; [by left|].
    right. by eexists.
  - assert (Hs : Forall (λ a, reso a = res_us ∧ zone a = None)
                        (omap stamp_of col)).
    { induction H as [|c l Hc _ IH]; [constructor|].
      destruct c; try done; csimpl; by constructor. }
    apply Forall_forall. intros a Ha. apply Forall_forall. intros b Hb.
    rewrite Forall_forall in Hs.
    destruct (Hs a Ha) as [Ha1 Ha2], (Hs b Hb) as [Hb1 Hb2].
    split; congruence.
Qed.

Lemma setcol_id df c vals :
  c ∈ columns df → Forall2 (λ r v, r !! c = Some v) (rows df) vals →
  setcol df c vals = df.
Proof.
  intros Hc Hvals. destruct df as [cols rs]. unfold setcol. simpl in *.
  rewrite bool_decide_eq_true_2 by done. f_equal.
  induction Hvals as [|r v rs vals Hr _ IH]; simpl; [done|].
  by rewrite insert_id, IH.
Qed.

Lemma setcol_id_fmap df c (f : gmap string cell → cell) :
  c ∈ columns df → Forall (λ r, r !! c = Some (f r)) (rows df) →
  setcol df c (f <$> rows df) = df.
Proof.
  intros Hc Hr. apply setcol_id; [done|].
  by apply Forall2_fmap_r, Forall_Forall2_diag.
Qed.

Lemma setcol_column_of df c :
  has_column df c → setcol df c (column_of df c) = df.
Proof.
  intros [Hc Hr]. apply setcol_id_fmap; [done|].
  eapply Forall_impl; [exact Hr|]. intros r [v Hv]. unfold cell_of.
  by rewrite Hv.
Qed.

Lemma getcol_Ok_column df c :
  has_column df c → getcol df c = Ok (column_of df c).
Proof. apply getcol_Ok. Qed.

(** On date columns that are of a datetime type already, the coercion loop
    changes nothing. *)
Lemma convert_dates_id pd cols df :
  (∀ c, c ∈ cols → has_column df c) →
  (∀ c, c ∈ cols → datetime_column (column_of df c)) →
  convert_dates pd cols df = Ok df.
Proof.
  induction cols as [|col cols IH]; intros Hcols Hdt; simpl; [done|].
  rewrite (getcol_Ok_column df col) by (apply Hcols; left).
  unfold mbind at 1, result_bind at 1. cbv beta iota.
  rewrite to_datetime_coerce_id by (apply Hdt; left).
  unfold mbind at 1, result_bind at 1. cbv beta iota.
  rewrite setcol_column_of by (apply Hcols; left).
  apply IH; intros c Hc; [apply Hcols|apply Hdt]; by right.
Qed.

Lemma convert_dates_columns pd cols df df' :
  convert_dates pd cols df = Ok df' → ∀ c, c ∈ cols → c ∈ columns df.
Proof.
  revert df. induction cols as [|col cols IH]; intros df; simpl.
  - intros _ c ?%elem_of_nil. done.
  - intros (vals & Hget & (coerced & _ & Hrec)%bind_Ok)%bind_Ok c Hc.
    apply getcol_Ok_inv in Hget as [Hin _].
    apply elem_of_cons in Hc as [->|Hc]; [done|].
    specialize (IH _ Hrec c Hc). apply setcol_columns_elem in IH as [ | -> ]; done.
Qed.

Lemma load_columns pd raw df :
  load pd raw = Ok df →
  columns df = with_column (columns raw) "Month-Year" ∧
  ∀ c, c ∈ date_cols ++ ["Priority"] → c ∈ columns raw.
Proof.
  unfold load.
  intros (df1 & Hconv & (restored & Hres & (my & Hmy &
            (prio & Hprio & [= <-])%bind_Ok)%bind_Ok)%bind_Ok)%bind_Ok.
  pose proof (convert_dates_columns _ _ _ _ Hconv) as Hdates.
  apply convert_dates_rows in Hconv as (Hcols1 & _); [|apply NoDup_date_cols].
  apply getcol_Ok_inv in Hprio as [Hpin _].
  rewrite setcol_columns_elem, Hcols1 in Hpin.
  destruct Hpin as [Hpin|]; [|done].
  split.
  - rewrite (setcol_columns (setcol _ _ _)).
    rewrite bool_decide_eq_true_2
      by (rewrite setcol_columns_elem, Hcols1; by left).
    by rewrite setcol_columns, Hcols1.
  - intros c [Hc| ->%list_elem_of_singleton]%elem_of_app; [by apply Hdates|done].
Qed.

Lemma add_metrics_column_list repr df df' :
  add_metrics repr df = Ok df' →
  columns df' = with_column (with_column (columns df) "Final MTD") "Final MTR".
Proof.
  unfold add_metrics.
  by intros (mtd & _ & (mtr & _ & [= <-])%bind_Ok)%bind_Ok.
Qed.

Lemma dt_strftime_timestamp c : timestamp c → dt_strftime c = Ok (bucket c).
Proof. intros [->|[st Hst]]; [done|]. by destruct c. Qed.

(** After the coercion loop has run, lines 21 and 32 need the restoration
    cells to be timestamps (or missing) and a priority column. *)
Lemma load_after_dates pd raw :
  convert_dates pd date_cols raw = Ok raw →
  has_column raw "Service Restored Date" → has_column raw "Priority" →
  Forall timestamp (column_of raw "Service Restored Date") →
  ∃ df, load pd raw = Ok df.
Proof.
  intros Hconv Hres Hprio Hts. unfold load. rewrite Hconv.
  unfold mbind at 1, result_bind at 1. cbv beta iota.
  rewrite (getcol_Ok _ _ Hres).
  unfold mbind at 1, result_bind at 1. cbv beta iota.
  rewrite (mapM_Ok_total dt_strftime bucket).
  2:{ eapply Forall_impl; [exact Hts|]. apply dt_strftime_timestamp. }
  unfold mbind at 1, result_bind at 1. cbv beta iota zeta.
  rewrite <- list_fmap_compose.
  rewrite (getcol_Ok _ "Priority") by by apply has_column_setcol.
  by eexists.
Qed.

Lemma datetime_timestamp c : datetime c → timestamp c.
Proof. destruct c; try done; intros _; [by left|right; by eexists]. Qed.

Lemma load_total pd raw :
  (∀ c, c ∈ date_cols ++ ["Priority"] → has_column raw c) →
  (∀ c, c ∈ date_cols → Forall datetime (column_of raw c)) →
  ∃ df, load pd raw = Ok df.
Proof.
  intros Hcols Hdt. apply load_after_dates.
  - apply convert_dates_id.
    + intros c Hc. apply Hcols, elem_of_app. by left.
    + intros c Hc. by apply datetime_column_of_datetime, Hdt.
  - apply Hcols. compute_done.
  - apply Hcols. compute_done.
  - eapply Forall_impl; [apply Hdt; compute_done|]. apply datetime_timestamp.
Qed.

(** The date columns after the loader are what the coercion makes of the
    upload's. *)
Lemma load_dates pd raw df :
  load pd raw = Ok df →
  ∀ c, c ∈ date_cols →
    to_datetime_coerce pd (column_of raw c) = Ok (column_of df c).
Proof.
  unfold load.
  intros (df1 & Hconv & (restored & Hres & (my & Hmy &
            (prio & Hprio & [= <-])%bind_Ok)%bind_Ok)%bind_Ok)%bind_Ok c Hc.
  apply convert_dates_rows in Hconv as (_ & _ & Hdates);
    [|apply NoDup_date_cols].
  rewrite (Hdates c Hc). f_equal. symmetry.
  apply getcol_Ok_inv in Hres as [_ Hres]. apply mapM_Ok in Hmy.
  apply getcol_Ok_inv in Hprio as [_ Hprio].
  apply Forall2_length in Hres, Hmy, Hprio.
  rewrite column_of_setcol_ne.
  - rewrite column_of_setcol_ne; [done|congruence|].
    intros <-. revert Hc. compute_done.
  - by rewrite length_fmap.
  - intros <-. revert Hc. compute_done.
Qed.

Lemma add_metrics_column_of repr df df' c :
  add_metrics repr df = Ok df' → c ≠ "Final MTD" → c ≠ "Final MTR" →
  column_of df' c = column_of df c.
Proof.
  intros Hadd ??. apply column_of_Forall2.
  eapply Forall2_impl; [by eapply add_metrics_rows|].
  intros r r' (v & w & _ & _ & ->). by rewrite !lookup_insert_ne.
Qed.

Lemma prepare_dates repr pd raw df :
  prepare repr pd raw = Ok df →
  ∀ c, c ∈ date_cols →
    to_datetime_coerce pd (column_of raw c) = Ok (column_of df c).
Proof.
  unfold prepare. intros (df1 & Hload & Hadd)%bind_Ok c Hc.
  rewrite (add_metrics_column_of _ _ _ c Hadd).
  - by eapply load_dates.
  - intros ->. revert Hc. compute_done.
  - intros ->. revert Hc. compute_done.
Qed.

(** A row of date cells of a workbook is one the calculators can work on. *)
Lemma calc_ready_of_columns (r : gmap string cell) :
  is_Some (r !! "Case Origin") →
  (∀ c, c ∈ date_cols → col_is datetime r c) → calc_ready r.
Proof.
  intros [o Ho] Hd. split; [by apply col_is_lookup; eauto|].
  repeat split; apply Hd; compute_done.
Qed.

Lemma Forall_column_of P df c :
  has_column df c →
  Forall P (column_of df c) ↔ Forall (λ r, col_is P r c) (rows df).
Proof.
  intros [_ Hr]. unfold column_of. rewrite Forall_fmap.
  rewrite !Forall_forall. rewrite Forall_forall in Hr.
  split; intros H r Hin; specialize (H r Hin); destruct (Hr r Hin) as [v Hv];
    unfold col_is, cell_of in *; simpl in *; by rewrite Hv in *.
Qed.

(** X1.  On a table that has the four date columns, "Priority" and
    "Case Origin", and whose date columns hold date cells of a workbook
    (timestamps without time zone, or missing values), the loader and the two
    calculators run through without raising, whatever the other cells hold.
    The result has as many records as the upload; its columns are those of
    the upload followed by whichever of "Month-Year", "Final MTD" and
    "Final MTR" the upload lacked; the date columns are unchanged; and in
    every record the bucket is the label of the restoration cell, the
    priority is one of the five categories or missing, and the two metric
    cells are what the calculators return on that very record. *)
Theorem prepare_succeeds repr pd raw :
  (∀ c, c ∈ required_columns → has_column raw c) →
  (∀ c, c ∈ date_cols → Forall datetime (column_of raw c)) →
  ∃ df, prepare repr pd raw = Ok df ∧
        length (rows df) = length (rows raw) ∧
        columns df = with_column (with_column (with_column (columns raw)
                       "Month-Year") "Final MTD") "Final MTR" ∧
        (∀ c, c ∈ date_cols → column_of df c = column_of raw c) ∧
        Forall (prepared_row repr) (rows df).
Proof.
  intros Hcols Hdt.
  assert (Hdates : ∀ c, c ∈ date_cols → has_column raw c).
  { intros c Hc. apply Hcols, elem_of_app. by left. }
  destruct (load_total pd raw) as [df1 Hload]; [|done|].
  { intros c [Hc| ->%list_elem_of_singleton]%elem_of_app; apply Hcols;
      apply elem_of_app; [by left|right; by left]. }
  pose proof (load_columns _ _ _ Hload) as [Hcols1 _].
  pose proof (load_rows _ _ _ Hload) as (_ & _ & Hrows1).
  pose proof (load_dates _ _ _ Hload) as Hdates1.
  assert (Hsame : ∀ c, c ∈ date_cols → column_of df1 c = column_of raw c).
  { intros c Hc. specialize (Hdates1 c Hc).
    rewrite to_datetime_coerce_id in Hdates1
      by by apply datetime_column_of_datetime, Hdt.
    by injection Hdates1. }
  assert (Hcol1 : ∀ c, c ∈ date_cols → has_column df1 c).
  { intros c Hc. split.
    - rewrite Hcols1. apply elem_of_with_column_l. by apply Hdates.
    - eapply Forall2_range; [exact Hrows1|]. intros r r' [_ (Hd & _)].
      specialize (Hd c Hc). by apply col_is_lookup in Hd as (v & -> & _). }
  destruct (add_metrics_total repr df1) as [df Hadd].
  { destruct (Hcols "Case Origin") as [_ Horigin]; [compute_done|].
    assert (Hd1 : Forall (λ r, ∀ c, c ∈ date_cols → col_is datetime r c)
                         (rows df1)).
    { apply Forall_forall. intros r Hr c Hc.
      assert (Hall : Forall (λ r, col_is datetime r c) (rows df1)).
      { apply Forall_column_of; [by apply Hcol1|]. rewrite Hsame by done.
        by apply Hdt. }
      rewrite Forall_forall in Hall. by apply Hall. }
    assert (Ho1 : Forall (λ r, is_Some (r !! "Case Origin")) (rows df1)).
    { eapply Forall2_transfer; [exact Horigin|exact Hrows1|].
      intros r r' Ho [Hframe _]. rewrite Hframe; [done|compute_done|done|done]. }
    apply Forall_forall. intros r Hr. rewrite Forall_forall in Hd1, Ho1.
    apply calc_ready_of_columns; auto. }
  assert (Hprep : prepare repr pd raw = Ok df).
  { unfold prepare. by rewrite Hload. }
  exists df. split; [done|]. split; [|split; [|split]].
  - apply Forall2_length in Hrows1.
    apply add_metrics_rows, Forall2_length in Hadd. congruence.
  - by rewrite (add_metrics_column_list _ _ _ Hadd), Hcols1.
  - intros c Hc. rewrite (add_metrics_column_of _ _ _ c Hadd); [by apply Hsame|..];
      intros ->; revert Hc; compute_done.
  - by apply prepare_rows in Hprep as (_ & _ & _ & _ & ?).
Qed.

Lemma prepare_succeeds_witness :
  ∃ df, prepare no_repr no_parse with_open = Ok df ∧
        length (rows df) = length (rows with_open) ∧
        columns df = with_column (with_column (with_column (columns with_open)
                       "Month-Year") "Final MTD") "Final MTR" ∧
        (∀ c, c ∈ date_cols → column_of df c = column_of with_open c) ∧
        Forall (prepared_row no_repr) (rows df).
Proof.
  apply (prepare_succeeds no_repr no_parse with_open).
  - apply Forall_forall. compute_done.
  - apply Forall_forall. compute_done.
Defined.

Lemma getcol_missing df c : c ∉ columns df → getcol df c = Raise (KeyError c).
Proof. intros Hc. unfold getcol. by rewrite bool_decide_eq_false_2. Qed.

Lemma convert_dates_missing pd before c after df :
  (∀ c', c' ∈ before → has_column df c') →
  (∀ c', c' ∈ before → datetime_column (column_of df c')) →
  c ∉ columns df →
  convert_dates pd (before ++ c :: after) df = Raise (KeyError c).
Proof.
  induction before as [|b before IH]; intros Hbefore Hdt Hc; simpl.
  - by rewrite getcol_missing.
  - rewrite (getcol_Ok_column df b) by (apply Hbefore; left).
    unfold mbind at 1, result_bind at 1. cbv beta iota.
    rewrite to_datetime_coerce_id by (apply Hdt; left).
    unfold mbind at 1, result_bind at 1. cbv beta iota.
    rewrite setcol_column_of by (apply Hbefore; left).
    apply IH; [intros c' Hc'..|done]; [apply Hbefore|apply Hdt]; by right.
Qed.

(** X2.  When a column the preparation reads is missing, and the date
    columns read before it hold date cells of a workbook, it raises
    [KeyError] naming the first missing column in the order in which the
    script reads them: the four date columns (line 18), "Priority" (line 32),
    "Case Origin" (line 36).  For the origin, which is only read inside
    [calc_mtd], the table must hold at least one record. *)
Theorem prepare_missing_column repr pd raw before c after :
  required_columns = before ++ c :: after →
  (∀ c', c' ∈ before → has_column raw c') →
  (∀ c', c' ∈ before → c' ∈ date_cols → Forall datetime (column_of raw c')) →
  c ∉ columns raw → Forall (λ r, r !! c = None) (rows raw) →
  (c = "Case Origin" → rows raw ≠ []) →
  prepare repr pd raw = Raise (KeyError c).
Proof.
  intros Heq Hbefore Hdt Hc Hrows Hne.
  assert (Hcb : c ∉ before).
  { intros Hin. by destruct (Hbefore c Hin). }
  destruct (decide (c ∈ date_cols)) as [Hdate|Hdate].
  { (* a date column: the coercion loop raises *)
    destruct (app_split_within _ _ _ _ _ Heq Hdate Hcb) as [after' Hsplit].
    unfold prepare, load. rewrite Hsplit.
    rewrite convert_dates_missing; [done|done| |done].
    intros c' Hc'. apply datetime_column_of_datetime, Hdt; [done|].
    rewrite Hsplit. apply elem_of_app. by left. }
  destruct (app_split_after _ _ _ _ _ Heq Hdate) as (rest & -> & Hrest).
  assert (Hdates : ∀ c', c' ∈ date_cols → has_column raw c').
  { intros c' Hc'. apply Hbefore, elem_of_app. by left. }
  assert (Hdt' : ∀ c', c' ∈ date_cols → Forall datetime (column_of raw c')).
  { intros c' Hc'. apply Hdt; [|done]. apply elem_of_app. by left. }
  assert (Hconv : convert_dates pd date_cols raw = Ok raw).
  { apply convert_dates_id; [done|]. intros c' Hc'.
    by apply datetime_column_of_datetime, Hdt'. }
  destruct (decide (c = "Priority")) as [->|Hprio].
  { (* the priority column: line 32 raises *)
    unfold prepare, load. rewrite Hconv.
    unfold mbind at 1 2, result_bind at 1 2. cbv beta iota.
    rewrite (getcol_Ok raw "Service Restored Date")
      by (apply Hdates; compute_done).
    unfold mbind at 1, result_bind at 1. cbv beta iota.
    rewrite (mapM_Ok_total dt_strftime bucket).
    2:{ eapply Forall_impl; [apply (Hdt' "Service Restored Date"); compute_done|].
        intros v Hv. by apply dt_strftime_timestamp, datetime_timestamp. }
    unfold mbind at 1, result_bind at 1. cbv beta iota zeta.
    rewrite getcol_missing; [done|].
    rewrite setcol_columns_elem. by intros [|]. }
  (* the origin: the first record raises in [calc_mtd] *)
  assert (c = "Case Origin" ∧ has_column raw "Priority") as [-> Hp].
  { destruct rest as [|p rest]; simplify_eq/=.
    destruct rest as [|? rest]; simplify_eq/=; [|by destruct rest].
    split; [done|]. apply Hbefore. compute_done. }
  destruct (load_total pd raw) as [df2 Hload]; [|done|].
  { intros c' [Hc'| ->%list_elem_of_singleton]%elem_of_app; auto. }
  unfold prepare. rewrite Hload.
  unfold mbind at 1, result_bind at 1. cbv beta iota.
  apply load_rows in Hload as (_ & _ & Hrows2).
  destruct (rows raw) as [|r l] eqn:Hraw; [by destruct Hne|].
  destruct (rows df2) as [|r' l'] eqn:Hdf2; [by inversion Hrows2|].
  apply Forall2_cons in Hrows2 as [[Hsame _] _].
  apply Forall_cons in Hrows as [Hr _].
  assert (Hfail : calc_mtd repr r' = Raise (KeyError "Case Origin")).
  { unfold calc_mtd, getitem. rewrite (Hsame "Case Origin"); [|done..].
    by rewrite Hr. }
  unfold add_metrics, apply_rows. rewrite Hdf2. simpl. by rewrite Hfail.
Qed.

Lemma prepare_missing_column_witness :
  prepare no_repr no_parse no_priority = Raise (KeyError "Priority").
Proof.
  apply (prepare_missing_column no_repr no_parse no_priority
           date_cols "Priority" ["Case Origin"]).
  - reflexivity.
  - apply Forall_forall. compute_done.
  - intros c' Hc' _. revert c' Hc'. apply Forall_forall. compute_done.
  - compute_done.
  - compute_done.
  - intros [=].
Defined.

Lemma load_id pd df :
  (∀ c, c ∈ date_cols → c ∈ columns df) →
  (∀ c, c ∈ date_cols → datetime_column (column_of df c)) →
  "Month-Year" ∈ columns df → "Priority" ∈ columns df →
  Forall loaded_row (rows df) →
  load pd df = Ok df.
Proof.
  intros Hdates Hdt Hm Hp Hrows. unfold load.
  assert (Hcol : ∀ c, c ∈ date_cols → has_column df c).
  { intros c Hc. split; [by apply Hdates|].
    eapply Forall_impl; [done|]. intros r (Hd & _).
    specialize (Hd c Hc). by apply col_is_lookup in Hd as (v & -> & _). }
  rewrite convert_dates_id by done.
  unfold mbind at 1, result_bind at 1. cbv beta iota.
  rewrite (getcol_Ok df "Service Restored Date") by (apply Hcol; compute_done).
  unfold mbind at 1, result_bind at 1. cbv beta iota.
  rewrite (mapM_Ok_total dt_strftime bucket).
  2:{ pose proof (datetime_column_timestamp _
                    (Hdt "Service Restored Date" ltac:(compute_done))) as Hts.
      eapply Forall_impl; [exact Hts|]. apply dt_strftime_timestamp. }
  unfold mbind at 1, result_bind at 1. cbv beta iota zeta.
  rewrite <- list_fmap_compose.
  rewrite setcol_id_fmap; [|done|].
  2:{ eapply Forall_impl; [done|]. by intros r (_ & -> & _). }
  rewrite (getcol_Ok df "Priority").
  2:{ split; [done|]. eapply Forall_impl; [done|]. intros r (_ & _ & Hx).
      apply col_is_lookup in Hx as (v & -> & _). eauto. }
  unfold mbind at 1, result_bind at 1. cbv beta iota.
  rewrite <- list_fmap_compose.
  rewrite setcol_id_fmap; [done|done|].
  eapply Forall_impl; [done|]. intros r (_ & _ & Hx). simpl.
  apply col_is_lookup in Hx as (v & Hv & Heq). unfold cell_of.
  rewrite Hv. simpl. congruence.
Qed.

Lemma add_metrics_id repr df :
  "Final MTD" ∈ columns df → "Final MTR" ∈ columns df →
  Forall (prepared_row repr) (rows df) →
  add_metrics repr df = Ok df.
Proof.
  intros Hd Hr Hrows. unfold add_metrics, apply_rows.
  rewrite (mapM_Ok_total _ (λ r, cell_of r "Final MTD")).
  2:{ eapply Forall_impl; [done|]. intros r (_ & (v & Hv & Hl) & _).
      unfold cell_of. by rewrite Hl. }
  unfold mbind at 1, result_bind at 1. cbv beta iota zeta.
  rewrite setcol_id_fmap; [|done|].
  2:{ eapply Forall_impl; [done|]. intros r (_ & (v & Hv & Hl) & _).
      unfold cell_of. by rewrite Hl. }
  rewrite (mapM_Ok_total _ (λ r, cell_of r "Final MTR")).
  2:{ eapply Forall_impl; [done|]. intros r (_ & _ & (v & Hv & Hl)).
      unfold cell_of. by rewrite Hl. }
  unfold mbind at 1, result_bind at 1. cbv beta iota zeta.
  rewrite setcol_id_fmap; [done|done|].
  eapply Forall_impl; [done|]. intros r (_ & _ & (v & Hv & Hl)).
  unfold cell_of. by rewrite Hl.
Qed.

(** X3.  The preparation is idempotent: run on its own result it returns
    that result unchanged, columns and cells alike.  The date columns are of
    a datetime type and are coerced to themselves, the bucket and the
    priority category are recomputed to the same values, and the metric
    columns are overwritten with the values they already hold. *)
Theorem prepare_idempotent repr pd raw df :
  prepare repr pd raw = Ok df → prepare repr pd df = Ok df.
Proof.
  intros Hprep.
  pose proof (prepare_rows _ _ _ _ Hprep) as ([Hm _] & [Hp _] & [Hd _] & [Hr _] & Hrows).
  pose proof (prepare_dates _ _ _ _ Hprep) as Hdt.
  unfold prepare in Hprep. apply bind_Ok in Hprep as (df1 & Hload & Hadd).
  pose proof (load_columns _ _ _ Hload) as [Hcols1 Hraw].
  pose proof (add_metrics_column_list _ _ _ Hadd) as Hcols.
  unfold prepare. rewrite load_id; [by apply add_metrics_id|..|done|done|].
  - intros c Hc. rewrite Hcols, Hcols1, !elem_of_with_column.
    do 3 left. apply Hraw, elem_of_app. by left.
  - intros c Hc. by apply Hdt, to_datetime_coerce_Ok in Hc as (_ & ? & _).
  - eapply Forall_impl; [done|]. by intros r [? _].
Qed.

Lemma prepare_idempotent_witness :
  prepare no_repr no_parse with_open_df = Ok with_open_df.
Proof.
  apply (prepare_idempotent no_repr no_parse with_open).
  vm_compute; reflexivity.
Defined.

Lemma load_priority pd raw df :
  load pd raw = Ok df →
  Forall2 (λ r r', ∃ p, r !! "Priority" = Some p ∧
                        r' !! "Priority" = Some (categorical priority_order p))
          (rows raw) (rows df).
Proof.
  unfold load.
  intros (df1 & Hconv & (restored & Hres & (my & Hmy &
            (prio & Hprio & [= <-])%bind_Ok)%bind_Ok)%bind_Ok)%bind_Ok.
  apply convert_dates_rows in Hconv as (_ & Hrows1 & _);
    [|apply NoDup_date_cols].
  apply getcol_Ok_inv in Hprio as [_ Hpv].
  assert (Hset : Forall2 (λ r v', ∃ v, r !! "Priority" = Some v ∧
                                       v' = categorical priority_order v)
                   (rows (setcol df1 "Month-Year" my))
                   (categorical priority_order <$> prio)).
  { apply Forall2_fmap_r. eapply Forall2_impl; [done|]. naive_solver. }
  apply (setcol_Forall2 _ "Priority") in Hset.
  assert (Hmid : Forall2 (λ r r', r' !! "Priority" = r !! "Priority")
                   (rows df1) (rows (setcol df1 "Month-Year" my))).
  { simpl. apply getcol_Ok_inv in Hres as [_ Hres].
    apply mapM_Ok in Hmy. apply Forall2_length in Hres, Hmy.
    assert (Hlen : length (rows df1) = length my) by congruence.
    clear -Hlen. revert my Hlen.
    induction (rows df1) as [|r l IH]; intros [|m my] ?; simplify_eq/=;
      constructor; [by rewrite lookup_insert_ne|auto]. }
  pose proof (Forall2_compose _ _ _ _ _ Hrows1
                (Forall2_compose _ _ _ _ _ Hmid Hset)) as Hall.
  eapply Forall2_impl; [exact Hall|]. clear.
  intros r r' (r1 & [Hsame _] & r2 & Hmid & (p' & (p & Hp & ->) & ->)).
  exists p. rewrite lookup_insert_eq. split; [|done].
  rewrite <- Hsame by compute_done. congruence.
Qed.

Lemma prepare_priority repr pd raw df :
  prepare repr pd raw = Ok df →
  Forall2 (λ r r', ∃ p, r !! "Priority" = Some p ∧
                        r' !! "Priority" = Some (categorical priority_order p))
          (rows raw) (rows df).
Proof.
  unfold prepare. intros (df1 & Hload%load_priority & Hadd%add_metrics_rows)%bind_Ok.
  pose proof (Forall2_compose _ _ _ _ _ Hload Hadd) as Hall.
  eapply Forall2_impl; [exact Hall|]. clear.
  intros r r' (r1 & (p & Hp & Hp') & (v & w & _ & _ & ->)).
  exists p. by rewrite !lookup_insert_ne.
Qed.

(** ** What the loader changes (lines 16-32) *)

(** X4.  What the loader does to a table.  Its columns are those of the
    upload, followed by "Month-Year" unless the upload had such a column.
    Each date column becomes what the coercion makes of it as a whole: a
    column of one datetime type, and the column itself when it already was
    one.  Record by record: the date cells are timestamps or missing;
    "Month-Year" is the label of the coerced restoration cell; "Priority"
    becomes its category; and every other cell is left as it was. *)
Theorem load_frame pd raw df :
  load pd raw = Ok df →
  columns df = with_column (columns raw) "Month-Year" ∧
  (∀ c, c ∈ date_cols →
     to_datetime_coerce pd (column_of raw c) = Ok (column_of df c) ∧
     datetime_column (column_of df c) ∧
     (datetime_column (column_of raw c) → column_of df c = column_of raw c)) ∧
  Forall2 (λ r r',
     (∀ c, c ∉ date_cols → c ≠ "Month-Year" → c ≠ "Priority" →
           r' !! c = r !! c) ∧
     (∀ c, c ∈ date_cols → col_is timestamp r' c) ∧
     r' !! "Month-Year" = Some (bucket (cell_of r' "Service Restored Date")) ∧
     ∃ p, r !! "Priority" = Some p ∧
          r' !! "Priority" = Some (categorical priority_order p))
    (rows raw) (rows df).
Proof.
  intros Hload. split; [by apply load_columns in Hload as [? _]|].
  split.
  { intros c Hc. pose proof (load_dates _ _ _ Hload c Hc) as Hco.
    split; [done|]. by apply to_datetime_coerce_Ok in Hco as (_ & ? & ?). }
  pose proof (load_rows _ _ _ Hload) as (_ & _ & Hrows).
  pose proof (load_priority _ _ _ Hload) as Hprio.
  pose proof (Forall2_conj _ _ _ _ Hrows Hprio) as Hall.
  eapply Forall2_impl; [exact Hall|]. clear.
  by intros r r' ([Hsame (Hdates & Hmy & _)] & Hprio).
Qed.

Lemma load_frame_witness :
  columns with_open_loaded = with_column (columns with_open) "Month-Year" ∧
  (∀ c, c ∈ date_cols →
     to_datetime_coerce no_parse (column_of with_open c)
       = Ok (column_of with_open_loaded c) ∧
     datetime_column (column_of with_open_loaded c) ∧
     (datetime_column (column_of with_open c) →
      column_of with_open_loaded c = column_of with_open c)) ∧
  Forall2 (λ r r',
     (∀ c, c ∉ date_cols → c ≠ "Month-Year" → c ≠ "Priority" →
           r' !! c = r !! c) ∧
     (∀ c, c ∈ date_cols → col_is timestamp r' c) ∧
     r' !! "Month-Year" = Some (bucket (cell_of r' "Service Restored Date")) ∧
     ∃ p, r !! "Priority" = Some p ∧
          r' !! "Priority" = Some (categorical priority_order p))
    (rows with_open) (rows with_open_loaded).
Proof.
  apply (load_frame no_parse with_open with_open_loaded).
  vm_compute; reflexivity.
Defined.

(** ** The filter options (lines 51-52) *)

Lemma elem_of_column (rs : list (gmap string cell)) c vals v :
  Forall2 (λ r v, r !! c = Some v) rs vals →
  v ∈ vals ↔ ∃ r, r ∈ rs ∧ r !! c = Some v.
Proof.
  induction 1 as [|r v' rs vals Hr _ IH].
  - split; [by intros ?%elem_of_nil|by intros (? & ?%elem_of_nil & _)].
  - rewrite elem_of_cons, IH. split.
    + intros [->|(r0 & Hr0 & Hv)]; [exists r; split; [left|done]|].
      exists r0. split; [by right|done].
    + intros (r0 & [->|Hr0]%elem_of_cons & Hv); [left; congruence|].
      right. eauto.
Qed.

Lemma months_elem df ms :
  months df = Ok ms →
  NoDup ms ∧
  ∀ m, m ∈ ms ↔ m ≠ NaN ∧ ∃ r, r ∈ rows df ∧ r !! "Month-Year" = Some m.
Proof.
  intros (my & Hmy & Hperm & _)%months_inv.
  apply getcol_Ok_inv in Hmy as [_ Hmy]. split.
  - rewrite Hperm. apply NoDup_unique.
  - intros m. rewrite Hperm, elem_of_unique. unfold dropna.
    rewrite list_elem_of_filter, (elem_of_column _ _ _ _ Hmy). done.
Qed.

Lemma is_category_Str p : is_category p ↔ ∃ s, p = Str s ∧ s ∈ priority_order.
Proof. unfold is_category. rewrite list_elem_of_fmap. naive_solver. Qed.

Lemma priorities_elem df ps :
  priorities df = Ok ps →
  ps `sublist_of` (Str <$> priority_order) ∧
  ∀ p, p ∈ ps ↔ is_category p ∧ ∃ r, r ∈ rows df ∧ r !! "Priority" = Some p.
Proof.
  unfold priorities. intros (prio & Hprio & [= <-])%bind_Ok.
  apply getcol_Ok_inv in Hprio as [_ Hprio]. split.
  - apply fmap_sublist, sublist_filter.
  - intros p. rewrite list_elem_of_fmap. setoid_rewrite list_elem_of_filter.
    setoid_rewrite elem_of_unique.
    setoid_rewrite (elem_of_column _ _ _ _ Hprio).
    rewrite is_category_Str. naive_solver.
Qed.

Lemma categorical_cases p :
  (is_category p ∧ categorical priority_order p = p) ∨
  (¬ is_category p ∧ categorical priority_order p = NaN).
Proof.
  rewrite is_category_Str. destruct p as [|s| | |]; simpl;
    try (right; split; [by intros (? & ? & _)|done]).
  case_bool_decide as Hs; [left|right]; naive_solver.
Qed.

(** X5.  The priority options (line 52) are those of P1..P5 that occur in
    the "Priority" column, each once and in the order P1..P5: the list is a
    sublist of the five categories, it never holds the missing value, and a
    cell is an option exactly when it is a category and the cell of some
    record. *)
Theorem priorities_spec df ps :
  priorities df = Ok ps →
  ps `sublist_of` (Str <$> priority_order) ∧ NoDup ps ∧ (NaN ∉ ps) ∧
  ∀ p, p ∈ ps ↔ is_category p ∧ ∃ r, r ∈ rows df ∧ r !! "Priority" = Some p.
Proof.
  intros [Hsub Hps]%priorities_elem.
  split; [done|]. split; [|split; [|done]].
  - eapply sublist_NoDup; [|done]. compute_done.
  - intros [Hc _]%Hps. revert Hc. compute_done.
Qed.

Lemma priorities_spec_witness :
  [Str "P1"; Str "P2"] `sublist_of` (Str <$> priority_order) ∧
  NoDup [Str "P1"; Str "P2"] ∧ (NaN ∉ [Str "P1"; Str "P2"]) ∧
  ∀ p, p ∈ [Str "P1"; Str "P2"] ↔
       is_category p ∧ ∃ r, r ∈ rows with_open_df ∧ r !! "Priority" = Some p.
Proof.
  apply (priorities_spec with_open_df). vm_compute; reflexivity.
Defined.

Lemma sorted_by_keys {K A} (le : relation K) `{!RelDecision le}
    (key : A → result K) l l' :
  sorted_by le key l = Ok l' → Forall (λ x, ∃ k, key x = Ok k) l.
Proof.
  unfold sorted_by. intros (ks & Hks%mapM_Ok & _)%bind_Ok.
  induction Hks as [|x kx l ks Hx _ IH]; constructor; [|done].
  apply bind_Ok in Hx as (k & Hk & _). eauto.
Qed.

(** X6.  The month options (line 51) are exactly the labels that occur in
    the "Month-Year" column, missing values left out, each listed once; and
    every option parses as a month, since the sort computes the key of each
    before it returns. *)
Theorem months_spec df ms :
  months df = Ok ms →
  NoDup ms ∧
  (∀ m, m ∈ ms ↔ m ≠ NaN ∧ ∃ r, r ∈ rows df ∧ r !! "Month-Year" = Some m) ∧
  Forall (λ m, ∃ t, to_datetime_bY m = Ok t) ms.
Proof.
  intros Hms. destruct (months_elem df ms Hms) as [Hnd Hel].
  split; [done|]. split; [done|].
  unfold months in Hms. apply bind_Ok in Hms as (my & _ & Hs).
  pose proof (sorted_by_keys _ _ _ _ Hs) as Hkeys.
  apply sorted_by_inv in Hs as [Hperm _]; [|apply _..].
  by rewrite Hperm.
Qed.

Lemma months_spec_witness :
  NoDup [Str "Jan-2025"; Str "Dec-2025"] ∧
  (∀ m, m ∈ [Str "Jan-2025"; Str "Dec-2025"] ↔
        m ≠ NaN ∧ ∃ r, r ∈ rows two_months_df ∧ r !! "Month-Year" = Some m) ∧
  Forall (λ m, ∃ t, to_datetime_bY m = Ok t) [Str "Jan-2025"; Str "Dec-2025"].
Proof.
  apply (months_spec two_months_df). vm_compute; reflexivity.
Defined.

(** ** Priorities outside the five categories (lines 32, 52, 60) *)

(** X7.  Record by record: a priority that is one of the five category
    names is kept by the preparation; any other priority (another spelling
    such as "p1", a number, a missing value) becomes missing (line 32), is
    not among the priority options, and for every selection drawn from these
    options the record is left out of the filtered table. *)
Theorem unknown_priority_excluded repr pd raw df ps
    selected_months selected_priorities f :
  prepare repr pd raw = Ok df → priorities df = Ok ps →
  selected_priorities ⊆ ps →
  filtered_df df selected_months selected_priorities = Ok f →
  Forall2 (λ r r', ∃ p, r !! "Priority" = Some p ∧
             (is_category p → r' !! "Priority" = Some p) ∧
             (¬ is_category p →
              r' !! "Priority" = Some NaN ∧ (p ∉ ps) ∧ r' ∉ rows f))
          (rows raw) (rows df).
Proof.
  intros Hprep [_ Hps]%priorities_elem Hsel Hf.
  pose proof (prepare_rows _ _ _ _ Hprep) as (Hm & Hp & _).
  destruct (filtered_df_rows df selected_months selected_priorities Hm Hp)
    as (f' & Hf' & _ & Hrows).
  rewrite Hf in Hf'. injection Hf' as <-.
  eapply Forall2_impl; [by eapply prepare_priority|].
  intros r r' (p & Hr & Hr'). exists p. split; [done|].
  destruct (categorical_cases p) as [[Hc Heq]|[Hc Heq]]; rewrite Heq in Hr'.
  - split; [done|]. by intros [].
  - split; [by intros ?|]. intros _. split; [done|]. split.
    + by intros [? _]%Hps.
    + rewrite Hrows, list_elem_of_filter. intros [[_ Hin] _].
      unfold cell_of in Hin. rewrite Hr' in Hin. simpl in Hin.
      apply Hsel, Hps in Hin as [Hcat _]. revert Hcat. compute_done.
Qed.

Lemma unknown_priority_excluded_witness :
  Forall2 (λ r r', ∃ p, r !! "Priority" = Some p ∧
             (is_category p → r' !! "Priority" = Some p) ∧
             (¬ is_category p →
              r' !! "Priority" = Some NaN ∧ (p ∉ [Str "P1"]) ∧
              r' ∉ rows mislabelled_filtered))
          (rows mislabelled) (rows mislabelled_df).
Proof.
  apply (unknown_priority_excluded no_repr no_parse mislabelled mislabelled_df
           [Str "P1"] [Str "Jan-2025"] [Str "P1"] mislabelled_filtered).
  - vm_compute; reflexivity.
  - vm_compute; reflexivity.
  - reflexivity.
  - vm_compute; reflexivity.
Defined.

(** ** The default selection (lines 56-60) *)

(** X8.  With the default selection (every month option and every priority
    option, lines 56-57) the filter keeps exactly the records that have both
    a month bucket and a priority, in their order: it drops the records
    without restoration timestamp and those whose priority is not one of the
    five categories, and no others. *)
Theorem default_selection repr pd raw df ms ps f :
  prepare repr pd raw = Ok df →
  months df = Ok ms → priorities df = Ok ps →
  filtered_df df ms ps = Ok f →
  rows f = filter keyed (rows df).
Proof.
  intros Hprep [_ Hms]%months_elem [_ Hps]%priorities_elem Hf.
  pose proof (prepare_rows _ _ _ _ Hprep) as (Hm & Hp & _ & _ & Hprepared).
  destruct (filtered_df_rows df ms ps Hm Hp) as (f' & Hf' & _ & Hrows).
  rewrite Hf in Hf'. injection Hf' as <-.
  rewrite Hrows. apply filter_ext_in. intros r Hr.
  rewrite Forall_forall in Hprepared.
  destruct (Hprepared r Hr) as ((_ & Hmy & Hprio) & _).
  apply col_is_lookup in Hprio as (p & Hp' & Hcat).
  unfold keyed, key_of, cell_of. rewrite Hmy, Hp'. simpl.
  rewrite Hms, Hps. split.
  - intros [[? _] [Hc _]]. split; [done|]. intros ->. revert Hc. compute_done.
  - intros [Hm' Hp'']. split; [split; [done|eauto]|].
    split; [|eauto].
    destruct (categorical_cases p) as [[Hc _]|[_ Heq]]; [done|congruence].
Qed.

Lemma default_selection_witness :
  rows with_open_filtered = filter keyed (rows with_open_df).
Proof.
  apply (default_selection no_repr no_parse with_open with_open_df
           [Str "Jan-2025"] [Str "P1"; Str "P2"] with_open_filtered);
    vm_compute; reflexivity.
Defined.

(** ** Filtering twice (line 60) *)

Lemma filtered_has_column df sm sp f c :
  filtered_df df sm sp = Ok f → has_column df c → has_column f c.
Proof.
  unfold filtered_df.
  intros (my & _ & (prio & _ & [= <-])%bind_Ok)%bind_Ok [Hc Hall].
  split; [done|]. simpl. apply Forall_forall.
  intros r Hr. rewrite Forall_forall in Hall. apply Hall.
  clear -Hr. revert Hr. generalize (zip_with andb (isin sm <$> my) (isin sp <$> prio)).
  induction (rows df) as [|x l IH]; intros [|[] mask]; simpl;
    rewrite ?elem_of_cons; try (by intros ?%elem_of_nil); naive_solver.
Qed.

(** X9.  Filtering an already filtered table by further selections gives
    what filtering the original table by the common part of the selections
    gives; filtering it again by the same selections changes nothing. *)
Theorem filtered_df_compose df sm1 sp1 sm2 sp2 f1 :
  has_column df "Month-Year" → has_column df "Priority" →
  filtered_df df sm1 sp1 = Ok f1 →
  filtered_df f1 sm2 sp2
  = filtered_df df (filter (.∈ sm2) sm1) (filter (.∈ sp2) sp1) ∧
  filtered_df f1 sm1 sp1 = Ok f1.
Proof.
  intros Hm Hp Hf1.
  pose proof (filtered_has_column _ _ _ _ _ Hf1 Hm) as Hm1.
  pose proof (filtered_has_column _ _ _ _ _ Hf1 Hp) as Hp1.
  destruct (filtered_df_rows df sm1 sp1 Hm Hp) as (f & Hf & Hcols & Hrows).
  rewrite Hf1 in Hf. injection Hf as <-.
  assert (Hsame : ∀ sm sp sm' sp',
            (∀ r, r ∈ rows df →
               (cell_of r "Month-Year" ∈ sm1 ∧ cell_of r "Priority" ∈ sp1) ∧
               (cell_of r "Month-Year" ∈ sm ∧ cell_of r "Priority" ∈ sp)
               ↔ cell_of r "Month-Year" ∈ sm' ∧ cell_of r "Priority" ∈ sp') →
            filtered_df f1 sm sp = filtered_df df sm' sp').
  { intros sm sp sm' sp' Hiff.
    destruct (filtered_df_rows f1 sm sp Hm1 Hp1) as (f2 & Hf2 & Hcols2 & Hrows2).
    destruct (filtered_df_rows df sm' sp' Hm Hp) as (f3 & Hf3 & Hcols3 & Hrows3).
    rewrite Hf2, Hf3. f_equal. destruct f2, f3. simpl in *. f_equal; [congruence|].
    rewrite Hrows2, Hrows3, Hrows, list_filter_filter.
    apply filter_ext_in. intros r Hr. rewrite <- Hiff by done. tauto. }
  split.
  - apply Hsame. intros r _. rewrite !list_elem_of_filter. tauto.
  - rewrite (Hsame sm1 sp1 sm1 sp1); [done|]. intros r _. tauto.
Qed.

Lemma filtered_df_compose_witness :
  filtered_df with_open_filtered [Str "Jan-2025"] [Str "P1"]
  = filtered_df with_open_df (filter (.∈ [Str "Jan-2025"]) [Str "Jan-2025"])
                (filter (.∈ [Str "P1"]) [Str "P1"; Str "P2"]) ∧
  filtered_df with_open_filtered [Str "Jan-2025"] [Str "P1"; Str "P2"]
  = Ok with_open_filtered.
Proof.
  apply (filtered_df_compose with_open_df).
  - compute_done.
  - compute_done.
  - vm_compute; reflexivity.
Defined.

(** ** Trimming and lowercasing the origin (line 36) *)

Lemma str_append_nil_l s : "" +:+ s = s.
Proof. reflexivity. Qed.

Lemma str_append_cons a s t : String a s +:+ t = String a (s +:+ t).
Proof. reflexivity. Qed.

Lemma str_append_nil_r s : s +:+ "" = s.
Proof.
  induction s as [|a s IH]; [done|]. by rewrite str_append_cons, IH.
Qed.

Lemma str_append_assoc s t u : s +:+ (t +:+ u) = (s +:+ t) +:+ u.
Proof.
  induction s as [|a s IH]; [done|]. by rewrite !str_append_cons, IH.
Qed.

Lemma str_rev_app_append s t : String.rev_app s t = String.rev s +:+ t.
Proof.
  unfold String.rev. revert t. induction s as [|a s IH]; intros t; simpl; [done|].
  rewrite (IH (String a t)), (IH (String a "")), <- str_append_assoc. done.
Qed.

Lemma str_rev_cons a s : String.rev (String a s) = String.rev s +:+ String a "".
Proof. unfold String.rev at 1. simpl. apply str_rev_app_append. Qed.

Lemma str_rev_append s t : String.rev (s +:+ t) = String.rev t +:+ String.rev s.
Proof.
  induction s as [|a s IH].
  - by rewrite str_append_nil_l, str_append_nil_r.
  - by rewrite str_append_cons, !str_rev_cons, IH, str_append_assoc.
Qed.

Lemma str_rev_involutive s : String.rev (String.rev s) = s.
Proof.
  induction s as [|a s IH]; [done|].
  by rewrite str_rev_cons, str_rev_append, IH.
Qed.

Lemma blank_append s t : blank (s +:+ t) = blank s && blank t.
Proof.
  induction s as [|a s IH]; [done|].
  rewrite str_append_cons. simpl. by rewrite IH, andb_assoc.
Qed.

Lemma blank_rev s : blank (String.rev s) = blank s.
Proof.
  induction s as [|a s IH]; [done|].
  rewrite str_rev_cons, blank_append, IH. simpl.
  by rewrite andb_true_r, andb_comm.
Qed.

Lemma lstrip_blank_append pre s : blank pre = true → lstrip (pre +:+ s) = lstrip s.
Proof.
  induction pre as [|a pre IH]; [done|]. rewrite str_append_cons. simpl.
  intros [-> Hpre]%andb_prop. auto.
Qed.

Lemma rstrip_append_blank s post :
  blank post = true → rstrip (s +:+ post) = rstrip s.
Proof.
  intros Hpost. unfold rstrip.
  by rewrite str_rev_append, lstrip_blank_append by by rewrite blank_rev.
Qed.

Lemma lstrip_decompose s : ∃ pre, blank pre = true ∧ s = pre +:+ lstrip s.
Proof.
  induction s as [|a s (pre & Hpre & Hs)]; simpl; [by exists ""|].
  destruct (isspace a) eqn:Ha.
  - exists (String a pre). simpl. rewrite Ha, Hpre. split; [done|].
    rewrite str_append_cons. by f_equal.
  - by exists "".
Qed.

Lemma rstrip_decompose s : ∃ post, blank post = true ∧ s = rstrip s +:+ post.
Proof.
  destruct (lstrip_decompose (String.rev s)) as (pre & Hpre & Hs).
  exists (String.rev pre). split; [by rewrite blank_rev|].
  unfold rstrip. rewrite <- str_rev_append, <- Hs. by rewrite str_rev_involutive.
Qed.

Lemma strip_decompose s :
  ∃ pre post, blank pre = true ∧ blank post = true ∧
              s = pre +:+ strip s +:+ post.
Proof.
  destruct (lstrip_decompose s) as (pre & Hpre & Hs).
  destruct (rstrip_decompose (lstrip s)) as (post & Hpost & Hl).
  exists pre, post. split; [done|]. split; [done|].
  unfold strip. by rewrite <- Hl.
Qed.

Lemma isspace_lower_char a : isspace (lower_char a) = isspace a.
Proof. by destruct a as [[] [] [] [] [] [] [] []]. Qed.

Lemma lower_append s t : lower (s +:+ t) = lower s +:+ lower t.
Proof.
  induction s as [|a s IH]; [done|]. rewrite str_append_cons. simpl.
  by rewrite str_append_cons, IH.
Qed.

Lemma lower_rev s : lower (String.rev s) = String.rev (lower s).
Proof.
  induction s as [|a s IH]; [done|]. simpl.
  by rewrite !str_rev_cons, lower_append, IH.
Qed.

Lemma lower_lstrip s : lower (lstrip s) = lstrip (lower s).
Proof.
  induction s as [|a s IH]; [done|]. simpl.
  rewrite isspace_lower_char. by destruct (isspace a).
Qed.

Lemma lower_strip s : lower (strip s) = strip (lower s).
Proof.
  unfold strip, rstrip. by rewrite lower_rev, lower_lstrip, lower_rev, lower_lstrip.
Qed.

Lemma blank_lower s : blank (lower s) = blank s.
Proof.
  induction s as [|a s IH]; [done|]. simpl. by rewrite isspace_lower_char, IH.
Qed.

(** X10.  Which origins count as direct (line 36).  A textual origin passes
    the test exactly when it consists of white space, then a word that is
    "internal call logging" or "web" up to letter case, then white space
    again; on a record with such an origin [calc_mtd] returns 0; a missing
    origin does not pass, since it reads as "nan". *)
Theorem direct_origin_normalised repr x :
  (direct_origin repr (Str x) ↔
   ∃ pre s post, x = pre +:+ s +:+ post ∧ blank pre = true ∧ blank post = true ∧
                 (lower s = "internal call logging" ∨ lower s = "web")) ∧
  (∀ row pre s post,
     row !! "Case Origin" = Some (Str x) →
     x = pre +:+ s +:+ post → blank pre = true → blank post = true →
     lower s = "internal call logging" ∨ lower s = "web" →
     calc_mtd repr row = Ok (Num 0)) ∧
  ¬ direct_origin repr NaN.
Proof.
  assert (Hpad : ∀ pre s post,
            x = pre +:+ s +:+ post → blank pre = true → blank post = true →
            lower s = "internal call logging" ∨ lower s = "web" →
            direct_origin repr (Str x)).
  { intros pre s post -> Hpre Hpost Hs. unfold direct_origin. simpl.
    rewrite lower_strip, !lower_append. unfold strip.
    rewrite lstrip_blank_append by by rewrite blank_lower.
    destruct Hs as [-> | ->]; rewrite str_append_cons; simpl lstrip;
      rewrite <- str_append_cons;
      rewrite rstrip_append_blank by (by rewrite blank_lower);
      [by left|by right]. }
  split; [|split; [|by intros [|]]].
  - split.
    + unfold direct_origin. simpl. intros Hd.
      destruct (strip_decompose x) as (pre & post & Hpre & Hpost & Hx).
      by exists pre, (strip x), post.
    + intros (pre & s & post & Hx & Hpre & Hpost & Hs). by eapply Hpad.
  - intros row pre s post Hrow Hx Hpre Hpost Hs.
    unfold calc_mtd, getitem. rewrite Hrow. simpl.
    rewrite bool_decide_eq_true_2; [done|].
    apply (direct_origin_elem repr (Str x)). by eapply Hpad.
Qed.

(** ** The month label and its sort key (lines 21, 51) *)

(** The first day of a month lies in that month. *)
Lemma civil_from_days_of_month y m :
  1 ≤ m ≤ 12 → civil_from_days (days_from_civil y m) = (y, m).
Proof.
  intros Hm.
  pose proof (civil_from_days_bracket (days_from_civil y m)) as [Hlo Hhi].
  pose proof (civil_from_days_month (days_from_civil y m)) as Hm0.
  destruct (civil_from_days (days_from_civil y m)) as [y0 m0].
  unfold next_month in Hhi. cbn [fst snd] in *.
  destruct (decide (y0 = y ∧ m0 = m)) as [[-> ->]|Hne]; [done|]. exfalso.
  destruct (decide (y0 < y ∨ (y0 = y ∧ m0 < m))) as [Hlt|Hge].
  - destruct (m0 =? 12) eqn:Hm12; cbn [fst snd] in Hhi.
    + apply Z.eqb_eq in Hm12 as ->.
      destruct (decide (y = y0 + 1 ∧ m = 1)) as [[-> ->]|Hn]; [lia|].
      assert (days_from_civil (y0 + 1) 1 < days_from_civil y m);
        [apply days_from_civil_mono; lia|lia].
    + apply Z.eqb_neq in Hm12.
      destruct (decide (y = y0 ∧ m = m0 + 1)) as [[-> ->]|Hn]; [lia|].
      assert (days_from_civil y0 (m0 + 1) < days_from_civil y m);
        [apply days_from_civil_mono; lia|lia].
  - assert (days_from_civil y m < days_from_civil y0 m0);
      [apply days_from_civil_mono; lia|lia].
Qed.

Lemma strftime_bY_eq t :
  strftime_bY t = format_bY (civil_from_days (t / us_per_day)).1
                            (civil_from_days (t / us_per_day)).2.
Proof. unfold strftime_bY. by destruct (civil_from_days _). Qed.

Lemma bucket_key t :
  four_digit_year (Time t) →
  to_datetime_bY (bucket (Time t)) = Ok (month_start t).
Proof.
  intros Hy. unfold bucket, to_datetime_bY, strptime_bY, month_start.
  rewrite strftime_bY_eq. unfold four_digit_year in Hy.
  pose proof (civil_from_days_month (t / us_per_day)) as Hm.
  destruct (civil_from_days (t / us_per_day)) as [y m].
  cbn [fst snd] in *. by rewrite label_roundtrip.
Qed.

Lemma month_start_le t : month_start t ≤ t.
Proof.
  unfold month_start. cbv zeta.
  pose proof (civil_from_days_bracket (t / us_per_day)) as [Hlo _].
  unfold us_per_day in *. Z.div_mod_to_equations. lia.
Qed.

(** X11.  Round trip of the month label: the label printed for a
    restoration time (line 21), parsed back as the sort key (lines 51, 66, 78
    and 133), is midnight of the first day of the month of that time.  That
    instant is not later than the time, lies on a day boundary, prints the
    same label, and is not later than any other time with that label. *)
Theorem month_label_roundtrip t :
  four_digit_year (Time t) →
  to_datetime_bY (bucket (Time t)) = Ok (month_start t) ∧
  month_start t ≤ t ∧ month_start t `mod` us_per_day = 0 ∧
  bucket (Time (month_start t)) = bucket (Time t) ∧
  ∀ t', four_digit_year (Time t') →
        bucket (Time t') = bucket (Time t) → month_start t ≤ t'.
Proof.
  intros Hy. split; [by apply bucket_key|].
  split; [apply month_start_le|]. split; [apply Z_mod_mult|]. split.
  - unfold bucket. rewrite !strftime_bY_eq. unfold month_start. cbv zeta.
    pose proof (civil_from_days_month (t / us_per_day)) as Hm.
    destruct (civil_from_days (t / us_per_day)) as [y m].
    cbn [fst snd] in *.
    replace (days_from_civil y m * us_per_day / us_per_day)
      with (days_from_civil y m) by (symmetry; by apply Z_div_mult).
    by rewrite civil_from_days_of_month.
  - intros t' Hy' Heq.
    pose proof (bucket_key t' Hy') as Hk'. rewrite Heq, bucket_key in Hk' by done.
    assert (Hs : month_start t = month_start t') by congruence.
    rewrite Hs. apply month_start_le.
Qed.

Lemma month_label_roundtrip_witness :
  to_datetime_bY (bucket (Time (jan_2025 + 90 * minute)))
    = Ok (month_start (jan_2025 + 90 * minute)) ∧
  month_start (jan_2025 + 90 * minute) ≤ jan_2025 + 90 * minute ∧
  month_start (jan_2025 + 90 * minute) `mod` us_per_day = 0 ∧
  bucket (Time (month_start (jan_2025 + 90 * minute)))
    = bucket (Time (jan_2025 + 90 * minute)) ∧
  ∀ t', four_digit_year (Time t') →
        bucket (Time t') = bucket (Time (jan_2025 + 90 * minute)) →
        month_start (jan_2025 + 90 * minute) ≤ t'.
Proof.
  apply (month_label_roundtrip (jan_2025 + 90 * minute)). compute_done.
Defined.

(** X12.  Two restoration times get the same label exactly when they lie in
    the same month of the same year: the buckets of different years never
    collide. *)
Theorem same_label_same_month t1 t2 :
  four_digit_year (Time t1) → four_digit_year (Time t2) →
  bucket (Time t1) = bucket (Time t2)
  ↔ civil_from_days (t1 / us_per_day) = civil_from_days (t2 / us_per_day).
Proof.
  intros Hy1 Hy2. unfold bucket. rewrite !strftime_bY_eq.
  unfold four_digit_year in *.
  pose proof (civil_from_days_month (t1 / us_per_day)) as Hm1.
  pose proof (civil_from_days_month (t2 / us_per_day)) as Hm2.
  destruct (civil_from_days (t1 / us_per_day)) as [y1 m1].
  destruct (civil_from_days (t2 / us_per_day)) as [y2 m2].
  cbn [fst snd] in *. split; [|by intros [= -> ->]].
  intros [= Heq].
  pose proof (label_roundtrip y1 m1 Hy1 Hm1) as H1.
  rewrite Heq, label_roundtrip in H1 by done. by injection H1 as -> ->.
Qed.

Lemma same_label_same_month_witness :
  bucket (Time jan_2025) = bucket (Time dec_2025)
  ↔ civil_from_days (jan_2025 / us_per_day)
    = civil_from_days (dec_2025 / us_per_day).
Proof.
  apply (same_label_same_month jan_2025 dec_2025); compute_done.
Defined.

(** ** The aggregate summary and its pivot (lines 63-78) *)

(** The rows [generate_avg_summary] returns, spelled out. *)
Lemma generate_avg_summary_char df metric :
  summary_input df metric →
  ∃ keys summary,
    NoDup keys ∧ (∀ k, k ∈ keys ↔ occurs df k) ∧
    generate_avg_summary df metric = Ok summary ∧
    summary ≡ₚ (λ k, (k.1, categorical priority_order k.2,
                      group_mean df metric k)) <$> keys ∧
    StronglySorted summary_order summary.
Proof.
  intros [Hm Hp Hv Hlab Hnum Hkeyed].
  destruct (groupby_observed df metric Hm Hp Hv) as (keys & Hg & Hnd & Hkeys).
  unfold generate_avg_summary, observed_default. rewrite Hg.
  unfold mbind at 1, result_bind at 1.
  rewrite (mapM_Ok_total _ (λ g, (g.1, agg_mean (non_null g.2)))).
  2:{ apply Forall_fmap, Forall_forall. intros k _. simpl.
      rewrite numeric_numbers; [done|].
      unfold group_cells. apply Forall_fmap, Forall_forall.
      intros r [_ Hr]%list_elem_of_filter. simpl.
      rewrite Forall_forall in Hnum. by apply Hnum. }
  unfold mbind at 1, result_bind at 1. cbv beta iota zeta.
  rewrite <- !list_fmap_compose.
  set (f := _ ∘ _ ∘ _).
  assert (Hf : ∀ k, f k = (k.1, categorical priority_order k.2,
                           group_mean df metric k)) by done.
  destruct (sorted_by_total summary_key_le summary_key (f <$> keys))
    as [summary Hs].
  { apply Forall_fmap, Forall_forall. intros k Hk. simpl.
    apply Hkeys in Hk as (r & Hr & [Hk1 _] & <-).
    rewrite Forall_forall in Hlab.
    destruct (valid_label_Ok _ (Hlab r Hr) Hk1) as [t Ht].
    unfold summary_key. rewrite Hf. cbn [fst snd]. unfold key_of. cbn [fst].
    rewrite Ht. by eexists. }
  exists keys, summary. split; [done|]. split.
  { intros k. rewrite Hkeys. unfold occurs. rewrite Exists_exists. naive_solver. }
  split; [done|].
  apply sorted_by_inv in Hs as [Hperm Hsorted]; [|apply _..].
  split; [|done]. by rewrite Hperm.
Qed.

Lemma categorised_occurs df k :
  categorised df → occurs df k → categorical priority_order k.2 = k.2.
Proof.
  intros Hcat (r & Hr & _ & <-)%Exists_exists.
  unfold categorised in Hcat. rewrite Forall_forall in Hcat.
  specialize (Hcat r Hr). apply col_is_lookup in Hcat as (p & Hp & Heq).
  unfold key_of, cell_of. rewrite Hp. simpl. congruence.
Qed.

Lemma generate_avg_summary_rows df metric :
  summary_input df metric → categorised df →
  ∃ summary, generate_avg_summary df metric = Ok summary ∧
    NoDup (summary.*1) ∧
    StronglySorted summary_order summary ∧
    ∀ m p v, (m, p, v) ∈ summary ↔
             occurs df (m, p) ∧ v = group_mean df metric (m, p).
Proof.
  intros Hin Hcat.
  destruct (generate_avg_summary_char df metric Hin)
    as (keys & summary & Hnd & Hkeys & Hs & Hperm & Hsorted).
  exists summary. split; [done|].
  rewrite (fmap_ext_in _ (λ k, (k, group_mean df metric k))) in Hperm.
  2:{ intros [m p] Hk%Hkeys.
      pose proof (categorised_occurs df (m, p) Hcat Hk) as Hp.
      cbn [fst snd] in *. by rewrite Hp. }
  split; [|split; [done|]].
  - rewrite Hperm, <- list_fmap_compose.
    rewrite (fmap_ext_in _ id keys) by done. by rewrite list_fmap_id.
  - intros m p v. rewrite Hperm, list_elem_of_fmap. split.
    + intros (k & [= -> ->] & Hk). by apply Hkeys in Hk.
    + intros [Hk ->]. exists (m, p). split; [done|]. by apply Hkeys.
Qed.



Lemma pivot_char (summary : list (cell * cell * cell)) :
  Forall (λ m, ∃ t, to_datetime_bY m = Ok t) (summary.*1.*1) →
  ∃ idx, pivot summary = Ok ((λ m, (m, pivot_row summary m)) <$> idx) ∧
         idx ≡ₚ unique (summary.*1.*1) ∧ StronglySorted chronological idx.
Proof.
  intros Hparse. unfold pivot.
  destruct (sorted_by_total Z.le to_datetime_bY
              (stable_sort label_le (unique (summary.*1.*1)))) as [sorted Hs].
  { rewrite stable_sort_Permutation. apply Forall_forall.
    intros m Hm. rewrite elem_of_unique in Hm.
    rewrite Forall_forall in Hparse. by apply Hparse. }
  rewrite Hs. unfold mbind, result_bind. exists sorted. split; [done|].
  apply sorted_by_inv in Hs as [Hperm Hsorted]; [|apply _..].
  split; [|done]. by rewrite Hperm, stable_sort_Permutation.
Qed.

Lemma summary_months_parse df metric (summary : list (cell * cell * cell)) :
  summary_input df metric →
  (∀ m p v, (m, p, v) ∈ summary → occurs df (m, p)) →
  Forall (λ m, ∃ t, to_datetime_bY m = Ok t) (summary.*1.*1).
Proof.
  intros [_ _ _ Hlab _ _] Hocc. apply Forall_forall.
  intros m ([m' p] & -> & ([[m'' p'] v] & [= <- <-] & Hin)%list_elem_of_fmap)%list_elem_of_fmap.
  apply Hocc in Hin. apply Exists_exists in Hin as (r & Hr & [Hk _] & Hkey).
  rewrite Forall_forall in Hlab. specialize (Hlab r Hr).
  unfold key_of in *. injection Hkey as <- <-. by apply valid_label_Ok.
Qed.



(** ** The chart and the export show the same means (lines 64, 127-145) *)

(** X15.  The chart and the export agree: whenever the aggregate summary
    (lines 63-67) lists a value for a month and one of the five priorities,
    the full summary (lines 126-151) holds the same value in the AVG cell
    of that priority in the row of that month; and where the aggregate
    summary lists nothing for the pair, that AVG cell is 0. *)
Theorem views_agree df metric label :
  summary_input df metric → categorised df →
  ∃ summary t ms month_rows avg,
    generate_avg_summary df metric = Ok summary ∧
    full_summary df metric label = Ok t ∧
    index t = ms ++ [Str "AVG"] ∧ rows (frame t) = month_rows ++ [avg] ∧
    ∀ i m row p,
      ms !! i = Some m → month_rows !! i = Some row → p ∈ priority_order →
      (∀ v, (m, Str p, v) ∈ summary →
            row !! (p +:+ " (AVG " +:+ label +:+ ")") = Some v) ∧
      ((∀ v, (m, Str p, v) ∉ summary) →
       row !! (p +:+ " (AVG " +:+ label +:+ ")") = Some (Num 0)).
Proof.
  intros Hin Hcat.
  destruct (generate_avg_summary_rows df metric Hin Hcat)
    as (summary & Hs & _ & _ & Hrows).
  destruct (full_summary_char df metric label Hin)
    as (keys & ms & Hnd & Hkeys & Hperm & Hsorted & Hne & Hfull & Htriad).
  eexists summary, _, ms, _, _. split; [done|]. split; [exact Hfull|].
  cbn [index frame rows]. split; [done|]. split; [done|].
  intros i m row p Hm Hrow Hp.
  rewrite list_lookup_fmap, Hm in Hrow. injection Hrow as <-.
  pose proof (f_equal snd (Htriad m p Hp)) as Havg. unfold triad in Havg.
  cbn [snd] in Havg. rewrite Havg. split.
  - intros v [Hocc ->]%Hrows. by rewrite decide_True by by apply Hkeys.
  - intros Hnot. rewrite decide_False; [done|].
    intros Hocc%Hkeys. eapply Hnot, Hrows. eauto.
Qed.

Lemma views_agree_witness :
  ∃ summary t ms month_rows avg,
    generate_avg_summary two_months_filtered "Final MTD" = Ok summary ∧
    full_summary two_months_filtered "Final MTD" "MTTD" = Ok t ∧
    index t = ms ++ [Str "AVG"] ∧ rows (frame t) = month_rows ++ [avg] ∧
    ∀ i m row p,
      ms !! i = Some m → month_rows !! i = Some row → p ∈ priority_order →
      (∀ v, (m, Str p, v) ∈ summary →
            row !! (p +:+ " (AVG " +:+ "MTTD" +:+ ")") = Some v) ∧
      ((∀ v, (m, Str p, v) ∉ summary) →
       row !! (p +:+ " (AVG " +:+ "MTTD" +:+ ")") = Some (Num 0)).
Proof.
  apply (views_agree two_months_filtered "Final MTD" "MTTD").
  - constructor; compute_done.
  - compute_done.
Defined.

(** ** When the export succeeds (lines 60-161) *)

Lemma generate_avg_summary_unkeyed df metric :
  has_column df "Month-Year" → has_column df "Priority" → has_column df metric →
  Forall (λ r, ¬ keyed r) (rows df) →
  generate_avg_summary df metric = Ok [].
Proof.
  intros Hm Hp Hv Hnone.
  destruct (groupby_observed df metric Hm Hp Hv) as (keys & Hg & _ & Hkeys).
  rewrite (no_keys_nil keys df Hkeys Hnone) in Hg.
  unfold generate_avg_summary, observed_default. by rewrite Hg.
Qed.

(** X16.  On a table in which no record has both a month and a priority,
    in particular on a table without records, the aggregate summary is
    empty, whereas [full_summary] raises [KeyError]: the frame built from no
    rows has no "Month-Year" column to index (line 148). *)
Theorem full_summary_no_groups df metric label :
  has_column df "Month-Year" → has_column df "Priority" → has_column df metric →
  Forall (λ r, ¬ keyed r) (rows df) →
  generate_avg_summary df metric = Ok [] ∧
  full_summary df metric label = Raise (KeyError "Month-Year").
Proof.
  intros Hm Hp Hv Hnone. split; [by apply generate_avg_summary_unkeyed|].
  by apply full_summary_unkeyed.
Qed.

Lemma full_summary_no_groups_witness :
  generate_avg_summary nothing_selected "Final MTR" = Ok [] ∧
  full_summary nothing_selected "Final MTR" "MTTR" = Raise (KeyError "Month-Year").
Proof.
  apply (full_summary_no_groups nothing_selected "Final MTR" "MTTR");
    compute_done.
Defined.

Lemma summary_pivot_total df metric :
  summary_input df metric →
  ∃ summary piv, generate_avg_summary df metric = Ok summary ∧
                 pivot summary = Ok piv.
Proof.
  intros Hin.
  destruct (generate_avg_summary_sorted df metric Hin)
    as (summary & Hs & _ & Hmonths).
  destruct (pivot_sorted summary) as (piv & Hpiv & _).
  { apply Forall_forall. intros m Hm.
    eapply (months_parse df metric (summary.*1.*1)); [done|exact Hmonths|done]. }
  by exists summary, piv.
Qed.

(** X17.  One pass of the script gets as far as the spreadsheet writer
    whenever the preparation succeeds, the selections hold no missing value,
    at least one record passes the filter and the restoration years print
    with four digits: both aggregate summaries, both pivots and both full
    summaries are built, and what the pass returns is what the writer makes
    of the three sheets: the filtered table and the workbook of the filtered
    table and the two full summaries when it accepts them, its exception
    otherwise. *)
Theorem render_reaches_writer repr pd raw df selected_months selected_priorities f :
  prepare repr pd raw = Ok df →
  filtered_df df selected_months selected_priorities = Ok f →
  NaN ∉ selected_months → NaN ∉ selected_priorities → rows f ≠ [] →
  Forall (λ r, four_digit_year (cell_of r "Service Restored Date")) (rows df) →
  ∃ mtd_avg mtr_avg mtd_pivot mtr_pivot mtd_full mtr_full,
    generate_avg_summary f "Final MTD" = Ok mtd_avg ∧
    generate_avg_summary f "Final MTR" = Ok mtr_avg ∧
    pivot mtd_avg = Ok mtd_pivot ∧ pivot mtr_avg = Ok mtr_pivot ∧
    full_summary f "Final MTD" "MTTD" = Ok mtd_full ∧
    full_summary f "Final MTR" "MTTR" = Ok mtr_full ∧
    render repr pd raw selected_months selected_priorities
    = (_ ← to_excel [] f;
       _ ← to_excel (index mtd_full) (frame mtd_full);
       _ ← to_excel (index mtr_full) (frame mtr_full);
       Ok (f, mkWorkbook f mtd_full mtr_full)).
Proof.
  intros Hprep Hf Hsm Hsp Hne Hyears.
  destruct (filtered_summary_input _ _ _ _ _ _ _ Hprep Hf Hsm Hsp Hne Hyears)
    as [Hd Hr].
  destruct (summary_pivot_total f "Final MTD" Hd) as (s1 & p1 & Hs1 & Hp1).
  destruct (summary_pivot_total f "Final MTR" Hr) as (s2 & p2 & Hs2 & Hp2).
  destruct (full_summary_char f "Final MTD" "MTTD" Hd)
    as (? & ? & _ & _ & _ & _ & _ & Ht1 & _).
  destruct (full_summary_char f "Final MTR" "MTTR" Hr)
    as (? & ? & _ & _ & _ & _ & _ & Ht2 & _).
  exists s1, s2, p1, p2. eexists _, _.
  split; [done|]. split; [done|]. split; [done|]. split; [done|].
  split; [exact Ht1|]. split; [exact Ht2|].
  unfold render, export, raw_view.
  rewrite Hprep. unfold mbind at 1, result_bind at 1. cbv beta iota.
  rewrite Hf. unfold mbind at 1, result_bind at 1. cbv beta iota.
  rewrite Hs1. unfold mbind at 1, result_bind at 1. cbv beta iota.
  rewrite Hs2. unfold mbind at 1, result_bind at 1. cbv beta iota.
  rewrite Hp1. unfold mbind at 1, result_bind at 1. cbv beta iota.
  rewrite Hp2. unfold mbind at 1, result_bind at 1. cbv beta iota.
  rewrite Ht1, Ht2. unfold mbind, result_bind. cbv beta iota.
  cbn [index frame].
  repeat match goal with |- context [to_excel ?i ?d] =>
    destruct (to_excel i d); [|done] end.
  done.
Qed.

Lemma render_reaches_writer_witness :
  ∃ mtd_avg mtr_avg mtd_pivot mtr_pivot mtd_full mtr_full,
    generate_avg_summary two_months_filtered "Final MTD" = Ok mtd_avg ∧
    generate_avg_summary two_months_filtered "Final MTR" = Ok mtr_avg ∧
    pivot mtd_avg = Ok mtd_pivot ∧ pivot mtr_avg = Ok mtr_pivot ∧
    full_summary two_months_filtered "Final MTD" "MTTD" = Ok mtd_full ∧
    full_summary two_months_filtered "Final MTR" "MTTR" = Ok mtr_full ∧
    render no_repr no_parse two_months
           [Str "Jan-2025"; Str "Dec-2025"] [Str "P1"; Str "P2"]
    = (_ ← to_excel [] two_months_filtered;
       _ ← to_excel (index mtd_full) (frame mtd_full);
       _ ← to_excel (index mtr_full) (frame mtr_full);
       Ok (two_months_filtered, mkWorkbook two_months_filtered mtd_full mtr_full)).
Proof.
  apply (render_reaches_writer no_repr no_parse two_months two_months_df).
  - vm_compute; reflexivity.
  - vm_compute; reflexivity.
  - compute_done.
  - compute_done.
  - compute_done.
  - compute_done.
Defined.

(** The writer accepts the three sheets of the two-month table, and refuses
    the main data of a table that holds a timestamp with a time zone. *)
Example writer_samples :
  (∃ wb, render no_repr no_parse two_months
                [Str "Jan-2025"; Str "Dec-2025"] [Str "P1"; Str "P2"]
         = Ok (two_months_filtered, wb)) ∧
  to_excel [] (mkDF ticket_columns [row_offset]) = Raise ValueError.
Proof. split; [eexists|]; vm_compute; reflexivity. Qed.



(** ** Every record is counted once (lines 127-145) *)

Lemma length_filter_or {A} (P Q : A → Prop) `{∀ x, Decision (P x)}
    `{∀ x, Decision (Q x)} (l : list A) :
  (∀ x, P x → Q x → False) →
  length (filter (λ x, P x ∨ Q x) l)
  = (length (filter P l) + length (filter Q l))%nat.
Proof.
  intros Hdis. induction l as [|x l IH]; [done|].
  rewrite !filter_cons.
  destruct (decide (P x)) as [HP|HP], (decide (Q x)) as [HQ|HQ].
  - by destruct (Hdis x).
  - rewrite decide_True by by left. simpl. by rewrite IH.
  - rewrite decide_True by by right. simpl. rewrite IH. lia.
  - rewrite decide_False by tauto. done.
Qed.

Lemma sumZ_app l k : sumZ (l ++ k) = sumZ l + sumZ k.
Proof. induction l as [|x l IH]; simpl; [done|]. rewrite IH. lia. Qed.

(** The sizes of the groups of distinct keys add up to the number of
    records with one of these keys. *)
Lemma group_sizes_add_up {A K} `{EqDecision K} (key : A → K) (Q : A → Prop)
    `{∀ x, Decision (Q x)} (keys : list K) (l : list A) :
  NoDup keys →
  sumZ ((λ k, Z.of_nat (length (filter (λ x, key x = k ∧ Q x) l))) <$> keys)
  = Z.of_nat (length (filter (λ x, key x ∈ keys ∧ Q x) l)).
Proof.
  induction 1 as [|k keys Hk Hnd IH]; csimpl.
  - rewrite filter_nil_in; [done|]. by intros x _ [?%elem_of_nil _].
  - rewrite IH.
    rewrite (list_filter_iff (λ x, key x ∈ k :: keys ∧ Q x)
               (λ x, (key x = k ∧ Q x) ∨ (key x ∈ keys ∧ Q x))).
    + rewrite length_filter_or; [lia|]. intros x [-> _] [? _]. done.
    + intros x. rewrite elem_of_cons. tauto.
Qed.

Lemma length_non_null_cells df metric k :
  length (non_null (group_cells df metric k))
  = length (filter (λ r, key_of r = k ∧ has_value metric r) (rows df)).
Proof.
  unfold group_cells. induction (rows df) as [|r l IH]; [done|].
  rewrite !filter_cons.
  destruct (decide (key_of r = k)) as [Hk|Hk];
    [|by rewrite decide_False by tauto].
  csimpl. destruct (decide (has_value metric r)) as [Hv|Hv].
  - rewrite decide_True by done. unfold has_value in Hv.
    destruct (cell_of r metric); try done. simpl. by rewrite IH.
  - rewrite decide_False by tauto. unfold has_value in Hv.
    by destruct (cell_of r metric).
Qed.

Lemma NoDup_month_priority (ms : list cell) :
  NoDup ms → NoDup (m ← ms; p ← priority_order; [(m, Str p)]).
Proof.
  intros Hnd. apply NoDup_bind; [| |done].
  - intros m1 m2 k _ _ (p1 & Hp1 & _)%list_elem_of_bind (p2 & Hp2 & _)%list_elem_of_bind.
    apply list_elem_of_singleton in Hp1, Hp2. congruence.
  - intros m _. apply (NoDup_fmap_1 snd). compute_done.
Qed.

Lemma elem_of_month_priority (ms : list cell) (k : cell * cell) :
  k ∈ (m ← ms; p ← priority_order; [(m, Str p)]) ↔ k.1 ∈ ms ∧ is_category k.2.
Proof.
  rewrite list_elem_of_bind. setoid_rewrite list_elem_of_bind.
  setoid_rewrite list_elem_of_singleton. rewrite is_category_Str.
  destruct k as [m q]. simpl. naive_solver.
Qed.

Lemma fmap_month_priority {B} (F : cell * cell → B) (ms : list cell) :
  F <$> (m ← ms; p ← priority_order; [(m, Str p)])
  = m ← ms; p ← priority_order; [F (m, Str p)].
Proof.
  induction ms as [|m ms IH]; [done|]. csimpl. do 5 f_equal. exact IH.
Qed.

(** X19.  Every record is counted once.  In the row of a month the COUNT
    cell of a priority holds the number of metric values of that (month,
    priority) group, and the COUNT cells of all months and all five
    priorities add up to the number of records that have a month bucket, one
    of the five priorities and a value of the metric. *)
Theorem counts_add_up df metric label :
  summary_input df metric →
  ∃ t ms month_rows avg,
    full_summary df metric label = Ok t ∧
    index t = ms ++ [Str "AVG"] ∧ rows (frame t) = month_rows ++ [avg] ∧
    (∀ i m row p,
       ms !! i = Some m → month_rows !! i = Some row → p ∈ priority_order →
       row !! (p +:+ " (COUNT)")
       = Some (Num (inject_Z (group_count df metric (m, Str p))))) ∧
    sumZ (m ← ms; p ← priority_order; [group_count df metric (m, Str p)])
    = Z.of_nat (length (filter (counted metric) (rows df))).
Proof.
  intros Hin.
  destruct (full_summary_char df metric label Hin)
    as (keys & ms & Hnd & Hkeys & Hperm & Hsorted & Hne & Hfull & Htriad).
  eexists _, ms, _, _. split; [exact Hfull|]. cbn [index frame rows].
  split; [done|]. split; [done|]. split.
  - intros i m row p Hm Hrow Hp.
    rewrite list_lookup_fmap, Hm in Hrow. injection Hrow as <-.
    pose proof (f_equal (λ x, x.1.1) (Htriad m p Hp)) as Hcount.
    unfold triad in Hcount. cbn [fst] in Hcount. rewrite Hcount.
    case_decide as Hk; [done|]. simpl. do 2 f_equal.
    unfold group_count. rewrite length_non_null_cells.
    rewrite filter_nil_in; [done|].
    intros r Hr [Hkey _]. apply Hk, Hkeys, Exists_exists.
    assert (Hmp : ∃ p', occurs df (m, p')).
    { eapply months_of_keys; [done..|]. by eapply list_elem_of_lookup_2. }
    destruct Hmp as (p' & (r' & _ & [Hm' _] & Hkey')%Exists_exists).
    exists r. split; [done|]. split; [|done].
    unfold keyed. rewrite Hkey. rewrite Hkey' in Hm'. done.
  - assert (Hndm : NoDup ms) by (rewrite Hperm; apply NoDup_unique).
    rewrite <- (fmap_month_priority (group_count df metric)).
    unfold group_count.
    rewrite (fmap_ext_in _
               (λ k, Z.of_nat (length (filter (λ r, key_of r = k ∧
                                                    has_value metric r)
                                              (rows df)))))
      by (intros k _; by rewrite length_non_null_cells).
    rewrite (group_sizes_add_up key_of (has_value metric) _ (rows df)
               (NoDup_month_priority ms Hndm)).
    do 2 f_equal. apply filter_ext_in. intros r Hr.
    rewrite elem_of_month_priority. unfold counted.
    pose proof (months_of_keys df keys ms Hkeys Hperm) as Hms.
    change (cell_of r "Month-Year") with (key_of r).1.
    change (cell_of r "Priority") with (key_of r).2.
    split.
    + intros [[Hm Hc] Hv]. split; [|done].
      apply Hms in Hm as (p' & (r' & _ & [Hm' _] & Hkey')%Exists_exists).
      rewrite Hkey' in Hm'. done.
    + intros (Hm & Hc & Hv). split; [|done]. split; [|done].
      apply Hms. exists (key_of r).2. apply Exists_exists. exists r.
      split; [done|]. split; [|by destruct (key_of r)].
      split; [done|]. intros Heq. rewrite Heq in Hc. revert Hc. compute_done.
Qed.

Lemma counts_add_up_witness :
  ∃ t ms month_rows avg,
    full_summary two_months_filtered "Final MTD" "MTTD" = Ok t ∧
    index t = ms ++ [Str "AVG"] ∧ rows (frame t) = month_rows ++ [avg] ∧
    (∀ i m row p,
       ms !! i = Some m → month_rows !! i = Some row → p ∈ priority_order →
       row !! (p +:+ " (COUNT)")
       = Some (Num (inject_Z (group_count two_months_filtered "Final MTD"
                                          (m, Str p))))) ∧
    sumZ (m ← ms; p ← priority_order;
          [group_count two_months_filtered "Final MTD" (m, Str p)])
    = Z.of_nat (length (filter (counted "Final MTD") (rows two_months_filtered))).
Proof.
  apply (counts_add_up two_months_filtered "Final MTD" "MTTD").
  constructor; compute_done.
Defined.
